(** * Verification of scripts/analyze-i18n-keys.py

    A shallow embedding of the i18n key-usage analyser: the key flattener,
    the three regular-expression scanners, the deep string scan and the
    classifier of [main], followed by the properties stated for them.

    Conventions of the embedding.
    - Source text and paths are [string]s of 8-bit characters; the classes
      [\w], [\s] and the assertion [\b] are read with the meaning they have
      on ASCII text.
    - Python [set] is [gset string], Python [dict] is [gmap string _]; the
      classification loop runs over the items of the flattened dictionary.
    - The file system is a function [read] from a path to the text of the
      file, [None] when [open]/[read] raises; [relpath] stands for
      [os.path.relpath(_, ROOT)].
    - The report is the dictionary built at the end of [main] without its
      ["generated"] time stamp. *)

From Stdlib Require Import Ascii String Bool Arith Lia List.
From stdpp Require Import base option list sets gmap strings sorting.

Open Scope string_scope.
Open Scope list_scope.

(** ** Characters and strings *)

Module Chars.

Definition code (a : ascii) : nat := nat_of_ascii a.

Definition between (lo hi : nat) (a : ascii) : bool :=
  ((lo <=? code a)%nat && (code a <=? hi)%nat)%bool.

Definition is_lower (a : ascii) : bool := between 97 122 a.
Definition is_upper (a : ascii) : bool := between 65 90 a.
Definition is_digit (a : ascii) : bool := between 48 57 a.

(** [[a-zA-Z]] *)
Definition is_alpha (a : ascii) : bool := is_lower a || is_upper a.

(** [[a-zA-Z0-9]] *)
Definition is_alnum (a : ascii) : bool := is_alpha a || is_digit a.

Definition underscore : ascii := ascii_of_nat 95.
Definition dot : ascii := ascii_of_nat 46.
Definition squote : ascii := ascii_of_nat 39.
Definition dquote : ascii := ascii_of_nat 34.
Definition backtick : ascii := ascii_of_nat 96.
Definition dollar : ascii := ascii_of_nat 36.
Definition lbrace : ascii := ascii_of_nat 123.
Definition lparen : ascii := ascii_of_nat 40.
Definition rparen : ascii := ascii_of_nat 41.
Definition comma : ascii := ascii_of_nat 44.

Definition is_char (c : ascii) (a : ascii) : bool := Ascii.eqb c a.

(** [[a-zA-Z_]] *)
Definition is_ident_start (a : ascii) : bool := is_alpha a || is_char underscore a.

(** [\w], as it is on ASCII text. *)
Definition is_word (a : ascii) : bool := is_alnum a || is_char underscore a.

(** [\s], as it is on ASCII text: tab, line feed, vertical tab, form feed,
    carriage return, the four separators 0x1c-0x1f and the space. *)
Definition is_space (a : ascii) : bool :=
  between 9 13 a || between 28 31 a || is_char (ascii_of_nat 32) a.

(** The quote classes: single or double quote; the two and the backtick. *)
Definition is_quote2 (a : ascii) : bool := is_char squote a || is_char dquote a.
Definition is_quote3 (a : ascii) : bool := is_quote2 a || is_char backtick a.

(** [str.lower] on one character. *)
Definition to_lower (a : ascii) : ascii :=
  if is_upper a then ascii_of_nat (code a + 32) else a.

End Chars.

(** ** A backtracking matcher for the patterns of the script

    The patterns use character classes, concatenation, optional groups,
    greedy and lazy repetition, the word boundary [\b], the anchor [^] and
    one capturing group each.  [run] explores the alternatives in the order
    of Python's [re]: a greedy repetition tries one more iteration first, a
    lazy one tries to stop first, an optional group is tried before it is
    skipped. *)

Module Re.

Inductive regex : Type :=
| Eps
| Cls (p : ascii -> bool)
| Seq (r1 r2 : regex)
| Alt (r1 r2 : regex)
| Star (greedy : bool) (r : regex)
| Grp (r : regex)
| WordB
| Bol.

Definition Chr (c : ascii) : regex := Cls (Chars.is_char c).
Definition Opt (r : regex) : regex := Alt r Eps.
Definition Plus (greedy : bool) (r : regex) : regex := Seq r (Star greedy r).

Fixpoint Lit (s : list ascii) : regex :=
  match s with
  | [] => Eps
  | c :: s' => Seq (Chr c) (Lit s')
  end.

Fixpoint Cat (rs : list regex) : regex :=
  match rs with
  | [] => Eps
  | r :: rs' => Seq r (Cat rs')
  end.

(** A position in the subject: the character before it (for [\b] and [^]),
    the text after it, and the text of group 1 when it has been closed. *)
Record cursor : Type := Cursor {
  before : option ascii;
  after : list ascii;
  group1 : option (list ascii)
}.

Definition word_at (o : option ascii) : bool :=
  match o with
  | Some a => Chars.is_word a
  | None => false
  end.

Definition at_boundary (c : cursor) : bool :=
  xorb (word_at (before c)) (word_at (head (after c))).

Definition first_of {A} (x y : option A) : option A :=
  match x with
  | Some _ => x
  | None => y
  end.

(** The iterations of a repetition whose body is run by [body], with
    continuation [k].  An iteration has to consume text; [n] bounds the
    iterations still possible and is the length of the text left when the
    repetition is entered. *)
Fixpoint star_loop (body : cursor -> (cursor -> option cursor) -> option cursor)
    (greedy : bool) (k : cursor -> option cursor) (n : nat) (c : cursor)
  : option cursor :=
  match n with
  | O => k c
  | S n' =>
      let more :=
        body c (fun c1 =>
          if (length (after c1) <? length (after c))%nat
          then star_loop body greedy k n' c1 else None) in
      if greedy then first_of more (k c) else first_of (k c) more
  end.

Fixpoint run (r : regex) (c : cursor) (k : cursor -> option cursor)
  : option cursor :=
  match r with
  | Eps => k c
  | Cls p =>
      match after c with
      | a :: s => if p a then k (Cursor (Some a) s (group1 c)) else None
      | [] => None
      end
  | Seq r1 r2 => run r1 c (fun c1 => run r2 c1 k)
  | Alt r1 r2 => first_of (run r1 c k) (run r2 c k)
  | Star greedy r1 => star_loop (run r1) greedy k (length (after c)) c
  | Grp r1 =>
      run r1 c (fun c1 =>
        k (Cursor (before c1) (after c1)
             (Some (take (length (after c) - length (after c1)) (after c)))))
  | WordB => if at_boundary c then k c else None
  | Bol => match before c with None => k c | Some _ => None end
  end.

(** One attempt at the position [c]: the cursor at the end of the match. *)
Definition match_here (r : regex) (c : cursor) : option cursor :=
  run r c Some.

Definition group_text (c : cursor) : list ascii := default [] (group1 c).

(** [re.finditer]: the matches from left to right, none overlapping an
    earlier one; only [m.group(1)] of each is kept.  [skip] counts the
    characters still covered by the last match. *)
Fixpoint scan (r : regex) (prev : option ascii) (s : list ascii) (skip : nat)
  : list (list ascii) :=
  match skip with
  | S skip' =>
      match s with
      | [] => []
      | a :: s' => scan r (Some a) s' skip'
      end
  | O =>
      match match_here r (Cursor prev s None) with
      | Some c =>
          group_text c ::
          match s with
          | [] => []
          | a :: s' =>
              scan r (Some a) s' (pred (length s - length (after c)))
          end
      | None =>
          match s with
          | [] => []
          | a :: s' => scan r (Some a) s' 0
          end
      end
  end.

Definition finditer (r : regex) (s : string) : list string :=
  string_of_list_ascii <$> scan r None (list_ascii_of_string s) 0.

(** Whether the scan tries a match at the end of [pre], where [rest]
    follows: it does unless a match found earlier covers that position.
    The recursion is the one of [scan], stopped at the end of [pre]. *)
Fixpoint tries (r : regex) (prev : option ascii) (pre rest : list ascii)
    (skip : nat) : bool :=
  match pre with
  | [] => (skip =? 0)%nat
  | a :: pre' =>
      match skip with
      | S skip' => tries r (Some a) pre' rest skip'
      | O =>
          match match_here r (Cursor prev (pre ++ rest) None) with
          | Some c =>
              tries r (Some a) pre' rest
                    (pred (length (pre ++ rest) - length (after c)))
          | None => tries r (Some a) pre' rest 0
          end
      end
  end.

(** [re.finditer(r, pre + rest)] tries a match where [rest] begins. *)
Definition tried_at (r : regex) (pre rest : string) : bool :=
  tries r None (list_ascii_of_string pre) (list_ascii_of_string rest) 0.

(** [re.match]: one attempt at the start of the subject; [m.group(1)]. *)
Definition re_match (r : regex) (s : string) : option string :=
  c ← match_here r (Cursor None (list_ascii_of_string s) None);
  Some (string_of_list_ascii (group_text c)).

End Re.

(** ** String helpers: the [str] methods the script calls *)

Module Str.

(** [s.lower()], as it is on ASCII text: the letters [A]-[Z] are mapped,
    every other character is kept. *)
Definition lower (s : string) : string :=
  string_of_list_ascii (Chars.to_lower <$> list_ascii_of_string s).

(** [key.startswith(prefix)] *)
Definition startswith (key prefix : string) : bool := String.prefix prefix key.

(** [ind in s] for strings *)
Fixpoint contains (ind s : string) {struct s} : bool :=
  String.prefix ind s ||
  match s with
  | EmptyString => false
  | String _ s' => contains ind s'
  end.

(** [s.endswith(suffix)] *)
Fixpoint endswith (s suffix : string) {struct s} : bool :=
  String.eqb s suffix ||
  match s with
  | EmptyString => false
  | String _ s' => endswith s' suffix
  end.

Fixpoint drop_dots (l : list ascii) : list ascii :=
  match l with
  | a :: l' => if Chars.is_char Chars.dot a then drop_dots l' else l
  | [] => []
  end.

(** [s.rstrip('.')] *)
Definition rstrip_dots (s : string) : string :=
  string_of_list_ascii (rev (drop_dots (rev (list_ascii_of_string s)))).

(** Python's truth value of a string. *)
Definition truthy (s : string) : bool :=
  match s with
  | EmptyString => false
  | String _ _ => true
  end.

(** [sep.join(l)] *)
Fixpoint join (sep : string) (l : list string) : string :=
  match l with
  | [] => ""
  | [x] => x
  | x :: l' => x ++ sep ++ join sep l'
  end.

(** [sorted(X)] for a set of strings. *)
Definition sorted (X : gset string) : list string :=
  merge_sort (λ a b, Is_true (String.leb a b)) (elements X).

End Str.

(** ** The patterns

    Each definition is preceded by the pattern it transcribes, where [Q2]
    abbreviates the two characters single quote and double quote, and [Q3]
    those two and the backtick, and a blank separates a star from a closing
    parenthesis. *)

Module Pat.
Import Re.

Definition S (s : string) : regex := Lit (list_ascii_of_string s).
Definition spaces : regex := Star true (Cls Chars.is_space).
Definition none_of (p : ascii -> bool) : regex := Cls (λ a, negb (p a)).

(** [(?:\bi18n(?:ext)?\.)?\bt\s*\(\s*], the head shared by the three call
    patterns. *)
Definition call_head : list regex :=
  [ Opt (Cat [WordB; S "i18n"; Opt (S "ext"); Chr Chars.dot]);
    WordB; S "t"; spaces; Chr Chars.lparen; spaces ].

(** [(?:\bi18n(?:ext)?\.)?\bt\s*\(\s*[Q3]([^Q3\$]+?)[Q3]] *)
Definition t_call : regex :=
  Cat (call_head ++
       [ Cls Chars.is_quote3;
         Grp (Plus false
                (none_of (λ a, Chars.is_quote3 a || Chars.is_char Chars.dollar a)));
         Cls Chars.is_quote3 ]).

(** [i18nKey\s*=\s*[Q2]([^Q2]+?)[Q2]] *)
Definition i18n_key_attr : regex :=
  Cat [ S "i18nKey"; spaces; S "="; spaces;
        Cls Chars.is_quote2;
        Grp (Plus false (none_of Chars.is_quote2));
        Cls Chars.is_quote2 ].

(** [<FormattedMessage\s+id\s*=\s*[Q2]([^Q2]+?)[Q2]] *)
Definition formatted_message : regex :=
  Cat [ S "<FormattedMessage"; Plus true (Cls Chars.is_space); S "id";
        spaces; S "="; spaces;
        Cls Chars.is_quote2;
        Grp (Plus false (none_of Chars.is_quote2));
        Cls Chars.is_quote2 ].

(** [(?:\bi18n(?:ext)?\.)?\bt\s*\(\s*`([^`]*\$\{[^`]* )`] *)
Definition t_template : regex :=
  Cat (call_head ++
       [ Chr Chars.backtick;
         Grp (Cat [ Star true (none_of (Chars.is_char Chars.backtick));
                    Chr Chars.dollar; Chr Chars.lbrace;
                    Star true (none_of (Chars.is_char Chars.backtick)) ]);
         Chr Chars.backtick ]).

(** [^([^$]+)\$\{] *)
Definition template_prefix : regex :=
  Cat [ Bol;
        Grp (Plus true (none_of (Chars.is_char Chars.dollar)));
        Chr Chars.dollar; Chr Chars.lbrace ].

(** [(?:\bi18n(?:ext)?\.)?\bt\s*\(\s*([a-zA-Z_]\w*(?:\.\w+)* )\s*[,)]] *)
Definition t_variable : regex :=
  Cat (call_head ++
       [ Grp (Cat [ Cls Chars.is_ident_start;
                    Star true (Cls Chars.is_word);
                    Star true (Cat [Chr Chars.dot; Plus true (Cls Chars.is_word)]) ]);
         spaces;
         Cls (λ a, Chars.is_char Chars.comma a || Chars.is_char Chars.rparen a) ]).

(** [[a-zA-Z][a-zA-Z0-9]*], one segment of a dotted path. *)
Definition segment : regex :=
  Seq (Cls Chars.is_alpha) (Star true (Cls Chars.is_alnum)).

(** [[a-zA-Z][a-zA-Z0-9]*(?:\.[a-zA-Z][a-zA-Z0-9]* )+] *)
Definition dotted_path : regex :=
  Seq segment (Plus true (Seq (Chr Chars.dot) segment)).

(** [[Q2]([a-zA-Z][a-zA-Z0-9]*(?:\.[a-zA-Z][a-zA-Z0-9]* )+)[Q2]] *)
Definition quoted_dotted : regex :=
  Seq (Cls Chars.is_quote2) (Seq (Grp dotted_path) (Cls Chars.is_quote2)).

End Pat.

(** ** Constants of the script

    [find_source_files] walks the tree and keeps the files whose extension
    is in [SOURCE_EXTENSIONS]; the analysis below starts from the list of
    paths it returns. *)

Definition TEST_INDICATORS : list string :=
  ["test"; "__tests__"; ".test."; ".spec."; "__mocks__"].

Definition SOURCE_EXTENSIONS : list string := [".ts"; ".tsx"; ".js"; ".jsx"].

Definition NOT_VARIABLES : list string :=
  ["true"; "false"; "null"; "undefined"; "this"].

(** ** The scanners *)

(** [is_test_file] *)
Definition is_test_file (rel_path : string) : bool :=
  let lower := Str.lower rel_path in
  existsb (λ ind, Str.contains ind lower) TEST_INDICATORS.

(** [extract_t_calls]: the three loops add [m.group(1)] to one set. *)
Definition extract_t_calls (content : string) : gset string :=
  list_to_set (Re.finditer Pat.t_call content ++
               Re.finditer Pat.i18n_key_attr content ++
               Re.finditer Pat.formatted_message content).

Record dynamic_pattern : Type := DynamicPattern {
  dp_pattern : string;
  dp_prefix : option string;
  dp_file : string
}.

Global Instance dynamic_pattern_eq_dec : EqDecision dynamic_pattern.
Proof. solve_decision. Defined.

Definition template_entry (filepath template : string) : option dynamic_pattern :=
  prefix_match ← Re.re_match Pat.template_prefix template;
  Some (DynamicPattern template (Some (Str.rstrip_dots prefix_match)) filepath).

Definition variable_entry (filepath var_name : string) : option dynamic_pattern :=
  if bool_decide (var_name ∈ NOT_VARIABLES) then None
  else Some (DynamicPattern ("variable: " ++ var_name) None filepath).

(** [extract_dynamic_patterns] *)
Definition extract_dynamic_patterns (content filepath : string)
  : list dynamic_pattern :=
  omap (template_entry filepath) (Re.finditer Pat.t_template content) ++
  omap (variable_entry filepath) (Re.finditer Pat.t_variable content).

(** ** The key document and [flatten_keys] *)

Unset Elimination Schemes.

(** What [json.load] returns: a dictionary of items in document order whose
    values are dictionaries again or leaves (strings, numbers, lists, ...). *)
Inductive json (Leaf : Type) : Type :=
| JLeaf (v : Leaf)
| JDict (items : list (string * json Leaf)).
Set Elimination Schemes.

Arguments JLeaf {Leaf} v.
Arguments JDict {Leaf} items.

(** [f"{prefix}.{k}" if prefix else k] *)
Definition full_key_of (prefix k : string) : string :=
  if Str.truthy prefix then prefix ++ "." ++ k else k.

Section Flatten.
Context {Leaf : Type}.
(** Python's [str] on a leaf value. *)
Variable py_str : Leaf -> string.

(** [flatten_keys(obj, prefix)]; [obj] is always a dictionary, the leaf
    case is the one of a document that is not an object and has no items. *)
Fixpoint flatten_keys (obj : json Leaf) (prefix : string)
  : gmap string string :=
  match obj with
  | JLeaf _ => ∅
  | JDict items =>
      foldl (λ (keys : gmap string string) (kv : string * json Leaf),
               let full_key := full_key_of prefix kv.1 in
               match kv.2 with
               | JDict _ => flatten_keys kv.2 full_key ∪ keys
               | JLeaf v => <[full_key := py_str v]> keys
               end)
            ∅ items
  end.
End Flatten.

(** ** The two scanning phases and the classifier of [main] *)

Record used_entry : Type := UsedEntry {
  u_value : string;
  u_locations : list string
}.

Record dynamic_entry : Type := DynamicEntry {
  d_value : string;
  d_matched_pattern : string;
  d_pattern_file : string
}.

Record unused_entry : Type := UnusedEntry {
  n_value : string
}.

Global Instance used_entry_eq_dec : EqDecision used_entry.
Proof. solve_decision. Defined.
Global Instance dynamic_entry_eq_dec : EqDecision dynamic_entry.
Proof. solve_decision. Defined.
Global Instance unused_entry_eq_dec : EqDecision unused_entry.
Proof. solve_decision. Defined.

(** The state of the first loop of [main]. *)
Record direct_scan : Type := DirectScan {
  used_keys : gset string;
  key_usage_locations : gmap string (gset string);
  dynamic_patterns : list dynamic_pattern
}.

(** The result of [deep_scan_string_literals]. *)
Record deep_scan : Type := DeepScan {
  recovered : gset string;
  recovery_locations : gmap string (gset string)
}.

(** The three dictionaries filled by the classification loop. *)
Record buckets : Type := Buckets {
  used : gmap string used_entry;
  possibly_dynamic : gmap string dynamic_entry;
  unused : gmap string unused_entry
}.

(** The dictionary that [main] dumps, without ["generated"]. *)
Record report : Type := Report {
  total_defined : nat;
  used_count : nat;
  possibly_dynamic_count : nat;
  unused_count : nat;
  test_only_count : nat;
  r_used : gmap string used_entry;
  r_possibly_dynamic : gmap string dynamic_entry;
  r_unused : gmap string unused_entry;
  test_only_keys : list string;
  r_dynamic_patterns : list dynamic_pattern
}.

(** [d[key]] for a [defaultdict(set)]. *)
Definition locations_of (d : gmap string (gset string)) (key : string)
  : gset string :=
  default ∅ (d !! key).

(** [d[key].add(rel_path)] *)
Definition add_location (rel_path key : string) (d : gmap string (gset string))
  : gmap string (gset string) :=
  <[key := locations_of d key ∪ {[rel_path]}]> d.

(** ["/locales/" in filepath and filepath.endswith(".json")] *)
Definition is_locale_json (filepath : string) : bool :=
  Str.contains "/locales/" filepath && Str.endswith filepath ".json".

(** [prefix and key.startswith(prefix)] for [prefix = dp.get("prefix")] *)
Definition prefix_matches (key : string) (dp : dynamic_pattern) : bool :=
  match dp_prefix dp with
  | Some prefix => Str.truthy prefix && Str.startswith key prefix
  | None => false
  end.

Section Main.
Context {Leaf : Type}.
Variable py_str : Leaf -> string.
(** [os.path.relpath(filepath, ROOT)] *)
Variable relpath : string -> string.
(** [open(filepath, "r", errors="replace").read()], [None] when it raises. *)
Variable read : string -> option string.

(** The text the loops work on: [None] when the body is left by one of
    the two [continue]s. *)
Definition scanned (filepath : string) : option string :=
  content ← read filepath;
  if is_locale_json filepath then None else Some content.

(** The body of [for key in keys_found]. *)
Definition record_key (rel_path key : string)
    (acc : gset string * gmap string (gset string))
  : gset string * gmap string (gset string) :=
  (acc.1 ∪ {[key]}, add_location rel_path key acc.2).

(** The body of the first [for filepath in source_files] of [main]. *)
Definition direct_step (st : direct_scan) (filepath : string) : direct_scan :=
  match read filepath with
  | None => st
  | Some content =>
      let rel_path := relpath filepath in
      if is_locale_json filepath then st
      else
        let keys_found := extract_t_calls content in
        let acc :=
          set_fold (record_key rel_path)
                   (used_keys st, key_usage_locations st) keys_found in
        let dyn := extract_dynamic_patterns content rel_path in
        DirectScan acc.1 acc.2 (dynamic_patterns st ++ dyn)
  end.

Definition direct_phase (source_files : list string) : direct_scan :=
  foldl direct_step (DirectScan ∅ ∅ []) source_files.

(** The body of [for m in re.finditer(...)] in the deep scan. *)
Definition recover (defined_keys_set : gset string) (rel_path : string)
    (st : deep_scan) (key : string) : deep_scan :=
  if decide (key ∈ defined_keys_set)
  then DeepScan (recovered st ∪ {[key]})
                (add_location rel_path key (recovery_locations st))
  else st.

Definition deep_step (defined_keys_set : gset string)
    (st : deep_scan) (filepath : string) : deep_scan :=
  match read filepath with
  | None => st
  | Some content =>
      let rel_path := relpath filepath in
      if is_locale_json filepath then st
      else foldl (recover defined_keys_set rel_path) st
                 (Re.finditer Pat.quoted_dotted content)
  end.

(** [deep_scan_string_literals(source_files, root, defined_keys_set)] *)
Definition deep_scan_string_literals (source_files : list string)
    (defined_keys_set : gset string) : deep_scan :=
  foldl (deep_step defined_keys_set) (DeepScan ∅ ∅) source_files.

(** The body of [for key, value in all_keys.items()]. *)
Definition classify_step (direct : direct_scan) (deep : deep_scan)
    (b : buckets) (item : string * string) : buckets :=
  let key := item.1 in
  let value := item.2 in
  if decide (key ∈ used_keys direct) then
    Buckets
      (<[key := UsedEntry value
                  (Str.sorted (locations_of (key_usage_locations direct) key))]>
         (used b))
      (possibly_dynamic b) (unused b)
  else if decide (key ∈ recovered deep) then
    Buckets
      (used b)
      (<[key := DynamicEntry value "string literal reference in source"
                  (Str.join ", "
                     (Str.sorted (locations_of (recovery_locations deep) key)))]>
         (possibly_dynamic b))
      (unused b)
  else
    match find (prefix_matches key) (dynamic_patterns direct) with
    | Some matched_pattern =>
        Buckets
          (used b)
          (<[key := DynamicEntry value (dp_pattern matched_pattern)
                      (dp_file matched_pattern)]>
             (possibly_dynamic b))
          (unused b)
    | None =>
        Buckets (used b) (possibly_dynamic b)
                (<[key := UnusedEntry value]> (unused b))
    end.

Definition classify (all_keys : gmap string string)
    (direct : direct_scan) (deep : deep_scan) : buckets :=
  foldl (classify_step direct deep) (Buckets ∅ ∅ ∅) (map_to_list all_keys).

(** [all(is_test_file(loc) for loc in locs)] *)
Definition all_test_files (locs : gset string) : bool :=
  forallb is_test_file (elements locs).

(** The loop [for key in used] that fills [test_only]. *)
Definition test_only_of (direct : direct_scan)
    (used : gmap string used_entry) : gset string :=
  foldl (λ (test_only : gset string) (key : string),
           if all_test_files (locations_of (key_usage_locations direct) key)
           then test_only ∪ {[key]} else test_only)
        ∅ (elements (dom used)).

(** The intermediate values of [main], kept for the statements. *)
Record run : Type := Run {
  all_keys : gmap string string;
  direct : direct_scan;
  remaining_keys : gset string;
  deep : deep_scan;
  classes : buckets;
  test_only : gset string
}.

Definition analyse (en_data : list (string * json Leaf))
    (source_files : list string) : run :=
  let all_keys := flatten_keys py_str (JDict en_data) "" in
  let defined_keys_set := dom all_keys in
  let direct := direct_phase source_files in
  let remaining_keys := defined_keys_set ∖ used_keys direct in
  let deep := deep_scan_string_literals source_files remaining_keys in
  let classes := classify all_keys direct deep in
  let test_only := test_only_of direct (used classes) in
  Run all_keys direct remaining_keys deep classes test_only.

Definition report_of (r : run) : report :=
  Report (size (all_keys r))
         (size (used (classes r)))
         (size (possibly_dynamic (classes r)))
         (size (unused (classes r)))
         (size (test_only r))
         (used (classes r))
         (possibly_dynamic (classes r))
         (unused (classes r))
         (Str.sorted (test_only r))
         (dynamic_patterns (direct r)).

(** [main], from the parsed key document and the list of source files to
    the dictionary it prints. *)
Definition main (en_data : list (string * json Leaf))
    (source_files : list string) : report :=
  report_of (analyse en_data source_files).

End Main.

(** ** Shapes of dotted paths, on character lists *)

Module Shape.

(** Characters of a dotted path. *)
Definition path_char (a : ascii) : bool := Chars.is_alnum a || Chars.is_char Chars.dot a.

(** A letter followed by letters and digits. *)
Definition is_segment (seg : list ascii) : bool :=
  match seg with
  | a :: u => Chars.is_alpha a && forallb Chars.is_alnum u
  | [] => false
  end.

(** A non-empty run of letters and digits. *)
Definition is_alnum_run (seg : list ascii) : bool :=
  match seg with
  | _ :: _ => forallb Chars.is_alnum seg
  | [] => false
  end.

Definition ends_alnum (w : list ascii) : bool :=
  match last w with
  | Some z => Chars.is_alnum z
  | None => false
  end.

(** [.s1.s2...] *)
Definition dotted_tail (segs : list (list ascii)) : list ascii :=
  concat (cons Chars.dot <$> segs).

(** ["."].join(segs) on character lists. *)
Definition join_dots (segs : list (list ascii)) : list ascii :=
  match segs with
  | [] => []
  | seg :: segs' => seg ++ dotted_tail segs'
  end.

End Shape.

(** ** What the matcher can match *)

Module ReSpec.
Import Re Shape.

(** The texts a pattern can consume, whatever the context. *)
Inductive lang : regex -> list ascii -> Prop :=
| L_eps : lang Eps []
| L_cls p a : p a = true -> lang (Cls p) [a]
| L_seq r1 r2 w1 w2 : lang r1 w1 -> lang r2 w2 -> lang (Seq r1 r2) (w1 ++ w2)
| L_alt_l r1 r2 w : lang r1 w -> lang (Alt r1 r2) w
| L_alt_r r1 r2 w : lang r2 w -> lang (Alt r1 r2) w
| L_star_nil g r : lang (Star g r) []
| L_star_cons g r w1 w2 : lang r w1 -> lang (Star g r) w2 -> lang (Star g r) (w1 ++ w2)
| L_grp r w : lang r w -> lang (Grp r) w
| L_wordb : lang WordB []
| L_bol : lang Bol [].

(** A runner consumes only texts of the pattern [r]. *)
Definition sound_body (body : cursor -> (cursor -> option cursor) -> option cursor)
  (r : regex) : Prop :=
  forall c k x, body c k = Some x ->
    exists w c', lang r w /\ after c = w ++ after c' /\ k c' = Some x.

(** A text of path characters that ends in a letter or a digit. *)
Definition good (w : list ascii) : Prop :=
  Forall (λ a, path_char a = true) w ∧ ends_alnum w = true.

(** The next character, if any, is outside the class [p]. *)
Definition stops (p : ascii -> bool) (rest : list ascii) : Prop :=
  forall a, head rest = Some a -> p a = false.

(** No match that starts inside [pre] reaches into [rest]. *)
Definition no_overrun (r : regex) (pre rest : list ascii) : Prop :=
  forall pre1 a pre2 prev c,
    pre = pre1 ++ a :: pre2 ->
    match_here r (Cursor prev (a :: pre2 ++ rest) None) = Some c ->
    length (a :: pre2 ++ rest) - length (after c) <= length (a :: pre2).

End ReSpec.

(** ** What one file contributes

    The contribution of a single file to each loop, used to state what the
    loops compute. *)

Section Evidence.
Variable relpath : string -> string.
Variable read : string -> option string.

(** The keys the direct-reference scan detects in a file. *)
Definition keys_in (filepath : string) : gset string :=
  match scanned read filepath with
  | Some content => extract_t_calls content
  | None => ∅
  end.

(** The evidence a file gives for [key]: its relative path when the key is
    detected in it. *)
Definition file_evidence (key filepath : string) : gset string :=
  if decide (key ∈ keys_in filepath) then {[relpath filepath]} else ∅.

(** The dynamic patterns extracted from a file. *)
Definition patterns_in (filepath : string) : list dynamic_pattern :=
  match scanned read filepath with
  | Some content => extract_dynamic_patterns content (relpath filepath)
  | None => []
  end.

(** The quoted dotted strings the deep scan finds in a file. *)
Definition literals_in (filepath : string) : list string :=
  match scanned read filepath with
  | Some content => Re.finditer Pat.quoted_dotted content
  | None => []
  end.
End Evidence.

(** The bucket a key goes to, with its entry: the decision taken by one
    iteration of the classification loop. *)
Inductive verdict : Type :=
| Used (e : used_entry)
| Dynamic (e : dynamic_entry)
| Unused (e : unused_entry).

Definition verdict_of (direct : direct_scan) (deep : deep_scan)
    (key value : string) : verdict :=
  if decide (key ∈ used_keys direct) then
    Used (UsedEntry value
            (Str.sorted (locations_of (key_usage_locations direct) key)))
  else if decide (key ∈ recovered deep) then
    Dynamic (DynamicEntry value "string literal reference in source"
               (Str.join ", "
                  (Str.sorted (locations_of (recovery_locations deep) key))))
  else
    match find (prefix_matches key) (dynamic_patterns direct) with
    | Some matched_pattern =>
        Dynamic (DynamicEntry value (dp_pattern matched_pattern)
                   (dp_file matched_pattern))
    | None => Unused (UnusedEntry value)
    end.

Definition file_under (key : string) (v : verdict) (b : buckets) : buckets :=
  match v with
  | Used e => Buckets (<[key := e]> (used b)) (possibly_dynamic b) (unused b)
  | Dynamic e => Buckets (used b) (<[key := e]> (possibly_dynamic b)) (unused b)
  | Unused e => Buckets (used b) (possibly_dynamic b) (<[key := e]> (unused b))
  end.

(** A path as [find_source_files] returns them: it ends with one of the
    extensions of [SOURCE_EXTENSIONS]. *)
Definition has_source_extension (filepath : string) : bool :=
  existsb (Str.endswith filepath) SOURCE_EXTENSIONS.

(** The state of the direct scan without its variable-reference patterns. *)
Definition without_variable_patterns (direct : direct_scan) : direct_scan :=
  DirectScan (used_keys direct) (key_usage_locations direct)
             (filter (λ dp, is_Some (dp_prefix dp)) (dynamic_patterns direct)).

Definition as_used (v : verdict) : option used_entry :=
  match v with Used e => Some e | _ => None end.

Definition as_dynamic (v : verdict) : option dynamic_entry :=
  match v with Dynamic e => Some e | _ => None end.

Definition as_unused (v : verdict) : option unused_entry :=
  match v with Unused e => Some e | _ => None end.

(** ** A small file system for the examples *)

Module Example.

(** A disk holding the listed files; every other path fails to open. *)
Definition disk (l : list (string * string)) (filepath : string) : option string :=
  (list_to_map l : gmap string string) !! filepath.

(** [os.path.relpath] for a root ["/r"]. *)
Definition rel (filepath : string) : string :=
  String.substring 3 (String.length filepath) filepath.

End Example.

(** ** Shapes of quoted strings, on [string]s *)

(** A segment the pattern accepts: a letter, then letters and digits. *)
Definition segment_ok (seg : string) : bool :=
  Shape.is_segment (list_ascii_of_string seg).

(** A segment made of letters and digits, not empty. *)
Definition alnum_segment (seg : string) : bool :=
  Shape.is_alnum_run (list_ascii_of_string seg).

(** The text ends with a letter or a digit. *)
Definition ends_with_alnum (text : string) : bool :=
  Shape.ends_alnum (list_ascii_of_string text).

Module Cases.
Import Example.

(** [{"a": {"b": "Hello"}}], referenced by a call and by a bare string. *)
Definition hello_doc : list (string * json string) :=
  [("a", JDict [("b", JLeaf "Hello")])].
Definition hello_disk : string -> option string :=
  disk [("/r/src/a.ts", "t('a.b'); const k = 'a.b';");
        ("/r/src/b.tsx", "<Trans i18nKey='a.b' />")].
Definition hello_files : list string := ["/r/src/a.ts"; "/r/src/b.tsx"].

(** [{"a": {"c": "World"}}] and a template call with the prefix [a.]. *)
Definition world_doc : list (string * json string) :=
  [("a", JDict [("c", JLeaf "World")])].
Definition world_disk : string -> option string :=
  disk [("/r/src/a.ts", "t(`a.${v}`)")].

(** [{"a": "v"}] and a template call whose literal part is a lone dot. *)
Definition lone_dot_doc : list (string * json string) := [("a", JLeaf "v")].
Definition lone_dot_disk : string -> option string :=
  disk [("/r/src/x.ts", "t(`.${x}`)")].

(** [{"x": {"y": "Z"}}] and a bare string. *)
Definition bare_doc : list (string * json string) :=
  [("x", JDict [("y", JLeaf "Z")])].
Definition bare_disk : string -> option string :=
  disk [("/r/src/b.ts", "const k = 'x.y';")].

(** [{"x": {"y": "Z"}}] and a bare string right after a word. *)
Definition glued_disk : string -> option string :=
  disk [("/r/src/g.ts", "return'x.y'")].

(** [{"errors": {"404": "Not found"}}] and the key as a bare string. *)
Definition digits_doc : list (string * json string) :=
  [("errors", JDict [("404", JLeaf "Not found")])].
Definition digits_disk : string -> option string :=
  disk [("/r/src/e.ts", "const k = 'errors.404';")].

(** [{"c": {"d": "v"}}] and two quoted paths sharing a quote. *)
Definition shared_doc : list (string * json string) :=
  [("c", JDict [("d", JLeaf "v")])].
Definition shared_disk : string -> option string :=
  disk [("/r/src/s.ts", "'a.b'c.d'")].

(** [{"test": {"only": "T"}}], referenced from a test file. *)
Definition test_doc : list (string * json string) :=
  [("test", JDict [("only", JLeaf "T")])].
Definition test_disk : string -> option string :=
  disk [("/r/src/__tests__/c.ts", "t('test.only')")].

(** [{"orphan": {"key": "never used"}}], first unreferenced. *)
Definition orphan_doc : list (string * json string) :=
  [("orphan", JDict [("key", JLeaf "never used")])].
Definition orphan_disk : string -> option string :=
  disk [("/r/src/b.ts", "nothing here"); ("/r/src/a.ts", "t('orphan.key')")].

End Cases.

Module Scenarios.
Import Example.

(** The five scenarios of the description in one run: a direct call, a
    template prefix, a bare string, an unreferenced key and a key used in a
    test file only; the last path cannot be read. *)
Definition doc : list (string * json string) :=
  [("a", JDict [("b", JLeaf "Hello"); ("c", JLeaf "World")]);
   ("x", JDict [("y", JLeaf "Z")]);
   ("orphan", JDict [("key", JLeaf "never used")]);
   ("test", JDict [("only", JLeaf "T")])].

Definition files : list (string * string) :=
  [("/r/src/a.ts", "t('a.b') t(`a.${v}`) t(foo)");
   ("/r/src/b.ts", "const k = 'x.y';");
   ("/r/src/__tests__/c.ts", "t('test.only') t('a.b')")].

Definition paths : list string := (fst <$> files) ++ ["/r/missing.ts"].

Definition result : report := main id rel (disk files) doc paths.

End Scenarios.

(** ** The flattening the description asks for

    The leaves of the document in iteration order, each with the segments
    of its path joined by dots, and the dictionary obtained by writing them
    one after the other. *)

Section FlattenSpec.
Context {Leaf : Type}.
Variable py_str : Leaf -> string.

Fixpoint leaf_paths (path : list string) (obj : json Leaf)
  : list (string * string) :=
  match obj with
  | JLeaf v => [(Str.join "." path, py_str v)]
  | JDict items =>
      concat (map (λ kv : string * json Leaf, leaf_paths (path ++ [kv.1]) kv.2)
                  items)
  end.

(** Writing the pairs in order: a later pair replaces an earlier one with
    the same key. *)
Definition last_write_wins (l : list (string * string)) : gmap string string :=
  foldl (λ (keys : gmap string string) (kv : string * string),
           <[kv.1 := kv.2]> keys) ∅ l.

Definition flatten_by_paths (obj : json Leaf) : gmap string string :=
  last_write_wins (leaf_paths [] obj).

(** What a value contributes under the key [full_key]: the body of the
    loop of [flatten_keys] merges this into [keys]. *)
Definition contribution (v : json Leaf) (full_key : string)
  : gmap string string :=
  match v with
  | JDict _ => flatten_keys py_str v full_key
  | JLeaf l => {[full_key := py_str l]}
  end.
End FlattenSpec.

(** Induction over a document, with the hypothesis for every value of a
    dictionary. *)
Section JsonInduction.
Context {Leaf : Type}.
Variable P : json Leaf -> Prop.
Hypothesis Hleaf : forall v, P (JLeaf v).
Hypothesis Hdict :
  forall items, Forall (λ kv : string * json Leaf, P kv.2) items ->
                P (JDict items).

Fixpoint json_induction (obj : json Leaf) {struct obj} : P obj :=
  match obj with
  | JLeaf v => Hleaf v
  | JDict items =>
      Hdict items
        ((fix all (l : list (string * json Leaf))
            : Forall (λ kv : string * json Leaf, P kv.2) l :=
            match l with
            | [] => List.Forall_nil _
            | kv :: l' => @List.Forall_cons _ _ kv l' (json_induction kv.2) (all l')
            end) items)
  end.
End JsonInduction.

(** ** Counting the leaves of a document *)

Fixpoint count_leaves {Leaf : Type} (obj : json Leaf) : nat :=
  match obj with
  | JLeaf _ => 1
  | JDict items =>
      list_sum (map (λ kv : string * json Leaf, count_leaves kv.2) items)
  end.

(** ** What the matcher captures *)

Module ReCapture.
Import Re.

(** The group text after two parts of a match: the one closed last. *)
Definition later (g1 g2 : option (list ascii)) : option (list ascii) :=
  match g2 with
  | Some _ => g2
  | None => g1
  end.

(** [captures r w g]: the pattern [r] can consume the text [w], and [g] is
    the text of group 1 if the group is closed on the way. *)
Inductive captures : regex -> list ascii -> option (list ascii) -> Prop :=
| G_eps : captures Eps [] None
| G_cls p a : p a = true -> captures (Cls p) [a] None
| G_seq r1 r2 w1 w2 g1 g2 :
    captures r1 w1 g1 -> captures r2 w2 g2 ->
    captures (Seq r1 r2) (w1 ++ w2) (later g1 g2)
| G_alt_l r1 r2 w g : captures r1 w g -> captures (Alt r1 r2) w g
| G_alt_r r1 r2 w g : captures r2 w g -> captures (Alt r1 r2) w g
| G_star_nil gr r : captures (Star gr r) [] None
| G_star_cons gr r w1 w2 g1 g2 :
    captures r w1 g1 -> captures (Star gr r) w2 g2 ->
    captures (Star gr r) (w1 ++ w2) (later g1 g2)
| G_grp r w g : captures r w g -> captures (Grp r) w (Some w)
| G_wordb : captures WordB [] None
| G_bol : captures Bol [] None.

(** A runner consumes and captures only what the pattern [r] allows. *)
Definition capture_sound
    (body : cursor -> (cursor -> option cursor) -> option cursor)
    (r : regex) : Prop :=
  forall c k x, body c k = Some x ->
    exists w g c', captures r w g /\ after c = w ++ after c' /\
                   group1 c' = later (group1 c) g /\ k c' = Some x.

End ReCapture.

(** [rstrip('.')] leaves a text that does not end with a dot. *)
Definition ends_with_dot (s : string) : bool :=
  match last (list_ascii_of_string s) with
  | Some a => Chars.is_char Chars.dot a
  | None => false
  end.

(** No character of the text satisfies [p]. *)
Definition free_of (p : ascii -> bool) (s : string) : bool :=
  forallb (λ a, negb (p a)) (list_ascii_of_string s).

(** A text made of dots only. *)
Definition all_dots (s : string) : bool :=
  forallb (Chars.is_char Chars.dot) (list_ascii_of_string s).

(** A text of ASCII characters only. *)
Definition ascii_text (s : string) : bool :=
  forallb (λ a, (Chars.code a <? 128)%nat) (list_ascii_of_string s).

(** Two characters that are equal, or one letter in its two cases. *)
Definition same_letter (a b : ascii) : bool :=
  Ascii.eqb a b
  || (Chars.is_upper a && (Chars.code a + 32 =? Chars.code b)%nat)
  || (Chars.is_upper b && (Chars.code b + 32 =? Chars.code a)%nat).

(** Two texts that differ in the case of their letters only. *)
Fixpoint same_up_to_case (p q : string) : bool :=
  match p, q with
  | EmptyString, EmptyString => true
  | String a p', String b q' => same_letter a b && same_up_to_case p' q'
  | _, _ => false
  end.

(** ** [find_source_files]

    The tree that [os.walk] goes through: a directory lists its
    sub-directories and its files by name, in the order [os.walk] reports
    them. *)

Inductive dir : Type :=
| Dir (dirnames : list (string * dir)) (filenames : list string).

Definition EXCLUDE_DIRS : list string :=
  ["node_modules"; ".git"; "dist"; "build"; ".expo"; ".turbo"; "__pycache__";
   ".next"].

Module Path.

Definition slash : ascii := ascii_of_nat 47.

(** The characters before the first one that satisfies [p], and the rest
    from that character on. *)
Fixpoint break (p : ascii -> bool) (l : list ascii) : list ascii * list ascii :=
  match l with
  | [] => ([], [])
  | a :: l' =>
      if p a then ([], l)
      else let '(before, rest) := break p l' in (a :: before, rest)
  end.

(** [os.path.splitext(p)[1]]: the text from the last dot on, when that dot
    comes after the last slash and some character between them is not a
    dot; the empty string otherwise. *)
Definition splitext_ext (p : string) : string :=
  let '(ext_rev, rest) :=
    break (Chars.is_char Chars.dot) (rev (list_ascii_of_string p)) in
  match rest with
  | [] => ""
  | _ :: stem_rev =>
      if existsb (Chars.is_char slash) ext_rev then ""
      else
        let name_rev := fst (break (Chars.is_char slash) stem_rev) in
        if existsb (λ a, negb (Chars.is_char Chars.dot a)) name_rev
        then string_of_list_ascii (Chars.dot :: rev ext_rev)
        else ""
  end.

(** [os.path.join(a, b)] *)
Definition join (a b : string) : string :=
  if Str.startswith b "/" then b
  else if negb (Str.truthy a) || Str.endswith a "/" then (a ++ b)%string
  else (a ++ "/" ++ b)%string.

End Path.

(** The files of one directory that are kept, as paths. *)
Definition source_files_here (dirpath : string) (filenames : list string)
  : list string :=
  Path.join dirpath <$>
    filter (λ f, Path.splitext_ext f ∈ SOURCE_EXTENSIONS) filenames.

(** [find_source_files(root)] on the tree under [root]: the files of the
    directory, then the sub-directories that the assignment to
    [dirnames[:]] keeps, each walked in turn. *)
Fixpoint find_source_files (tree : dir) (dirpath : string) : list string :=
  match tree with
  | Dir dirnames filenames =>
      source_files_here dirpath filenames ++
      concat (map (λ entry : string * dir,
                     if bool_decide (entry.1 ∈ EXCLUDE_DIRS) then []
                     else find_source_files entry.2 (Path.join dirpath entry.1))
                  dirnames)
  end.

(** [holds tree dirpath names f path]: the file [f] lies in the directory
    reached from [tree] through the sub-directories [names], and [path] is
    its path when the tree sits at [dirpath]. *)
Inductive holds : dir -> string -> list string -> string -> string -> Prop :=
| holds_here dirnames filenames dirpath f :
    f ∈ filenames ->
    holds (Dir dirnames filenames) dirpath [] f (Path.join dirpath f)
| holds_below dirnames filenames dirpath name sub names f path :
    (name, sub) ∈ dirnames ->
    holds sub (Path.join dirpath name) names f path ->
    holds (Dir dirnames filenames) dirpath (name :: names) f path.

(** Induction over a tree, with the hypothesis for every sub-directory. *)
Section DirInduction.
Variable P : dir -> Prop.
Hypothesis Hdir :
  forall dirnames filenames,
    Forall (λ entry : string * dir, P entry.2) dirnames ->
    P (Dir dirnames filenames).

Fixpoint dir_induction (tree : dir) {struct tree} : P tree :=
  match tree with
  | Dir dirnames filenames =>
      Hdir dirnames filenames
        ((fix all (l : list (string * dir))
            : Forall (λ entry : string * dir, P entry.2) l :=
            match l with
            | [] => List.Forall_nil _
            | entry :: l' =>
                @List.Forall_cons _ _ entry l' (dir_induction entry.2) (all l')
            end) dirnames)
  end.
End DirInduction.

(** ** A small tree and a file of unrelated text for the examples *)

Module Samples.
Import Example.

(** A project with a source directory, a test directory below it and a
    [node_modules] directory beside it. *)
Definition tree : dir :=
  Dir [("src", Dir [("__tests__", Dir [] ["c.ts"])]
                   ["a.ts"; "b.tsx"; "notes.md"]);
       ("node_modules", Dir [("pkg", Dir [] ["index.js"])] ["lib.js"])]
      ["index.js"; "README"].

(** [{"orphan": {"key": "never used"}}] beside a file that calls [t] with
    a key of another document and quotes a path of another document. *)
Definition unrelated_doc : list (string * json string) :=
  [("orphan", JDict [("key", JLeaf "never used")])].
Definition unrelated_disk : string -> option string :=
  disk [("/r/src/u.ts", "t('zzz.y'); const k = 'other.path';");
        ("/r/src/a.ts", "t('orphan.key')")].

End Samples.

(** * Properties of the matcher *)

Module ReFacts.
Import Re Shape ReSpec.

Lemma first_of_Some {A} (x y : option A) (z : A) :
  first_of x y = Some z -> x = Some z \/ y = Some z.
Proof. destruct x; simpl; auto. Qed.

Lemma star_loop_sound body r g :
  sound_body body r ->
  forall n c k x, star_loop body g k n c = Some x ->
    exists w c', lang (Star g r) w /\ after c = w ++ after c' /\ k c' = Some x.
Proof.
  intros Hb n. induction n as [|n IH]; intros c k x H; simpl in H.
  - exists [], c. split; [constructor|]. split; [reflexivity|assumption].
  - assert (Hstop : k c = Some x ->
        exists w c', lang (Star g r) w /\ after c = w ++ after c' /\ k c' = Some x).
    { intros Hk. exists [], c. split; [constructor|]. split; [reflexivity|assumption]. }
    assert (Hmore : body c (fun c1 =>
               if (length (after c1) <? length (after c))%nat
               then star_loop body g k n c1 else None) = Some x ->
        exists w c', lang (Star g r) w /\ after c = w ++ after c' /\ k c' = Some x).
    { intros Hm. apply Hb in Hm. destruct Hm as (w1 & c1 & Hl1 & Ha1 & Hk1).
      destruct (length (after c1) <? length (after c))%nat; [|discriminate].
      apply IH in Hk1. destruct Hk1 as (w2 & c2 & Hl2 & Ha2 & Hk2).
      exists (w1 ++ w2), c2. split; [by constructor|].
      split; [|assumption]. rewrite Ha1, Ha2. by rewrite app_assoc. }
    destruct g; apply first_of_Some in H; destruct H; auto.
Qed.

Lemma run_sound r : sound_body (run r) r.
Proof.
  induction r as [|p|r1 IH1 r2 IH2|r1 IH1 r2 IH2|g r IH|r IH| |];
    intros c k x H; simpl in H.
  - exists [], c. split; [constructor|]. by split.
  - destruct c as [b [|a s] gr]; simpl in H; [discriminate|].
    destruct (p a) eqn:Hp; [|discriminate].
    exists [a], (Cursor (Some a) s gr). split; [by constructor|]. by split.
  - apply IH1 in H. destruct H as (w1 & c1 & Hl1 & Ha1 & H).
    apply IH2 in H. destruct H as (w2 & c2 & Hl2 & Ha2 & H).
    exists (w1 ++ w2), c2. split; [by constructor|]. split; [|done].
    rewrite Ha1, Ha2. by rewrite app_assoc.
  - apply first_of_Some in H. destruct H as [H|H].
    + apply IH1 in H. destruct H as (w & c' & ? & ? & ?).
      exists w, c'. split; [by apply L_alt_l|]. by split.
    + apply IH2 in H. destruct H as (w & c' & ? & ? & ?).
      exists w, c'. split; [by apply L_alt_r|]. by split.
  - eapply star_loop_sound; eauto.
  - apply IH in H. destruct H as (w & c' & ? & ? & ?).
    exists w, (Cursor (before c') (after c')
                 (Some (take (length (after c) - length (after c')) (after c)))).
    split; [by constructor|]. by split.
  - destruct (at_boundary c); [|discriminate].
    exists [], c. split; [constructor|]. by split.
  - destruct (before c); [discriminate|].
    exists [], c. split; [constructor|]. by split.
Qed.

Lemma match_here_sound r c c' :
  match_here r c = Some c' -> exists w, lang r w /\ after c = w ++ after c'.
Proof.
  intros H. apply run_sound in H. destruct H as (w & c1 & Hl & Ha & Hk).
  injection Hk as <-. eauto.
Qed.

Lemma ends_alnum_app u w : w ≠ [] -> ends_alnum (u ++ w) = ends_alnum w.
Proof.
  intros Hw. unfold ends_alnum. destruct w as [|a w] using rev_ind; [done|].
  by rewrite app_assoc, !last_snoc.
Qed.

Lemma good_app u w :
  Forall (λ a, path_char a = true) u -> good w -> good (u ++ w).
Proof.
  intros Hu [Hw He]. split; [by apply Forall_app|].
  rewrite ends_alnum_app; [done|]. intros ->. discriminate.
Qed.

Lemma alnum_path_char a : Chars.is_alnum a = true -> path_char a = true.
Proof. unfold path_char. intros ->. done. Qed.

Lemma alpha_alnum a : Chars.is_alpha a = true -> Chars.is_alnum a = true.
Proof. unfold Chars.is_alnum. intros ->. done. Qed.

Lemma lang_cls p w : lang (Cls p) w -> exists a, w = [a] /\ p a = true.
Proof. inversion 1; subst; eauto. Qed.

Lemma lang_seq r1 r2 w :
  lang (Seq r1 r2) w -> exists w1 w2, w = w1 ++ w2 /\ lang r1 w1 /\ lang r2 w2.
Proof. inversion 1; subst; eauto. Qed.

Lemma lang_grp r w : lang (Grp r) w -> lang r w.
Proof. by inversion 1; subst. Qed.

Lemma lang_star g r (P : list ascii -> Prop) w :
  lang (Star g r) w ->
  P [] -> (forall w1 w2, lang r w1 -> P w2 -> P (w1 ++ w2)) -> P w.
Proof.
  intros H H0 Hs. remember (Star g r) as r0 eqn:E.
  induction H; try discriminate; [done|].
  injection E as -> ->. apply Hs; [done|]. by apply IHlang2.
Qed.

Lemma lang_star_cls g p w :
  lang (Star g (Cls p)) w -> Forall (λ a, p a = true) w.
Proof.
  intros H. apply (lang_star _ _ (Forall (λ a, p a = true)) _ H); [constructor|].
  intros w1 w2 H1 H2. apply lang_cls in H1 as (a & -> & Hp). by constructor.
Qed.

Lemma lang_segment w : lang Pat.segment w -> good w.
Proof.
  intros H. apply lang_seq in H as (w1 & w2 & -> & H1 & H2).
  apply lang_cls in H1 as (a & -> & Ha). apply lang_star_cls in H2.
  apply alpha_alnum in Ha.
  split.
  - constructor; [by apply alnum_path_char|].
    eapply Forall_impl; [exact H2|]. intros x. apply alnum_path_char.
  - simpl. destruct w2 as [|z w2] using rev_ind.
    + done.
    + unfold ends_alnum.
      change (a :: w2 ++ [z]) with ([a] ++ (w2 ++ [z])).
      rewrite app_assoc, last_snoc.
      apply Forall_app in H2 as [_ H2]. by inversion H2.
Qed.

Lemma dot_path_char : path_char Chars.dot = true.
Proof. reflexivity. Qed.

Lemma lang_dot_segment w :
  lang (Seq (Chr Chars.dot) Pat.segment) w -> good w.
Proof.
  intros H. apply lang_seq in H as (w1 & w2 & -> & H1 & H2).
  apply lang_cls in H1 as (a & -> & Ha). apply lang_segment in H2.
  apply good_app; [|done]. constructor; [|constructor].
  apply Ascii.eqb_eq in Ha. subst a. reflexivity.
Qed.

Lemma lang_dotted_path w : lang Pat.dotted_path w -> good w.
Proof.
  intros H. apply lang_seq in H as (w1 & w2 & -> & H1 & H2).
  apply lang_segment in H1. apply lang_seq in H2 as (w3 & w4 & -> & H3 & H4).
  apply lang_dot_segment in H3.
  assert (H5 : w4 = [] \/ good w4).
  { apply (lang_star _ _ (λ w, w = [] \/ good w) _ H4); [by left|].
    intros u v Hu Hv. right. apply lang_dot_segment in Hu.
    destruct Hv as [->|Hv]; [by rewrite app_nil_r|].
    apply good_app; [apply Hu | done]. }
  apply good_app; [apply H1|].
  destruct H5 as [->|H5]; [by rewrite app_nil_r|].
  apply good_app; [apply H3|done].
Qed.

Lemma lang_quoted_dotted w :
  lang Pat.quoted_dotted w ->
  exists q u q', w = q :: u ++ [q'] /\ Chars.is_quote2 q = true /\
                 Chars.is_quote2 q' = true /\ good u.
Proof.
  intros H. apply lang_seq in H as (w1 & w2 & -> & H1 & H2).
  apply lang_cls in H1 as (q & -> & Hq).
  apply lang_seq in H2 as (u & w3 & -> & H2 & H3).
  apply lang_cls in H3 as (q' & -> & Hq').
  apply lang_grp, lang_dotted_path in H2.
  exists q, u, q'. split; [done|]. split; [done|]. by split.
Qed.

Local Arguments Chars.is_char : simpl never.
Local Arguments Chars.is_alpha : simpl never.
Local Arguments Chars.is_alnum : simpl never.
Local Arguments Chars.is_quote2 : simpl never.

Lemma run_cls_stops p b rest g k :
  stops p rest -> run (Cls p) (Cursor b rest g) k = None.
Proof.
  intros H. simpl. destruct rest as [|a rest]; [done|].
  by rewrite (H a eq_refl).
Qed.

Lemma star_cls_greedy p w : forall rest b g k n x,
  Forall (λ a, p a = true) w -> stops p rest ->
  length (w ++ rest) <= n ->
  (forall b', k (Cursor b' rest g) = Some x) ->
  star_loop (run (Cls p)) true k n (Cursor b (w ++ rest) g) = Some x.
Proof.
  induction w as [|a w IH]; intros rest b g k n x Hw Hs Hn Hk.
  - destruct n as [|n]; simpl; [apply Hk|].
    change (match rest with
            | [] => None
            | a :: s => if p a then _ else None
            end) with (run (Cls p) (Cursor b rest g)
              (fun c1 => if (length (after c1) <? length rest)%nat
                         then star_loop (run (Cls p)) true k n c1 else None)).
    rewrite run_cls_stops by done. simpl. apply Hk.
  - destruct n as [|n]; [simpl in Hn; lia|].
    inversion Hw as [|?? Ha Hw']; subst. simpl. rewrite Ha.
    simpl. rewrite (proj2 (Nat.ltb_lt _ _)) by lia.
    rewrite IH with (x := x); [done| done | done | simpl in Hn; lia | done].
Qed.

Lemma is_segment_inv seg :
  is_segment seg = true ->
  exists a u, seg = a :: u /\ Chars.is_alpha a = true /\
              Forall (λ z, Chars.is_alnum z = true) u.
Proof.
  destruct seg as [|a u]; [done|]. simpl. intros H.
  apply andb_true_iff in H as [Ha Hu]. exists a, u. split; [done|]. split; [done|].
  apply Forall_forall. intros z Hz. rewrite forallb_forall in Hu.
  apply Hu. by apply list_elem_of_In.
Qed.

Lemma run_segment seg rest b g k x :
  is_segment seg = true -> stops Chars.is_alnum rest ->
  (forall b', k (Cursor b' rest g) = Some x) ->
  run Pat.segment (Cursor b (seg ++ rest) g) k = Some x.
Proof.
  intros Hseg Hs Hk. apply is_segment_inv in Hseg as (a & u & -> & Ha & Hu).
  simpl. rewrite Ha. apply star_cls_greedy; auto.
Qed.

Lemma run_dot_segment seg rest b g k x :
  is_segment seg = true -> stops Chars.is_alnum rest ->
  (forall b', k (Cursor b' rest g) = Some x) ->
  run (Seq (Chr Chars.dot) Pat.segment) (Cursor b (Chars.dot :: seg ++ rest) g) k
  = Some x.
Proof.
  intros Hseg Hs Hk.
  change (run (Seq (Chr Chars.dot) Pat.segment) (Cursor b (Chars.dot :: seg ++ rest) g) k)
    with (run Pat.segment (Cursor (Some Chars.dot) (seg ++ rest) g) k).
  by apply run_segment.
Qed.

Lemma dotted_tail_cons seg segs rest :
  dotted_tail (seg :: segs) ++ rest = Chars.dot :: seg ++ (dotted_tail segs ++ rest).
Proof. unfold dotted_tail. simpl. by rewrite <- app_assoc. Qed.

Lemma stops_dotted_tail segs rest :
  stops Chars.is_alnum rest -> stops Chars.is_alnum (dotted_tail segs ++ rest).
Proof.
  intros Hs. destruct segs as [|seg segs]; [done|].
  intros a. simpl. intros [= <-]. reflexivity.
Qed.

Lemma star_dot_segment_greedy segs : forall rest b g k n x,
  forallb is_segment segs = true ->
  stops path_char rest ->
  length (dotted_tail segs ++ rest) <= n ->
  (forall b', k (Cursor b' rest g) = Some x) ->
  star_loop (run (Seq (Chr Chars.dot) Pat.segment)) true k n
            (Cursor b (dotted_tail segs ++ rest) g) = Some x.
Proof.
  assert (Hal : forall rest, stops path_char rest -> stops Chars.is_alnum rest).
  { intros rest Hs a Ha. apply Hs in Ha. unfold path_char in Ha.
    by apply orb_false_iff in Ha as [? _]. }
  induction segs as [|seg segs IH]; intros rest b g k n x Hsegs Hs Hn Hk.
  - change (dotted_tail [] ++ rest) with rest.
    destruct n as [|n]; [apply Hk|].
    cbn [star_loop run]. unfold Chr. rewrite run_cls_stops; [apply Hk|].
    intros a Ha. apply Hs in Ha. unfold path_char in Ha.
    by apply orb_false_iff in Ha as [_ ?].
  - simpl in Hsegs. apply andb_true_iff in Hsegs as [Hseg Hsegs].
    rewrite dotted_tail_cons in *.
    destruct n as [|n]; [simpl in Hn; lia|].
    cbn [star_loop].
    rewrite run_dot_segment with (x := x); [done|done| |].
    + apply stops_dotted_tail. by apply Hal.
    + intros b'. cbn [after].
      rewrite (proj2 (Nat.ltb_lt _ _)).
      * apply IH; [done|done| |done].
        simpl in Hn. rewrite length_app in Hn. lia.
      * simpl. rewrite (length_app seg). lia.
Qed.

Lemma quote_stops q rest : Chars.is_quote2 q = true -> stops path_char (q :: rest).
Proof.
  intros Hq a [= <-]. unfold Chars.is_quote2 in Hq.
  apply orb_true_iff in Hq as [Hq|Hq]; apply Ascii.eqb_eq in Hq; subst q; reflexivity.
Qed.

(** At an opening quote followed by a dotted path and a closing quote the
    pattern matches, and group 1 is the path. *)
Lemma match_quoted_dotted prev q1 segs q2 post :
  Chars.is_quote2 q1 = true -> Chars.is_quote2 q2 = true ->
  2 <= length segs -> forallb is_segment segs = true ->
  match_here Pat.quoted_dotted
    (Cursor prev (q1 :: join_dots segs ++ q2 :: post) None)
  = Some (Cursor (Some q2) post (Some (join_dots segs))).
Proof.
  intros Hq1 Hq2 Hlen Hsegs.
  destruct segs as [|s1 [|s2 segs]]; simpl in Hlen; try lia.
  simpl in Hsegs. apply andb_true_iff in Hsegs as [H1 Hsegs].
  pose proof Hsegs as Hsegs'. apply andb_true_iff in Hsegs' as [H2 H3].
  pose proof (quote_stops q2 post Hq2) as Hstop.
  unfold match_here, Pat.quoted_dotted.
  cbn [run after group1 before]. rewrite Hq1.
  unfold Pat.dotted_path, Plus. cbn [run].
  set (tl := dotted_tail (s2 :: segs)).
  assert (Etl : join_dots (s1 :: s2 :: segs) = s1 ++ tl) by reflexivity.
  rewrite Etl, <- app_assoc.
  apply run_segment; [done| |].
  { apply stops_dotted_tail. intros a Ha. apply Hstop in Ha.
    unfold path_char in Ha. by apply orb_false_iff in Ha as [? _]. }
  intros b1. subst tl. rewrite dotted_tail_cons.
  apply run_dot_segment; [done| |].
  { apply stops_dotted_tail. intros a Ha. apply Hstop in Ha.
    unfold path_char in Ha. by apply orb_false_iff in Ha as [? _]. }
  intros b2. cbn [run after].
  apply star_dot_segment_greedy; [done|done|done|].
  intros b3. cbn [after before group1]. rewrite Hq2.
  f_equal. f_equal. f_equal.
  rewrite <- (dotted_tail_cons s2 segs (q2 :: post)), app_assoc.
  rewrite (length_app (s1 ++ _)), Nat.add_sub.
  apply take_app_length.
Qed.

Lemma no_overrun_tail r a pre rest :
  no_overrun r (a :: pre) rest -> no_overrun r pre rest.
Proof.
  intros H pre1 a' pre2 prev c E. apply (H (a :: pre1)). by rewrite E.
Qed.

Lemma scan_arrives r pre : forall rest prev skip x,
  no_overrun r pre rest -> skip <= length pre ->
  (forall prev', x ∈ scan r prev' rest 0) ->
  x ∈ scan r prev (pre ++ rest) skip.
Proof.
  induction pre as [|a pre IH]; intros rest prev skip x Hno Hskip Hx.
  - simpl in Hskip. assert (skip = 0) as -> by lia. apply Hx.
  - pose proof (no_overrun_tail _ _ _ _ Hno) as Hno'.
    destruct skip as [|skip]; cbn [scan app].
    + destruct (match_here r (Cursor prev (a :: pre ++ rest) None)) as [c|] eqn:E.
      * apply elem_of_cons. right. apply IH; [done| |done].
        specialize (Hno [] a pre prev c eq_refl E). simpl in *. lia.
      * apply IH; [done|lia|done].
    + apply IH; [done|simpl in Hskip; lia|done].
Qed.

Lemma quote_not_path_char q : Chars.is_quote2 q = true -> path_char q = false.
Proof.
  intros Hq. by apply (quote_stops q [] Hq).
Qed.

Lemma no_overrun_quoted_dotted pre q1 rest :
  ends_alnum pre = false -> Chars.is_quote2 q1 = true ->
  no_overrun Pat.quoted_dotted pre (q1 :: rest).
Proof.
  intros Hpre Hq1 pre1 a pre2 prev c E Hm.
  apply match_here_sound in Hm as (w & Hl & Ha). cbn [after] in Ha.
  rewrite Ha, length_app, Nat.add_sub.
  apply lang_quoted_dotted in Hl as (q & u & q' & -> & Hq & Hq' & Hu & He).
  simpl in Ha. injection Ha as <- Ha. rewrite <- app_assoc in Ha. simpl in Ha.
  simpl. rewrite length_app. simpl.
  apply app_eq_inv in Ha as [(k & E1 & E2)|(k & E1 & E2)].
  - destruct k as [|z k].
    + rewrite app_nil_r in E1. subst u.
      exfalso. rewrite E in Hpre.
      destruct pre2 as [|z pre2]; [done|].
      change (pre1 ++ a :: z :: pre2) with (pre1 ++ [a] ++ (z :: pre2)) in Hpre.
      rewrite app_assoc, ends_alnum_app in Hpre by done. congruence.
    + subst pre2. rewrite length_app. simpl. lia.
  - destruct k as [|z k].
    + rewrite app_nil_r in E1. subst u.
      exfalso. rewrite E in Hpre.
      destruct pre2 as [|z pre2]; [done|].
      change (pre1 ++ a :: z :: pre2) with (pre1 ++ [a] ++ (z :: pre2)) in Hpre.
      rewrite app_assoc, ends_alnum_app in Hpre by done. congruence.
    + exfalso. simpl in E2. injection E2 as <- _. subst u.
      apply Forall_app in Hu as [_ Hu]. inversion Hu as [|?? Hz _]; subst.
      rewrite quote_not_path_char in Hz by done. discriminate.
Qed.

(** A quoted dotted path whose opening quote does not follow a letter or a
    digit is among the matches of the scan. *)
Lemma scan_quoted_dotted pre q1 segs q2 post :
  ends_alnum pre = false ->
  Chars.is_quote2 q1 = true -> Chars.is_quote2 q2 = true ->
  2 <= length segs -> forallb is_segment segs = true ->
  join_dots segs ∈
    scan Pat.quoted_dotted None (pre ++ q1 :: join_dots segs ++ q2 :: post) 0.
Proof.
  intros Hpre Hq1 Hq2 Hlen Hsegs.
  apply scan_arrives; [by apply no_overrun_quoted_dotted | lia |].
  intros prev'. cbn [scan].
  rewrite match_quoted_dotted by done. apply elem_of_cons. by left.
Qed.

(** What the scan finds at a position it tries is among its matches. *)
Lemma scan_tries r pre : forall rest prev skip x,
  tries r prev pre rest skip = true ->
  (forall prev', x ∈ scan r prev' rest 0) ->
  x ∈ scan r prev (pre ++ rest) skip.
Proof.
  induction pre as [|a pre IH]; intros rest prev skip x Ht Hx.
  - cbn [tries] in Ht. apply Nat.eqb_eq in Ht. subst skip. apply Hx.
  - destruct skip as [|skip]; cbn [tries] in Ht; cbn [scan app].
    + cbn [app] in Ht.
      destruct (match_here r (Cursor prev (a :: pre ++ rest) None)) as [c|].
      * apply elem_of_cons. right. by apply IH.
      * by apply IH.
    + by apply IH.
Qed.

(** The scan tries every position that no earlier match reaches. *)
Lemma tries_no_overrun r pre : forall rest prev skip,
  no_overrun r pre rest -> skip <= length pre ->
  tries r prev pre rest skip = true.
Proof.
  induction pre as [|a pre IH]; intros rest prev skip Hno Hskip.
  - simpl in Hskip. by assert (skip = 0) as -> by lia.
  - pose proof (no_overrun_tail _ _ _ _ Hno) as Hno'.
    destruct skip as [|skip]; cbn [tries app].
    + destruct (match_here r (Cursor prev (a :: pre ++ rest) None)) as [c|] eqn:E.
      * apply IH; [done|].
        specialize (Hno [] a pre prev c eq_refl E). simpl in *. lia.
      * apply IH; [done|lia].
    + apply IH; [done|simpl in Hskip; lia].
Qed.

(** A position the scan does not try lies inside a match found earlier. *)
Lemma tries_false_overrun r pre : forall rest prev skip,
  tries r prev pre rest skip = false -> skip <= length pre ->
  exists pre1 a pre2 prev' c,
    pre = pre1 ++ a :: pre2 /\
    match_here r (Cursor prev' (a :: pre2 ++ rest) None) = Some c /\
    length (a :: pre2) < length (a :: pre2 ++ rest) - length (after c).
Proof.
  induction pre as [|a pre IH]; intros rest prev skip Ht Hskip.
  - simpl in Hskip. assert (skip = 0) as -> by lia. discriminate Ht.
  - assert (Hlift : forall skip',
              tries r (Some a) pre rest skip' = false -> skip' <= length pre ->
              exists pre1 a' pre2 prev' c,
                a :: pre = pre1 ++ a' :: pre2 /\
                match_here r (Cursor prev' (a' :: pre2 ++ rest) None) = Some c /\
                length (a' :: pre2)
                < length (a' :: pre2 ++ rest) - length (after c)).
    { intros skip' Ht' Hs'.
      destruct (IH _ _ _ Ht' Hs') as (pre1 & a' & pre2 & prev' & c & -> & Hm & Hl).
      by exists (a :: pre1), a', pre2, prev', c. }
    destruct skip as [|skip]; cbn [tries app] in Ht.
    + destruct (match_here r (Cursor prev (a :: pre ++ rest) None)) as [c|] eqn:E.
      * destruct (le_lt_dec
                    (pred (length (a :: pre ++ rest) - length (after c)))
                    (length pre)) as [Hle|Hgt].
        -- by apply (Hlift _ Ht).
        -- exists [], a, pre, prev, c. split_and!; [done|done|].
           simpl in *. lia.
      * apply (Hlift _ Ht). lia.
    + apply (Hlift _ Ht). simpl in Hskip. lia.
Qed.

(** A quoted dotted path at a position the scan tries is among the
    matches. *)
Lemma scan_quoted_dotted_tried pre q1 segs q2 post :
  tries Pat.quoted_dotted None pre (q1 :: join_dots segs ++ q2 :: post) 0 = true ->
  Chars.is_quote2 q1 = true -> Chars.is_quote2 q2 = true ->
  2 <= length segs -> forallb is_segment segs = true ->
  join_dots segs ∈
    scan Pat.quoted_dotted None (pre ++ q1 :: join_dots segs ++ q2 :: post) 0.
Proof.
  intros Ht Hq1 Hq2 Hlen Hsegs.
  apply scan_tries; [done|].
  intros prev'. cbn [scan].
  rewrite match_quoted_dotted by done. apply elem_of_cons. by left.
Qed.

(** The scan tries the position of a quote that does not follow a letter
    or a digit. *)
Lemma tries_after_non_alnum pre q1 rest :
  ends_alnum pre = false -> Chars.is_quote2 q1 = true ->
  tries Pat.quoted_dotted None pre (q1 :: rest) 0 = true.
Proof.
  intros Hpre Hq1. apply tries_no_overrun; [|lia].
  by apply no_overrun_quoted_dotted.
Qed.

(** If the scan does not try the position of a quote, the quote closes a
    match found earlier: the text before it ends with a quote and a
    dotted path. *)
Lemma untried_quote_closes_match pre q1 rest :
  Chars.is_quote2 q1 = true ->
  tries Pat.quoted_dotted None pre (q1 :: rest) 0 = false ->
  exists pre0 q0 u,
    pre = pre0 ++ q0 :: u /\ Chars.is_quote2 q0 = true /\
    lang Pat.dotted_path u.
Proof.
  intros Hq1 Ht.
  apply tries_false_overrun in Ht as (pre1 & a & pre2 & prev' & c & -> & Hm & Hl);
    [|lia].
  apply match_here_sound in Hm as (w & Hw & Ha). cbn [after] in Ha.
  rewrite Ha, length_app, Nat.add_sub in Hl.
  apply lang_seq in Hw as (w1 & w2 & -> & H1 & H2).
  apply lang_cls in H1 as (q & -> & Hq).
  apply lang_seq in H2 as (u & w3 & -> & H2 & H3).
  apply lang_cls in H3 as (q' & -> & Hq').
  apply lang_grp in H2. pose proof (lang_dotted_path _ H2) as [Hu _].
  simpl in Ha. injection Ha as <- Ha. rewrite <- app_assoc in Ha. simpl in Ha.
  simpl in Hl. rewrite length_app in Hl. simpl in Hl.
  apply app_eq_inv in Ha as [(k & E1 & E2)|(k & E1 & E2)].
  - destruct k as [|z k].
    + rewrite app_nil_r in E1. subst u. exists pre1, a, pre2. by split_and!.
    + subst pre2. rewrite length_app in Hl. simpl in Hl. lia.
  - destruct k as [|z k].
    + rewrite app_nil_r in E1. subst u. exists pre1, a, pre2. by split_and!.
    + exfalso. simpl in E2. injection E2 as <- _. subst u.
      apply Forall_app in Hu as [_ Hu]. inversion Hu as [|?? Hz _]; subst.
      rewrite quote_not_path_char in Hz by done. discriminate.
Qed.

Lemma list_ascii_of_string_app (s1 s2 : string) :
  list_ascii_of_string (s1 ++ s2) = list_ascii_of_string s1 ++ list_ascii_of_string s2.
Proof. induction s1 as [|a s1 IH]; simpl; [done|]. by rewrite IH. Qed.

Lemma list_ascii_of_join (segs : list string) :
  list_ascii_of_string (Str.join "." segs) = join_dots (list_ascii_of_string <$> segs).
Proof.
  induction segs as [|s segs IH]; [done|].
  destruct segs as [|s' segs].
  - simpl. unfold join_dots, dotted_tail. simpl. by rewrite app_nil_r.
  - change (Str.join "." (s :: s' :: segs)) with (s ++ "." ++ Str.join "." (s' :: segs))%string.
    rewrite !list_ascii_of_string_app, IH.
    unfold join_dots. simpl. unfold dotted_tail. simpl. done.
Qed.

End ReFacts.

(** * Properties of the scanning phases *)

Section DirectFacts.
Variable relpath : string -> string.
Variable read : string -> option string.

Lemma set_fold_record_key rel_path (U : gset string)
    (L : gmap string (gset string)) (K : gset string) :
  (set_fold (record_key rel_path) (U, L) K).1 = U ∪ K ∧
  ∀ k, (set_fold (record_key rel_path) (U, L) K).2 !! k =
       if decide (k ∈ K) then Some (locations_of L k ∪ {[rel_path]})
       else L !! k.
Proof.
  refine (set_fold_ind_L
    (λ (acc : gset string * gmap string (gset string)) (X : gset string),
       acc.1 = U ∪ X ∧
       ∀ k, acc.2 !! k =
            if decide (k ∈ X) then Some (locations_of L k ∪ {[rel_path]})
            else L !! k) _ _ _ _ K).
  - split; [set_solver|]. intros k. by rewrite decide_False by set_solver.
  - intros x X [u l] Hx [HU HL]. simpl in *. split; [set_solver|].
    intros k. unfold add_location. destruct (decide (x = k)) as [->|Hne].
    + rewrite lookup_insert_eq, decide_True by set_solver.
      unfold locations_of. rewrite HL, decide_False by done. done.
    + rewrite lookup_insert_ne, HL by done.
      destruct (decide (k ∈ X)).
      * by rewrite decide_True by set_solver.
      * by rewrite decide_False by set_solver.
Qed.

Lemma direct_step_unscanned st filepath :
  scanned read filepath = None -> direct_step relpath read st filepath = st.
Proof.
  unfold scanned, direct_step. destruct (read filepath); simpl; [|done].
  by destruct (is_locale_json filepath).
Qed.

Lemma direct_step_used_keys st filepath :
  used_keys (direct_step relpath read st filepath) = used_keys st ∪ keys_in read filepath.
Proof.
  unfold keys_in, scanned, direct_step.
  destruct (read filepath) as [content|]; simpl; [|set_solver].
  destruct (is_locale_json filepath); simpl; [set_solver|].
  apply set_fold_record_key.
Qed.

Lemma direct_step_locations st filepath k :
  key_usage_locations (direct_step relpath read st filepath) !! k =
  if decide (k ∈ keys_in read filepath)
  then Some (locations_of (key_usage_locations st) k ∪ {[relpath filepath]})
  else key_usage_locations st !! k.
Proof.
  unfold keys_in, scanned, direct_step.
  destruct (read filepath) as [content|]; simpl; [|done].
  destruct (is_locale_json filepath); simpl; [done|].
  apply set_fold_record_key.
Qed.

Lemma direct_step_patterns st filepath :
  dynamic_patterns (direct_step relpath read st filepath) =
  dynamic_patterns st ++ patterns_in relpath read filepath.
Proof.
  unfold patterns_in, scanned, direct_step.
  destruct (read filepath) as [content|]; simpl; [|by rewrite app_nil_r].
  destruct (is_locale_json filepath); simpl; [by rewrite app_nil_r|done].
Qed.

Lemma direct_phase_snoc files filepath :
  direct_phase relpath read (files ++ [filepath]) = direct_step relpath read (direct_phase relpath read files) filepath.
Proof. unfold direct_phase. by rewrite foldl_snoc. Qed.

Lemma direct_phase_used_keys files :
  used_keys (direct_phase relpath read files) = ⋃ (keys_in read <$> files).
Proof.
  induction files as [|f files IH] using rev_ind; [done|].
  rewrite direct_phase_snoc, direct_step_used_keys, IH, fmap_app.
  rewrite union_list_app_L. simpl. set_solver.
Qed.

Lemma file_evidence_keys key files p :
  p ∈ ⋃ (file_evidence relpath read key <$> files) -> key ∈ ⋃ (keys_in read <$> files).
Proof.
  rewrite !elem_of_union_list. intros (X & HX & Hp).
  apply list_elem_of_fmap in HX as (f & -> & Hf).
  unfold file_evidence in Hp. case_decide; [|set_solver].
  exists (keys_in read f). split; [|done]. apply list_elem_of_fmap. eauto.
Qed.

Lemma direct_phase_locations files k :
  key_usage_locations (direct_phase relpath read files) !! k =
  if decide (k ∈ ⋃ (keys_in read <$> files))
  then Some (⋃ (file_evidence relpath read k <$> files)) else None.
Proof.
  induction files as [|f files IH] using rev_ind.
  { simpl. rewrite decide_False by set_solver. done. }
  rewrite direct_phase_snoc, direct_step_locations.
  rewrite !fmap_app, !union_list_app_L. simpl.
  unfold locations_of. rewrite IH. clear IH.
  assert (HE : k ∉ ⋃ (keys_in read <$> files) ->
               ⋃ (file_evidence relpath read k <$> files) = ∅).
  { intros Hk. apply set_eq. intros p. split; [|set_solver].
    intros Hp. by apply file_evidence_keys in Hp. }
  set (A := ⋃ (keys_in read <$> files)) in *.
  set (E := ⋃ (file_evidence relpath read k <$> files)) in *.
  unfold file_evidence.
  destruct (decide (k ∈ keys_in read f)) as [Hf|Hf];
    destruct (decide (k ∈ A)) as [Hk|Hk];
    destruct (decide (k ∈ A ∪ (keys_in read f ∪ ∅))) as [Hu|Hu];
    simpl; try (exfalso; set_solver); try done; f_equal.
  all: try rewrite (HE Hk); set_solver.
Qed.

Lemma direct_phase_evidence files k :
  locations_of (key_usage_locations (direct_phase relpath read files)) k =
  ⋃ (file_evidence relpath read k <$> files).
Proof.
  unfold locations_of. rewrite direct_phase_locations.
  case_decide as Hk; [done|]. simpl. symmetry.
  apply set_eq. intros p. split; [|set_solver].
  intros Hp. by apply file_evidence_keys in Hp.
Qed.

Lemma direct_phase_patterns files :
  dynamic_patterns (direct_phase relpath read files) = concat (patterns_in relpath read <$> files).
Proof.
  induction files as [|f files IH] using rev_ind; [done|].
  rewrite direct_phase_snoc, direct_step_patterns, IH, fmap_app, concat_app.
  simpl. by rewrite app_nil_r.
Qed.

Lemma keys_in_union_perm files files' :
  files ≡ₚ files' -> ⋃ (keys_in read <$> files) = ⋃ (keys_in read <$> files').
Proof.
  intros HP. apply set_eq. intros k. rewrite !elem_of_union_list.
  split; intros (X & HX & Hk); exists X; split; try done.
  - by rewrite <- HP.
  - by rewrite HP.
Qed.

Lemma file_evidence_union_perm k files files' :
  files ≡ₚ files' ->
  ⋃ (file_evidence relpath read k <$> files) = ⋃ (file_evidence relpath read k <$> files').
Proof.
  intros HP. apply set_eq. intros p. rewrite !elem_of_union_list.
  split; intros (X & HX & Hk); exists X; split; try done.
  - by rewrite <- HP.
  - by rewrite HP.
Qed.

End DirectFacts.

Section DeepFacts.
Variable relpath : string -> string.
Variable read : string -> option string.

Lemma elem_of_add_location rel_path key (L : gmap string (gset string)) k p :
  p ∈ locations_of (add_location rel_path key L) k ↔
  p ∈ locations_of L k ∨ (k = key ∧ p = rel_path).
Proof.
  unfold add_location, locations_of. destruct (decide (key = k)) as [->|Hne].
  - rewrite lookup_insert_eq. simpl. set_solver.
  - rewrite lookup_insert_ne by done. naive_solver.
Qed.

Lemma recover_recovered D rel_path st key k :
  k ∈ recovered (recover D rel_path st key) ↔
  k ∈ recovered st ∨ (k = key ∧ key ∈ D).
Proof.
  unfold recover. case_decide; simpl; [set_solver|naive_solver].
Qed.

Lemma recover_locations D rel_path st key k p :
  p ∈ locations_of (recovery_locations (recover D rel_path st key)) k ↔
  p ∈ locations_of (recovery_locations st) k ∨
  (k = key ∧ key ∈ D ∧ p = rel_path).
Proof.
  unfold recover. case_decide; simpl.
  - rewrite elem_of_add_location. naive_solver.
  - naive_solver.
Qed.

Lemma foldl_recover_recovered D rel_path l : forall st k,
  k ∈ recovered (foldl (recover D rel_path) st l) ↔
  k ∈ recovered st ∨ (k ∈ l ∧ k ∈ D).
Proof.
  induction l as [|key l IH]; intros st k; simpl.
  - rewrite elem_of_nil. naive_solver.
  - rewrite IH, recover_recovered, elem_of_cons. naive_solver.
Qed.

Lemma foldl_recover_locations D rel_path l : forall st k p,
  p ∈ locations_of (recovery_locations (foldl (recover D rel_path) st l)) k ↔
  p ∈ locations_of (recovery_locations st) k ∨
  (k ∈ l ∧ k ∈ D ∧ p = rel_path).
Proof.
  induction l as [|key l IH]; intros st k p; simpl.
  - rewrite elem_of_nil. naive_solver.
  - rewrite IH, recover_locations, elem_of_cons. naive_solver.
Qed.

Lemma deep_step_recovered D st filepath k :
  k ∈ recovered (deep_step relpath read D st filepath) ↔
  k ∈ recovered st ∨ (k ∈ D ∧ k ∈ literals_in read filepath).
Proof.
  unfold deep_step, literals_in, scanned.
  destruct (read filepath) as [content|]; simpl.
  - destruct (is_locale_json filepath).
    + rewrite elem_of_nil. naive_solver.
    + rewrite foldl_recover_recovered. naive_solver.
  - rewrite elem_of_nil. naive_solver.
Qed.

Lemma deep_step_locations D st filepath k p :
  p ∈ locations_of (recovery_locations (deep_step relpath read D st filepath)) k ↔
  p ∈ locations_of (recovery_locations st) k ∨
  (k ∈ D ∧ k ∈ literals_in read filepath ∧ p = relpath filepath).
Proof.
  unfold deep_step, literals_in, scanned.
  destruct (read filepath) as [content|]; simpl.
  - destruct (is_locale_json filepath).
    + rewrite elem_of_nil. naive_solver.
    + rewrite foldl_recover_locations. naive_solver.
  - rewrite elem_of_nil. naive_solver.
Qed.

Lemma deep_step_unscanned D st filepath :
  scanned read filepath = None -> deep_step relpath read D st filepath = st.
Proof.
  unfold scanned, deep_step. destruct (read filepath); simpl; [|done].
  by destruct (is_locale_json filepath).
Qed.

Lemma foldl_deep_step_recovered D files : forall st k,
  k ∈ recovered (foldl (deep_step relpath read D) st files) ↔
  k ∈ recovered st ∨
  (k ∈ D ∧ ∃ f, f ∈ files ∧ k ∈ literals_in read f).
Proof.
  induction files as [|f files IH]; intros st k; simpl.
  - split; [by left|]. intros [?|(_ & f & Hf & _)]; [done|].
    by apply elem_of_nil in Hf.
  - rewrite IH, deep_step_recovered. split.
    + intros [[?|[? ?]]|(? & f' & ? & ?)]; [by left| |].
      * right. split; [done|]. exists f. split; [by left|done].
      * right. split; [done|]. exists f'. split; [by right|done].
    + intros [?|(? & f' & Hf & ?)]; [by left; left|].
      apply elem_of_cons in Hf as [->|Hf]; [left; by right|].
      right. split; [done|]. by exists f'.
Qed.

Lemma foldl_deep_step_locations D files : forall st k p,
  p ∈ locations_of
        (recovery_locations (foldl (deep_step relpath read D) st files)) k ↔
  p ∈ locations_of (recovery_locations st) k ∨
  (k ∈ D ∧ ∃ f, f ∈ files ∧ k ∈ literals_in read f ∧ p = relpath f).
Proof.
  induction files as [|f files IH]; intros st k p; simpl.
  - split; [by left|]. intros [?|(_ & f & Hf & _)]; [done|].
    by apply elem_of_nil in Hf.
  - rewrite IH, deep_step_locations. split.
    + intros [[?|(? & ? & ?)]|(? & f' & ? & ? & ?)]; [by left| |].
      * right. split; [done|]. exists f. split; [by left|done].
      * right. split; [done|]. exists f'. split; [by right|done].
    + intros [?|(? & f' & Hf & ? & ?)]; [by left; left|].
      apply elem_of_cons in Hf as [->|Hf]; [left; by right|].
      right. split; [done|]. by exists f'.
Qed.

Lemma deep_scan_recovered files D k :
  k ∈ recovered (deep_scan_string_literals relpath read files D) ↔
  k ∈ D ∧ ∃ f, f ∈ files ∧ k ∈ literals_in read f.
Proof.
  unfold deep_scan_string_literals. rewrite foldl_deep_step_recovered.
  simpl. set_solver.
Qed.

Lemma deep_scan_locations files D k p :
  p ∈ locations_of
        (recovery_locations (deep_scan_string_literals relpath read files D)) k ↔
  k ∈ D ∧ ∃ f, f ∈ files ∧ k ∈ literals_in read f ∧ p = relpath f.
Proof.
  unfold deep_scan_string_literals. rewrite foldl_deep_step_locations.
  unfold locations_of at 1. simpl. rewrite lookup_empty. simpl. set_solver.
Qed.

End DeepFacts.

(** * Properties of the classifier *)

Section ClassifyFacts.
Variable direct : direct_scan.
Variable deep : deep_scan.

Lemma classify_step_verdict b item :
  classify_step direct deep b item =
  file_under item.1 (verdict_of direct deep item.1 item.2) b.
Proof.
  unfold classify_step, verdict_of.
  repeat case_decide; try done.
  by destruct (find _ _).
Qed.

Lemma classify_fold_used (l : list (string * string)) : forall b k,
  NoDup l.*1 ->
  used (foldl (classify_step direct deep) b l) !! k =
  match (list_to_map l : gmap string string) !! k with
  | Some v =>
      match as_used (verdict_of direct deep k v) with
      | Some e => Some e
      | None => used b !! k
      end
  | None => used b !! k
  end.
Proof.
  induction l as [|[k0 v0] l IH]; intros b k Hnd; [done|].
  inversion Hnd as [|?? Hk0 Hnd']; subst. simpl.
  rewrite IH by done. rewrite classify_step_verdict. simpl.
  destruct (decide (k0 = k)) as [->|Hne].
  - rewrite lookup_insert_eq.
    rewrite (not_elem_of_list_to_map_1 _ _ Hk0).
    destruct (verdict_of direct deep k v0); simpl;
      by rewrite ?lookup_insert_eq.
  - rewrite lookup_insert_ne by done.
    destruct (list_to_map l !! k) as [v|]; [destruct (as_used _); [done|]|];
      destruct (verdict_of direct deep k0 v0); simpl;
      by rewrite ?lookup_insert_ne.
Qed.

Lemma classify_fold_dynamic (l : list (string * string)) : forall b k,
  NoDup l.*1 ->
  possibly_dynamic (foldl (classify_step direct deep) b l) !! k =
  match (list_to_map l : gmap string string) !! k with
  | Some v =>
      match as_dynamic (verdict_of direct deep k v) with
      | Some e => Some e
      | None => possibly_dynamic b !! k
      end
  | None => possibly_dynamic b !! k
  end.
Proof.
  induction l as [|[k0 v0] l IH]; intros b k Hnd; [done|].
  inversion Hnd as [|?? Hk0 Hnd']; subst. simpl.
  rewrite IH by done. rewrite classify_step_verdict. simpl.
  destruct (decide (k0 = k)) as [->|Hne].
  - rewrite lookup_insert_eq.
    rewrite (not_elem_of_list_to_map_1 _ _ Hk0).
    destruct (verdict_of direct deep k v0); simpl;
      by rewrite ?lookup_insert_eq.
  - rewrite lookup_insert_ne by done.
    destruct (list_to_map l !! k) as [v|]; [destruct (as_dynamic _); [done|]|];
      destruct (verdict_of direct deep k0 v0); simpl;
      by rewrite ?lookup_insert_ne.
Qed.

Lemma classify_fold_unused (l : list (string * string)) : forall b k,
  NoDup l.*1 ->
  unused (foldl (classify_step direct deep) b l) !! k =
  match (list_to_map l : gmap string string) !! k with
  | Some v =>
      match as_unused (verdict_of direct deep k v) with
      | Some e => Some e
      | None => unused b !! k
      end
  | None => unused b !! k
  end.
Proof.
  induction l as [|[k0 v0] l IH]; intros b k Hnd; [done|].
  inversion Hnd as [|?? Hk0 Hnd']; subst. simpl.
  rewrite IH by done. rewrite classify_step_verdict. simpl.
  destruct (decide (k0 = k)) as [->|Hne].
  - rewrite lookup_insert_eq.
    rewrite (not_elem_of_list_to_map_1 _ _ Hk0).
    destruct (verdict_of direct deep k v0); simpl;
      by rewrite ?lookup_insert_eq.
  - rewrite lookup_insert_ne by done.
    destruct (list_to_map l !! k) as [v|]; [destruct (as_unused _); [done|]|];
      destruct (verdict_of direct deep k0 v0); simpl;
      by rewrite ?lookup_insert_ne.
Qed.

Variable all_keys : gmap string string.

Lemma classify_used k :
  used (classify all_keys direct deep) !! k =
  all_keys !! k ≫= λ v, as_used (verdict_of direct deep k v).
Proof.
  unfold classify. rewrite classify_fold_used by apply NoDup_fst_map_to_list.
  rewrite list_to_map_to_list. simpl.
  destruct (all_keys !! k) as [v|]; simpl; [|done]. by destruct (as_used _).
Qed.

Lemma classify_dynamic k :
  possibly_dynamic (classify all_keys direct deep) !! k =
  all_keys !! k ≫= λ v, as_dynamic (verdict_of direct deep k v).
Proof.
  unfold classify. rewrite classify_fold_dynamic by apply NoDup_fst_map_to_list.
  rewrite list_to_map_to_list. simpl.
  destruct (all_keys !! k) as [v|]; simpl; [|done]. by destruct (as_dynamic _).
Qed.

Lemma classify_unused k :
  unused (classify all_keys direct deep) !! k =
  all_keys !! k ≫= λ v, as_unused (verdict_of direct deep k v).
Proof.
  unfold classify. rewrite classify_fold_unused by apply NoDup_fst_map_to_list.
  rewrite list_to_map_to_list. simpl.
  destruct (all_keys !! k) as [v|]; simpl; [|done]. by destruct (as_unused _).
Qed.

Lemma all_test_files_spec (locs : gset string) :
  all_test_files locs = true ↔ ∀ loc, loc ∈ locs → is_test_file loc = true.
Proof.
  unfold all_test_files. rewrite forallb_forall. split.
  - intros H loc Hloc. apply H. apply list_elem_of_In. by apply elem_of_elements.
  - intros H loc Hloc. apply H. apply elem_of_elements. by apply list_elem_of_In.
Qed.

Lemma test_only_fold (l : list string) : forall (acc : gset string) k,
  k ∈ foldl (λ (test_only : gset string) (key : string),
               if all_test_files (locations_of (key_usage_locations direct) key)
               then test_only ∪ {[key]} else test_only) acc l ↔
  k ∈ acc ∨ (k ∈ l ∧
             all_test_files (locations_of (key_usage_locations direct) k) = true).
Proof.
  induction l as [|x l IH]; intros acc k; simpl.
  - rewrite elem_of_nil. naive_solver.
  - rewrite IH, elem_of_cons.
    destruct (all_test_files (locations_of (key_usage_locations direct) x)) eqn:E.
    + rewrite elem_of_union, elem_of_singleton.
      split.
      * intros [[? | ->] | [? ?]]; auto.
      * intros [? | [[-> | ?] ?]]; auto.
    + split.
      * intros [?|[? ?]]; auto.
      * intros [? | [[-> | ?] ?]]; auto. congruence.
Qed.

Lemma elem_of_test_only_of (u : gmap string used_entry) k :
  k ∈ test_only_of direct u ↔
  k ∈ dom u ∧
  all_test_files (locations_of (key_usage_locations direct) k) = true.
Proof.
  unfold test_only_of. rewrite test_only_fold, elem_of_elements. set_solver.
Qed.

End ClassifyFacts.

(** * Paths with a source extension are never skipped as locale files *)

Lemma endswith_cons a s suffix :
  Str.endswith (String a s) suffix =
  String.eqb (String a s) suffix || Str.endswith s suffix.
Proof. reflexivity. Qed.

Lemma endswith_json_not (ext : string) :
  Str.endswith ".json" ext = false ->
  (forall a s, String a s = ext -> Str.endswith s ".json" = false) ->
  forall s, Str.endswith s ".json" = true -> Str.endswith s ext = false.
Proof.
  intros H2 H3 s. induction s as [|a s IH]; [done|].
  rewrite !endswith_cons. intros H. apply orb_true_iff in H as [H|H].
  - apply String.eqb_eq in H. injection H as -> ->. exact H2.
  - rewrite (IH H), orb_false_r.
    destruct (String.eqb (String a s) ext) eqn:E; [|done].
    apply String.eqb_eq in E. by rewrite (H3 _ _ E) in H.
Qed.

Lemma source_extension_not_json filepath :
  has_source_extension filepath = true -> Str.endswith filepath ".json" = false.
Proof.
  intros H. destruct (Str.endswith filepath ".json") eqn:E; [|done].
  unfold has_source_extension, SOURCE_EXTENSIONS in H. simpl in H.
  assert (Hext : forall ext, In ext SOURCE_EXTENSIONS ->
                 Str.endswith filepath ext = false).
  { intros ext Hin. apply endswith_json_not; [| |exact E];
      simpl in Hin; destruct Hin as [<-|[<-|[<-|[<-|[]]]]];
      try reflexivity; intros a s [= -> ->]; reflexivity. }
  rewrite !Hext in H by (simpl; tauto). discriminate.
Qed.

Lemma source_file_scanned read filepath :
  has_source_extension filepath = true -> scanned read filepath = read filepath.
Proof.
  intros H. unfold scanned, is_locale_json.
  rewrite (source_extension_not_json _ H), andb_false_r.
  by destruct (read filepath).
Qed.

(** * The properties of the analyser *)

Section Classification.
Context {Leaf : Type}.
Variable py_str : Leaf -> string.
Variable relpath : string -> string.
Variable read : string -> option string.

Lemma verdict_cases (d : direct_scan) (dp : deep_scan) k v :
  (∃ e, verdict_of d dp k v = Used e ∧ k ∈ used_keys d) ∨
  (∃ e, verdict_of d dp k v = Dynamic e ∧ k ∉ used_keys d) ∨
  (∃ e, verdict_of d dp k v = Unused e ∧ k ∉ used_keys d ∧ k ∉ recovered dp).
Proof.
  unfold verdict_of. repeat case_decide; eauto.
  destruct (find _ _); eauto 6.
Qed.

Lemma classes_exclusive (m : gmap string string) d dp k :
  k ∈ dom m ->
  (k ∈ dom (used (classify m d dp)) ∧
   k ∉ dom (possibly_dynamic (classify m d dp)) ∧
   k ∉ dom (unused (classify m d dp))) ∨
  (k ∉ dom (used (classify m d dp)) ∧
   k ∈ dom (possibly_dynamic (classify m d dp)) ∧
   k ∉ dom (unused (classify m d dp))) ∨
  (k ∉ dom (used (classify m d dp)) ∧
   k ∉ dom (possibly_dynamic (classify m d dp)) ∧
   k ∈ dom (unused (classify m d dp))).
Proof.
  intros Hk. apply elem_of_dom in Hk as [v Hv].
  rewrite !elem_of_dom, classify_used, classify_dynamic, classify_unused, Hv.
  simpl.
  destruct (verdict_of d dp k v); simpl; rewrite <- ?not_eq_None_Some;
    [left|right; left|right; right]; split_and!; eauto; by intros [].
Qed.

Lemma classes_defined (m : gmap string string) d dp k :
  k ∈ dom (used (classify m d dp)) ∨
  k ∈ dom (possibly_dynamic (classify m d dp)) ∨
  k ∈ dom (unused (classify m d dp)) ->
  k ∈ dom m.
Proof.
  rewrite !elem_of_dom, classify_used, classify_dynamic, classify_unused.
  destruct (m !! k); [eauto|]. simpl. intros [[? ?]|[[? ?]|[? ?]]]; done.
Qed.

Lemma classes_sizes (m : gmap string string) d dp :
  size (used (classify m d dp)) + size (possibly_dynamic (classify m d dp)) +
  size (unused (classify m d dp)) = size m.
Proof.
  rewrite <- !(size_dom (D := gset string)).
  assert (Hdom : dom m = dom (used (classify m d dp)) ∪
                 dom (possibly_dynamic (classify m d dp)) ∪
                 dom (unused (classify m d dp))).
  { apply set_eq. intros k. rewrite !elem_of_union. split.
    - intros Hk. destruct (classes_exclusive m d dp k Hk) as [H|[H|H]];
        destruct H as (? & ? & ?); tauto.
    - intros H. apply (classes_defined m d dp). tauto. }
  rewrite Hdom. rewrite !size_union; [done| |].
  - intros k Hu Hd. assert (Hk : k ∈ dom m) by (apply (classes_defined m d dp); tauto).
    destruct (classes_exclusive m d dp k Hk) as [H|[H|H]];
      destruct H as (? & ? & ?); tauto.
  - intros k Hud Hn. apply elem_of_union in Hud.
    assert (Hk : k ∈ dom m) by (apply (classes_defined m d dp); tauto).
    destruct (classes_exclusive m d dp k Hk) as [H|[H|H]];
      destruct H as (? & ? & ?); tauto.
Qed.

(** C1. Whatever the key document and the source files, every defined key
    is in exactly one of the three dictionaries [used], [possibly_dynamic]
    and [unused], the dictionaries hold defined keys only, and the three
    counts of the report add up to [total_defined]. *)
Theorem classification_is_partition (en_data : list (string * json Leaf))
    (source_files : list string) :
  let r := analyse py_str relpath read en_data source_files in
  let rep := main py_str relpath read en_data source_files in
  (∀ key, key ∈ dom (all_keys r) →
     (key ∈ dom (r_used rep) ∧ key ∉ dom (r_possibly_dynamic rep) ∧
      key ∉ dom (r_unused rep)) ∨
     (key ∉ dom (r_used rep) ∧ key ∈ dom (r_possibly_dynamic rep) ∧
      key ∉ dom (r_unused rep)) ∨
     (key ∉ dom (r_used rep) ∧ key ∉ dom (r_possibly_dynamic rep) ∧
      key ∈ dom (r_unused rep))) ∧
  (∀ key, key ∈ dom (r_used rep) ∨ key ∈ dom (r_possibly_dynamic rep) ∨
          key ∈ dom (r_unused rep) → key ∈ dom (all_keys r)) ∧
  used_count rep + possibly_dynamic_count rep + unused_count rep
  = total_defined rep ∧
  total_defined rep = size (all_keys r).
Proof.
  intros r rep. split_and!.
  - intros key. apply classes_exclusive.
  - intros key. apply classes_defined.
  - apply classes_sizes.
  - reflexivity.
Qed.

Lemma used_key_classified (m : gmap string string) d dp key :
  key ∈ dom m → key ∈ used_keys d →
  key ∈ dom (used (classify m d dp)) ∧
  key ∉ dom (possibly_dynamic (classify m d dp)) ∧
  key ∉ dom (unused (classify m d dp)).
Proof.
  intros Hdef Hused. apply elem_of_dom in Hdef as [v Hv].
  rewrite !elem_of_dom, classify_used, classify_dynamic, classify_unused, Hv.
  simpl. unfold verdict_of. rewrite decide_True by done. simpl.
  split_and!; eauto; by intros [].
Qed.

(** C2. A defined key found by the direct-reference scan is classified
    USED and is in neither other dictionary, whatever quoted strings the
    files contain: the deep scan is given only the keys outside
    [used_keys], so it never recovers such a key, and the classifier
    tests [used_keys] first. *)
Theorem direct_reference_takes_precedence (en_data : list (string * json Leaf))
    (source_files : list string) (key : string) :
  let r := analyse py_str relpath read en_data source_files in
  key ∈ dom (all_keys r) →
  key ∈ used_keys (direct r) →
  key ∈ dom (used (classes r)) ∧
  key ∉ dom (possibly_dynamic (classes r)) ∧
  key ∉ dom (unused (classes r)) ∧
  key ∉ remaining_keys r ∧
  recovered (deep r) ⊆ remaining_keys r ∧
  key ∉ recovered (deep r).
Proof.
  intros r Hdef Hused.
  assert (Hsub : recovered (deep r) ⊆ remaining_keys r).
  { intros k Hk. by apply deep_scan_recovered in Hk as [? _]. }
  assert (Hrem : key ∉ remaining_keys r).
  { unfold r. simpl. set_solver. }
  destruct (used_key_classified (all_keys r) (direct r) (deep r) key Hdef Hused)
    as (H1 & H2 & H3).
  split_and!; try done.
  intros Hk. apply Hrem. by apply Hsub.
Qed.

End Classification.

Lemma elem_of_sorted (X : gset string) (x : string) : x ∈ Str.sorted X ↔ x ∈ X.
Proof.
  unfold Str.sorted. rewrite merge_sort_Permutation. apply elem_of_elements.
Qed.

Lemma is_test_file_spec (rel_path : string) :
  is_test_file rel_path = true ↔
  ∃ ind, ind ∈ TEST_INDICATORS ∧ Str.contains ind (Str.lower rel_path) = true.
Proof.
  unfold is_test_file. rewrite existsb_exists.
  split; intros (ind & H1 & H2); exists ind; split; try done;
    by apply list_elem_of_In.
Qed.

Lemma find_filter_prefix key (l : list dynamic_pattern) :
  find (prefix_matches key) (filter (λ dp, is_Some (dp_prefix dp)) l) =
  find (prefix_matches key) l.
Proof.
  induction l as [|dp l IH]; [done|].
  rewrite filter_cons. case_decide as Hp; simpl.
  - by rewrite IH.
  - rewrite IH. unfold prefix_matches at 2.
    destruct (dp_prefix dp) as [p|]; [|done]. exfalso. apply Hp. eauto.
Qed.

Lemma find_first {A} (P : A -> bool) (l : list A) (x : A) :
  x ∈ l -> P x = true ->
  ∃ before first after,
    l = before ++ first :: after ∧ P first = true ∧
    (∀ y, y ∈ before → P y = false) ∧ find P l = Some first.
Proof.
  induction l as [|a l IH]; intros Hx HP.
  - by apply elem_of_nil in Hx.
  - destruct (P a) eqn:Ha.
    + exists [], a, l. split_and!; try done.
      * intros y Hy. by apply elem_of_nil in Hy.
      * simpl. by rewrite Ha.
    + apply elem_of_cons in Hx as [->|Hx]; [congruence|].
      destruct (IH Hx HP) as (before & first & after & -> & Hf & Hb & Hfind).
      exists (a :: before), first, after. split_and!; try done.
      * intros y Hy. apply elem_of_cons in Hy as [->|Hy]; auto.
      * simpl. by rewrite Ha.
Qed.

Lemma finditer_quoted_dotted (pre : string) (q1 : ascii) (segs : list string)
    (q2 : ascii) (post : string) :
  ends_with_alnum pre = false ->
  Chars.is_quote2 q1 = true -> Chars.is_quote2 q2 = true ->
  2 <= length segs -> forallb segment_ok segs = true ->
  Str.join "." segs ∈
    Re.finditer Pat.quoted_dotted
      (pre ++ String q1 (Str.join "." segs ++ String q2 post))%string.
Proof.
  intros Hpre Hq1 Hq2 Hlen Hsegs. unfold Re.finditer.
  apply list_elem_of_fmap. exists (Shape.join_dots (list_ascii_of_string <$> segs)).
  split.
  - by rewrite <- ReFacts.list_ascii_of_join, string_of_list_ascii_of_string.
  - rewrite ReFacts.list_ascii_of_string_app. simpl.
    rewrite ReFacts.list_ascii_of_string_app, ReFacts.list_ascii_of_join. simpl.
    apply ReFacts.scan_quoted_dotted; try done.
    + by rewrite length_fmap.
    + rewrite forallb_forall in Hsegs. apply forallb_forall.
      intros seg Hseg. apply in_map_iff in Hseg as (s & <- & Hs). by apply Hsegs.
Qed.

Lemma finditer_quoted_dotted_tried (pre : string) (q1 : ascii)
    (segs : list string) (q2 : ascii) (post : string) :
  Re.tried_at Pat.quoted_dotted pre
    (String q1 (Str.join "." segs ++ String q2 post)) = true ->
  Chars.is_quote2 q1 = true -> Chars.is_quote2 q2 = true ->
  2 <= length segs -> forallb segment_ok segs = true ->
  Str.join "." segs ∈
    Re.finditer Pat.quoted_dotted
      (pre ++ String q1 (Str.join "." segs ++ String q2 post))%string.
Proof.
  intros Ht Hq1 Hq2 Hlen Hsegs. unfold Re.finditer.
  apply list_elem_of_fmap. exists (Shape.join_dots (list_ascii_of_string <$> segs)).
  split.
  - by rewrite <- ReFacts.list_ascii_of_join, string_of_list_ascii_of_string.
  - unfold Re.tried_at in Ht. cbn [list_ascii_of_string] in Ht.
    rewrite ReFacts.list_ascii_of_string_app, ReFacts.list_ascii_of_join in Ht.
    cbn [list_ascii_of_string] in Ht.
    rewrite ReFacts.list_ascii_of_string_app. cbn [list_ascii_of_string].
    rewrite ReFacts.list_ascii_of_string_app, ReFacts.list_ascii_of_join.
    cbn [list_ascii_of_string].
    apply ReFacts.scan_quoted_dotted_tried; try done.
    + by rewrite length_fmap.
    + rewrite forallb_forall in Hsegs. apply forallb_forall.
      intros seg Hseg. apply in_map_iff in Hseg as (s & <- & Hs). by apply Hsegs.
Qed.

Section Report.
Context {Leaf : Type}.
Variable py_str : Leaf -> string.
Variable relpath : string -> string.
Variable read : string -> option string.

(** C6. For a key classified USED: it is in the test-only set exactly
    when [is_test_file] accepts every path of its usage evidence, where
    [is_test_file] looks for one of the indicators in the lower-cased
    path; the paths listed in the report entry are that evidence; and the
    test-only set is a subset of the USED keys, listed as such in the
    report. *)
Theorem test_only_marks_used_keys (en_data : list (string * json Leaf))
    (source_files : list string) (key : string) :
  let r := analyse py_str relpath read en_data source_files in
  let rep := main py_str relpath read en_data source_files in
  key ∈ dom (used (classes r)) →
  (key ∈ test_only r ↔
     ∀ loc, loc ∈ locations_of (key_usage_locations (direct r)) key →
            is_test_file loc = true) ∧
  (∀ e, r_used rep !! key = Some e →
        ∀ loc, loc ∈ u_locations e ↔
               loc ∈ locations_of (key_usage_locations (direct r)) key) ∧
  (∀ loc, is_test_file loc = true ↔
          ∃ ind, ind ∈ TEST_INDICATORS ∧
                 Str.contains ind (Str.lower loc) = true) ∧
  test_only r ⊆ dom (used (classes r)) ∧
  (∀ k, k ∈ test_only_keys rep ↔ k ∈ test_only r) ∧
  test_only_count rep = size (test_only r).
Proof.
  intros r rep Hused. split_and!.
  - unfold r at 1. simpl. rewrite elem_of_test_only_of.
    rewrite all_test_files_spec. tauto.
  - intros e He loc.
    change (used (classify (all_keys r) (direct r) (deep r)) !! key = Some e) in He.
    rewrite classify_used in He.
    destruct (all_keys r !! key) as [v|]; cbn [mbind option_bind] in He; [|done].
    unfold verdict_of in He.
    case_decide; [|case_decide; [done|by destruct (find _ _)]].
    cbn [as_used] in He. injection He as <-. cbn [u_locations].
    apply elem_of_sorted.
  - intros loc. apply is_test_file_spec.
  - intros k Hk. unfold r in Hk. simpl in Hk.
    by apply elem_of_test_only_of in Hk as [? _].
  - intros k. apply elem_of_sorted.
  - reflexivity.
Qed.

Lemma direct_phase_drop l1 filepath l2 :
  scanned read filepath = None ->
  direct_phase relpath read (l1 ++ filepath :: l2) =
  direct_phase relpath read (l1 ++ l2).
Proof.
  intros H. unfold direct_phase. rewrite !foldl_app. simpl.
  by rewrite direct_step_unscanned.
Qed.

Lemma deep_scan_drop D l1 filepath l2 :
  scanned read filepath = None ->
  deep_scan_string_literals relpath read (l1 ++ filepath :: l2) D =
  deep_scan_string_literals relpath read (l1 ++ l2) D.
Proof.
  intros H. unfold deep_scan_string_literals. rewrite !foldl_app. simpl.
  by rewrite deep_step_unscanned.
Qed.

(** C9. A source file that cannot be read does not stop the run: both
    loops leave their state unchanged at that file, it contributes no
    key, no evidence, no dynamic pattern and no recovered string, and the
    report is the report over the other files. *)
Theorem unreadable_file_is_skipped (en_data : list (string * json Leaf))
    (files_before : list string) (filepath : string)
    (files_after : list string) :
  read filepath = None →
  main py_str relpath read en_data (files_before ++ filepath :: files_after)
  = main py_str relpath read en_data (files_before ++ files_after) ∧
  (∀ st, direct_step relpath read st filepath = st) ∧
  (∀ defined_keys_set st,
     deep_step relpath read defined_keys_set st filepath = st) ∧
  keys_in read filepath = ∅ ∧
  (∀ key, file_evidence relpath read key filepath = ∅) ∧
  patterns_in relpath read filepath = [] ∧
  literals_in read filepath = [].
Proof.
  intros Hread.
  assert (Hs : scanned read filepath = None).
  { unfold scanned. by rewrite Hread. }
  split_and!.
  - unfold main, analyse.
    by rewrite !direct_phase_drop, !deep_scan_drop.
  - intros st. by apply direct_step_unscanned.
  - intros D st. by apply deep_step_unscanned.
  - unfold keys_in. by rewrite Hs.
  - intros key. unfold file_evidence, keys_in. rewrite Hs.
    by rewrite decide_False by set_solver.
  - unfold patterns_in. by rewrite Hs.
  - unfold literals_in. by rewrite Hs.
Qed.

Lemma classify_step_without_variables d dp b item :
  classify_step (without_variable_patterns d) dp b item =
  classify_step d dp b item.
Proof.
  unfold classify_step, without_variable_patterns. simpl.
  by rewrite find_filter_prefix.
Qed.

Lemma foldl_ext_all {A B} (f g : A -> B -> A) (l : list B) :
  (forall a b, f a b = g a b) -> forall a, foldl f a l = foldl g a l.
Proof.
  intros H. induction l as [|b l IH]; intros a; simpl; [done|].
  by rewrite H, IH.
Qed.

(** C10. Variable-reference patterns, recorded with no prefix, are part of
    the [dynamic_patterns] list of the report and match no key; dropping
    them from the collected list leaves the three dictionaries and the
    test-only set as they are. *)
Theorem variable_patterns_do_not_classify (en_data : list (string * json Leaf))
    (source_files : list string) :
  let r := analyse py_str relpath read en_data source_files in
  let rep := main py_str relpath read en_data source_files in
  let kept := without_variable_patterns (direct r) in
  dynamic_patterns kept
  = filter (λ dp, is_Some (dp_prefix dp)) (dynamic_patterns (direct r)) ∧
  classify (all_keys r) kept (deep r) = classes r ∧
  used (classify (all_keys r) kept (deep r)) = r_used rep ∧
  possibly_dynamic (classify (all_keys r) kept (deep r))
  = r_possibly_dynamic rep ∧
  unused (classify (all_keys r) kept (deep r)) = r_unused rep ∧
  test_only_of kept (used (classify (all_keys r) kept (deep r))) = test_only r ∧
  (∀ key dp, dp_prefix dp = None → prefix_matches key dp = false) ∧
  r_dynamic_patterns rep = dynamic_patterns (direct r).
Proof.
  intros r rep kept.
  assert (Hc : classify (all_keys r) kept (deep r) = classes r).
  { unfold kept, classify. simpl.
    apply foldl_ext_all. intros b item. apply classify_step_without_variables. }
  split_and!; try done.
  - by rewrite Hc.
  - by rewrite Hc.
  - by rewrite Hc.
  - by rewrite Hc.
  - intros key dp Hdp. unfold prefix_matches. by rewrite Hdp.
Qed.

End Report.

Section Scanning.
Context {Leaf : Type}.
Variable py_str : Leaf -> string.
Variable relpath : string -> string.
Variable read : string -> option string.

Lemma elem_of_file_evidence_union key files p :
  p ∈ ⋃ (file_evidence relpath read key <$> files) ↔
  ∃ f content, f ∈ files ∧ scanned read f = Some content ∧
               key ∈ extract_t_calls content ∧ p = relpath f.
Proof.
  rewrite elem_of_union_list. split.
  - intros (X & HX & Hp). apply list_elem_of_fmap in HX as (f & -> & Hf).
    unfold file_evidence, keys_in in Hp.
    destruct (scanned read f) as [content|] eqn:E.
    + case_decide; [|set_solver]. exists f, content. set_solver.
    + rewrite decide_False in Hp by set_solver. set_solver.
  - intros (f & content & Hf & Hs & Hk & ->).
    exists (file_evidence relpath read key f). split.
    + apply list_elem_of_fmap. eauto.
    + unfold file_evidence, keys_in. rewrite Hs.
      rewrite decide_True by done. set_solver.
Qed.

Lemma elem_of_keys_in_union key files :
  key ∈ ⋃ (keys_in read <$> files) ↔
  ∃ f content, f ∈ files ∧ scanned read f = Some content ∧
               key ∈ extract_t_calls content.
Proof.
  rewrite elem_of_union_list. split.
  - intros (X & HX & Hp). apply list_elem_of_fmap in HX as (f & -> & Hf).
    unfold keys_in in Hp. destruct (scanned read f) as [content|] eqn:E.
    + eauto.
    + set_solver.
  - intros (f & content & Hf & Hs & Hk).
    exists (keys_in read f). split.
    + apply list_elem_of_fmap. eauto.
    + unfold keys_in. by rewrite Hs.
Qed.

(** C7. Over source files (paths with a source extension), the evidence
    set the direct scan builds for a key is the union, over the files,
    of the relative path of each readable file in which
    [extract_t_calls] detects the key; two files that both contain the
    key are both in it; and scanning the files in another order gives
    the same evidence for every key. *)
Theorem evidence_is_order_free_union (source_files : list string) :
  (∀ f, f ∈ source_files → has_source_extension f = true) →
  (∀ key,
     locations_of (key_usage_locations (direct_phase relpath read source_files)) key
     = ⋃ (file_evidence relpath read key <$> source_files)) ∧
  (∀ key p,
     p ∈ locations_of
           (key_usage_locations (direct_phase relpath read source_files)) key ↔
     ∃ f content, f ∈ source_files ∧ read f = Some content ∧
                  key ∈ extract_t_calls content ∧ p = relpath f) ∧
  (∀ key f1 f2 content1 content2,
     f1 ∈ source_files → f2 ∈ source_files →
     read f1 = Some content1 → read f2 = Some content2 →
     key ∈ extract_t_calls content1 → key ∈ extract_t_calls content2 →
     relpath f1 ∈ locations_of
       (key_usage_locations (direct_phase relpath read source_files)) key ∧
     relpath f2 ∈ locations_of
       (key_usage_locations (direct_phase relpath read source_files)) key) ∧
  (∀ permuted, source_files ≡ₚ permuted →
     key_usage_locations (direct_phase relpath read permuted)
     = key_usage_locations (direct_phase relpath read source_files) ∧
     used_keys (direct_phase relpath read permuted)
     = used_keys (direct_phase relpath read source_files)).
Proof.
  intros Hext.
  assert (Hmem : ∀ key p,
     p ∈ locations_of
           (key_usage_locations (direct_phase relpath read source_files)) key ↔
     ∃ f content, f ∈ source_files ∧ read f = Some content ∧
                  key ∈ extract_t_calls content ∧ p = relpath f).
  { intros key p. rewrite direct_phase_evidence, elem_of_file_evidence_union.
    split; intros (f & content & Hf & Hs & Hk & Hp); exists f, content.
    - by rewrite <- (source_file_scanned read f (Hext f Hf)).
    - by rewrite (source_file_scanned read f (Hext f Hf)). }
  split_and!.
  - intros key. apply direct_phase_evidence.
  - exact Hmem.
  - intros key f1 f2 c1 c2 Hf1 Hf2 Hr1 Hr2 Hk1 Hk2. split; apply Hmem.
    + by exists f1, c1.
    + by exists f2, c2.
  - intros permuted HP. split.
    + apply map_eq. intros k. rewrite !direct_phase_locations.
      rewrite (keys_in_union_perm read _ _ HP).
      by rewrite (file_evidence_union_perm relpath read k _ _ HP).
    + rewrite !direct_phase_used_keys. symmetry. by apply keys_in_union_perm.
Qed.

(** C8. If a defined key is UNUSED for some list of files, then in the run
    over that list extended with a readable source file in which
    [extract_t_calls] detects the key, the key is USED; and it is USED,
    and in neither other dictionary, in the run over any list of files
    that contains such a file. *)
Theorem direct_reference_is_monotone (en_data : list (string * json Leaf))
    (source_files : list string) (key filepath content : string) :
  key ∈ dom (unused (classes (analyse py_str relpath read en_data source_files))) →
  has_source_extension filepath = true →
  read filepath = Some content →
  key ∈ extract_t_calls content →
  key ∈ dom (used (classes (analyse py_str relpath read en_data
                              (source_files ++ [filepath])))) ∧
  (∀ more_files, filepath ∈ more_files →
     let r := analyse py_str relpath read en_data more_files in
     key ∈ dom (used (classes r)) ∧
     key ∉ dom (possibly_dynamic (classes r)) ∧
     key ∉ dom (unused (classes r))) ∧
  (∀ extra,
     let r := analyse py_str relpath read en_data
                (source_files ++ [filepath] ++ extra) in
     key ∈ dom (used (classes r)) ∧
     key ∉ dom (possibly_dynamic (classes r)) ∧
     key ∉ dom (unused (classes r))).
Proof.
  intros Hun Hext Hread Hkey.
  assert (Hdef : key ∈ dom (flatten_keys py_str (JDict en_data) "")).
  { apply (classes_defined _ _ _ _ (or_intror (or_intror Hun))). }
  assert (Hall : ∀ more_files, filepath ∈ more_files →
     let r := analyse py_str relpath read en_data more_files in
     key ∈ dom (used (classes r)) ∧
     key ∉ dom (possibly_dynamic (classes r)) ∧
     key ∉ dom (unused (classes r))).
  { intros more_files Hin r. apply used_key_classified; [exact Hdef|].
    unfold r. cbn [direct analyse]. rewrite direct_phase_used_keys.
    apply elem_of_keys_in_union. exists filepath, content.
    split; [done|]. split; [|done].
    by rewrite (source_file_scanned read filepath Hext). }
  split_and!.
  - apply Hall. apply elem_of_app. right. by left.
  - exact Hall.
  - intros extra. apply Hall. apply elem_of_app. right. by left.
Qed.

(** C4, as amended. For a defined key that is neither found by the direct
    scan nor recovered by the deep scan: if it starts with the prefix of
    a recorded pattern and that prefix is not empty, the key is
    POSSIBLY_DYNAMIC, with the text and the file of the first pattern of
    the list, in extraction order, whose non-empty prefix the key starts
    with; the list is the concatenation, in file order, of the patterns
    of each file. *)
Theorem prefix_pattern_classifies (en_data : list (string * json Leaf))
    (source_files : list string) (key value : string)
    (dp : dynamic_pattern) (prefix : string) :
  let r := analyse py_str relpath read en_data source_files in
  all_keys r !! key = Some value →
  key ∉ used_keys (direct r) →
  key ∉ recovered (deep r) →
  dp ∈ dynamic_patterns (direct r) →
  dp_prefix dp = Some prefix →
  prefix ≠ "" →
  Str.startswith key prefix = true →
  (∃ before first after,
     dynamic_patterns (direct r) = before ++ first :: after ∧
     prefix_matches key first = true ∧
     (∀ dp', dp' ∈ before → prefix_matches key dp' = false) ∧
     possibly_dynamic (classes r) !! key
     = Some (DynamicEntry value (dp_pattern first) (dp_file first))) ∧
  key ∉ dom (used (classes r)) ∧
  key ∉ dom (unused (classes r)) ∧
  dynamic_patterns (direct r)
  = concat (patterns_in relpath read <$> source_files).
Proof.
  intros r Hv Hnu Hnr Hdp Hpre Hne Hstart.
  assert (Hm : prefix_matches key dp = true).
  { unfold prefix_matches. rewrite Hpre, Hstart.
    destruct prefix; [done|reflexivity]. }
  destruct (find_first (prefix_matches key) _ dp Hdp Hm)
    as (before & first & after & Hsplit & Hfirst & Hbefore & Hfind).
  assert (Hverdict : verdict_of (direct r) (deep r) key value
            = Dynamic (DynamicEntry value (dp_pattern first) (dp_file first))).
  { unfold verdict_of. rewrite !decide_False by done. by rewrite Hfind. }
  split_and!.
  - exists before, first, after. split_and!; try done.
    change (classes r) with (classify (all_keys r) (direct r) (deep r)).
    rewrite classify_dynamic, Hv. cbn [mbind option_bind]. by rewrite Hverdict.
  - change (classes r) with (classify (all_keys r) (direct r) (deep r)).
    rewrite elem_of_dom, classify_used, Hv. cbn [mbind option_bind].
    rewrite Hverdict. by intros [].
  - change (classes r) with (classify (all_keys r) (direct r) (deep r)).
    rewrite elem_of_dom, classify_unused, Hv. cbn [mbind option_bind].
    rewrite Hverdict. by intros [].
  - apply direct_phase_patterns.
Qed.

(** C5, as amended. In a file scanned by the deep phase, take a quoted
    string (single or double quote on either side) that is a path of at
    least two segments joined by dots, each segment a letter followed by
    letters and digits, and whose opening quote is not consumed by an
    earlier match: the non-overlapping scan tries a match at that quote.
    If the path is one of the remaining keys, it is in the recovered set
    and the relative path of the file is in its recovery evidence. *)
Theorem deep_scan_recovers_quoted_path (en_data : list (string * json Leaf))
    (source_files : list string) (filepath content : string)
    (pre : string) (q1 : ascii) (segs : list string) (q2 : ascii)
    (post : string) :
  let r := analyse py_str relpath read en_data source_files in
  let key := Str.join "." segs in
  filepath ∈ source_files →
  scanned read filepath = Some content →
  content = (pre ++ String q1 (key ++ String q2 post))%string →
  Chars.is_quote2 q1 = true →
  Chars.is_quote2 q2 = true →
  2 <= length segs →
  forallb segment_ok segs = true →
  Re.tried_at Pat.quoted_dotted pre (String q1 (key ++ String q2 post)) = true →
  key ∈ remaining_keys r →
  key ∈ recovered (deep r) ∧
  relpath filepath ∈ locations_of (recovery_locations (deep r)) key.
Proof.
  intros r key Hin Hs Hcontent Hq1 Hq2 Hlen Hsegs Htried Hrem.
  assert (Hlit : key ∈ literals_in read filepath).
  { unfold literals_in. rewrite Hs, Hcontent.
    by apply finditer_quoted_dotted_tried. }
  split.
  - apply deep_scan_recovered. split; [exact Hrem|]. by exists filepath.
  - apply deep_scan_locations. split; [exact Hrem|]. by exists filepath.
Qed.

End Scanning.

(** * Properties of [flatten_keys] *)

Section FlattenFacts.
Context {Leaf : Type}.
Variable py_str : Leaf -> string.

Lemma foldl_insert_union (l : list (string * string)) :
  forall acc : gmap string string,
    foldl (λ keys kv, <[kv.1 := kv.2]> keys) acc l =
    foldl (λ keys kv, <[kv.1 := kv.2]> keys) ∅ l ∪ acc.
Proof.
  induction l as [|kv l IH]; intros acc; simpl.
  - by rewrite (left_id_L ∅ (∪)).
  - rewrite IH, (IH (<[kv.1:=kv.2]> ∅)).
    rewrite <- (assoc_L (∪)). f_equal.
    rewrite insert_empty. by rewrite <- insert_union_singleton_l.
Qed.

Lemma last_write_wins_app (l1 l2 : list (string * string)) :
  last_write_wins (l1 ++ l2) = last_write_wins l2 ∪ last_write_wins l1.
Proof.
  unfold last_write_wins. rewrite foldl_app. apply foldl_insert_union.
Qed.

Lemma append_assoc (s t u : string) :
  ((s ++ t) ++ u = s ++ (t ++ u))%string.
Proof.
  induction s as [|a s IH]; [done|].
  change (String a ((s ++ t) ++ u) = String a (s ++ (t ++ u)))%string.
  by rewrite IH.
Qed.

Lemma join_snoc (path : list string) (k : string) :
  path ≠ [] ->
  Str.join "." (path ++ [k]) = (Str.join "." path ++ "." ++ k)%string.
Proof.
  induction path as [|s path IH]; [done|]. intros _.
  destruct path as [|s' path]; [done|].
  change (Str.join "." ((s :: s' :: path) ++ [k]))
    with (s ++ "." ++ Str.join "." ((s' :: path) ++ [k]))%string.
  rewrite IH by done.
  change (Str.join "." (s :: s' :: path))
    with (s ++ "." ++ Str.join "." (s' :: path))%string.
  by rewrite !append_assoc.
Qed.

Lemma truthy_app (s t : string) :
  Str.truthy s = true -> Str.truthy (s ++ t) = true.
Proof. by destruct s. Qed.

Lemma full_key_of_join (path : list string) (k : string) :
  (path ≠ [] -> Str.truthy (Str.join "." path) = true) ->
  full_key_of (Str.join "." path) k = Str.join "." (path ++ [k]).
Proof.
  intros H. destruct path as [|s path]; [done|].
  unfold full_key_of. rewrite H by done. by rewrite join_snoc.
Qed.

Lemma flatten_step_contribution prefix (keys : gmap string string)
    (kv : string * json Leaf) :
  match kv.2 with
  | JDict _ => flatten_keys py_str kv.2 (full_key_of prefix kv.1) ∪ keys
  | JLeaf v => <[full_key_of prefix kv.1 := py_str v]> keys
  end = contribution py_str kv.2 (full_key_of prefix kv.1) ∪ keys.
Proof.
  destruct kv as [k [v|items]]; simpl; [|done].
  apply insert_union_singleton_l.
Qed.

Lemma flatten_fold prefix path (items : list (string * json Leaf)) :
  Forall (λ kv : string * json Leaf,
            contribution py_str kv.2 (full_key_of prefix kv.1) =
            last_write_wins (leaf_paths py_str (path ++ [kv.1]) kv.2)) items ->
  forall acc : gmap string string,
    foldl (λ (keys : gmap string string) (kv : string * json Leaf),
             let full_key := full_key_of prefix kv.1 in
             match kv.2 with
             | JDict _ => flatten_keys py_str kv.2 full_key ∪ keys
             | JLeaf v => <[full_key := py_str v]> keys
             end) acc items =
    last_write_wins
      (concat (map (λ kv : string * json Leaf,
                      leaf_paths py_str (path ++ [kv.1]) kv.2) items)) ∪ acc.
Proof.
  induction 1 as [|kv items Hkv _ IH]; intros acc; simpl.
  - change (last_write_wins []) with (∅ : gmap string string).
    by rewrite (left_id_L ∅ (∪)).
  - rewrite IH. cbv zeta. rewrite flatten_step_contribution, Hkv.
    rewrite last_write_wins_app. by rewrite (assoc_L (∪)).
Qed.

Lemma contribution_by_paths (obj : json Leaf) :
  forall path, path ≠ [] -> Str.truthy (Str.join "." path) = true ->
    contribution py_str obj (Str.join "." path) =
    last_write_wins (leaf_paths py_str path obj).
Proof.
  induction obj as [v|items IH] using json_induction; intros path Hne Ht.
  - simpl. unfold last_write_wins. simpl. by rewrite insert_empty.
  - cbn [contribution flatten_keys leaf_paths].
    rewrite (flatten_fold (Str.join "." path) path).
    + by rewrite (right_id_L ∅ (∪)).
    + eapply Forall_impl; [exact IH|]. intros [k v] Hv. simpl in *.
      rewrite full_key_of_join by done. apply Hv.
      * by destruct path.
      * rewrite join_snoc by done. by apply truthy_app.
Qed.

(** When no key at the top of the document is empty, [flatten_keys] maps
    every leaf to its path joined by dots and to [str] of its value, a
    later leaf replacing an earlier one with the same flattened key. *)
Lemma flatten_keys_by_paths (en_data : list (string * json Leaf)) :
  Forall (λ kv : string * json Leaf, kv.1 ≠ "") en_data ->
  flatten_keys py_str (JDict en_data) "" = flatten_by_paths py_str (JDict en_data).
Proof.
  intros Htop. unfold flatten_by_paths. cbn [flatten_keys leaf_paths].
  rewrite (flatten_fold "" []).
  - by rewrite (right_id_L ∅ (∪)).
  - eapply Forall_impl; [exact Htop|]. intros [k v] Hk. simpl in *.
    change (full_key_of "" k) with (Str.join "." [k]).
    apply contribution_by_paths; [done|]. by destruct k.
Qed.

(** C3 (the claim holds for documents without an empty key on top, see
    [flatten_keys_by_paths]; here the code departs from it).  For the
    document [{"": {"x": v}}] the path of the leaf is the empty segment
    followed by [x], which joined by dots is [.x]; [flatten_keys] files
    the leaf under [x], because the prefix of the inner call is the empty
    string and an empty prefix is read as no prefix. *)
Theorem flatten_keys_loses_empty_parent (v : Leaf) :
  let en_data := [("", JDict [("x", JLeaf v)])] in
  flatten_keys py_str (JDict en_data) "" = {["x" := py_str v]} ∧
  flatten_by_paths py_str (JDict en_data) = {[".x" := py_str v]} ∧
  leaf_paths py_str [] (JDict en_data) = [(Str.join "." [""; "x"], py_str v)] ∧
  flatten_keys py_str (JDict en_data) "" !! ".x" = None ∧
  flatten_keys py_str (JDict en_data) "" ≠ flatten_by_paths py_str (JDict en_data).
Proof.
  intros en_data.
  assert (H1 : flatten_keys py_str (JDict en_data) "" = {["x" := py_str v]}).
  { unfold en_data. simpl. rewrite (right_id_L ∅ (∪)). by rewrite insert_empty. }
  assert (H2 : flatten_by_paths py_str (JDict en_data) = {[".x" := py_str v]}).
  { unfold en_data, flatten_by_paths, last_write_wins. simpl.
    by rewrite insert_empty. }
  assert (H3 : flatten_keys py_str (JDict en_data) "" !! ".x" = None).
  { rewrite H1. by apply lookup_singleton_ne. }
  assert (H4 : flatten_keys py_str (JDict en_data) ""
               ≠ flatten_by_paths py_str (JDict en_data)).
  { intros E. rewrite E, H2, lookup_singleton_eq in H3. discriminate. }
  by split_and!.
Qed.

End FlattenFacts.

(** * The properties at concrete inputs *)

Module Checks.
Import Example Cases.

Ltac evaluate :=
  vm_compute;
  lazymatch goal with
  | |- _ = _ => reflexivity
  | |- _ -> False => let H := fresh in intros H; discriminate H
  | |- _ => repeat constructor
  end.

(** A key that is both the argument of a call and a bare quoted string. *)
Lemma direct_reference_takes_precedence_witness :
  let r := analyse id rel hello_disk hello_doc hello_files in
  "a.b" ∈ dom (all_keys r) ∧
  "a.b" ∈ used_keys (direct r) ∧
  "a.b" ∈ literals_in hello_disk "/r/src/a.ts" ∧
  ("a.b" ∈ dom (used (classes r)) ∧
   "a.b" ∉ dom (possibly_dynamic (classes r)) ∧
   "a.b" ∉ dom (unused (classes r)) ∧
   "a.b" ∉ remaining_keys r ∧
   recovered (deep r) ⊆ remaining_keys r ∧
   "a.b" ∉ recovered (deep r)).
Proof.
  intros r.
  assert (H1 : "a.b" ∈ dom (all_keys r)) by evaluate.
  assert (H2 : "a.b" ∈ used_keys (direct r)) by evaluate.
  split; [exact H1|]. split; [exact H2|]. split; [evaluate|].
  exact (direct_reference_takes_precedence id rel hello_disk hello_doc hello_files
           "a.b" H1 H2).
Defined.

(** C4, as it is stated, fails.  The template [.${x}] is recorded with the
    prefix left when the dots are trimmed from its literal part, the empty
    string; the key [a] is defined, is neither used nor recovered and
    starts with that prefix, and it is classified UNUSED. *)
Lemma empty_prefix_matches_no_key :
  let r := analyse id rel lone_dot_disk lone_dot_doc ["/r/src/x.ts"] in
  (all_keys r !! "a" = Some "v" ∧
   "a" ∉ used_keys (direct r) ∧
   "a" ∉ recovered (deep r) ∧
   DynamicPattern ".${x}" (Some (Str.rstrip_dots ".")) "src/x.ts"
     ∈ dynamic_patterns (direct r) ∧
   Str.startswith "a" (Str.rstrip_dots ".") = true) ∧
  "a" ∉ dom (possibly_dynamic (classes r)) ∧
  unused (classes r) !! "a" = Some (UnusedEntry "v").
Proof.
  intros r. split_and!; evaluate.
Qed.

(** The key [a.c] and the template [a.${v}], whose prefix is [a]. *)
Lemma prefix_pattern_classifies_witness :
  let r := analyse id rel world_disk world_doc ["/r/src/a.ts"] in
  let dp := DynamicPattern "a.${v}" (Some "a") "src/a.ts" in
  all_keys r !! "a.c" = Some "World" ∧
  "a.c" ∉ used_keys (direct r) ∧
  "a.c" ∉ recovered (deep r) ∧
  dp ∈ dynamic_patterns (direct r) ∧
  dp_prefix dp = Some "a" ∧
  "a" ≠ "" ∧
  Str.startswith "a.c" "a" = true ∧
  (∃ before first after,
     dynamic_patterns (direct r) = before ++ first :: after ∧
     prefix_matches "a.c" first = true ∧
     (∀ dp', dp' ∈ before → prefix_matches "a.c" dp' = false) ∧
     possibly_dynamic (classes r) !! "a.c"
     = Some (DynamicEntry "World" (dp_pattern first) (dp_file first))) ∧
  possibly_dynamic (classes r) !! "a.c"
  = Some (DynamicEntry "World" "a.${v}" "src/a.ts").
Proof.
  intros r dp.
  assert (H1 : all_keys r !! "a.c" = Some "World") by evaluate.
  assert (H2 : "a.c" ∉ used_keys (direct r)) by evaluate.
  assert (H3 : "a.c" ∉ recovered (deep r)) by evaluate.
  assert (H4 : dp ∈ dynamic_patterns (direct r)) by evaluate.
  assert (H5 : dp_prefix dp = Some "a") by evaluate.
  assert (H6 : "a" ≠ "") by discriminate.
  assert (H7 : Str.startswith "a.c" "a" = true) by evaluate.
  split; [exact H1|]. split; [exact H2|]. split; [exact H3|]. split; [exact H4|].
  split; [exact H5|]. split; [exact H6|]. split; [exact H7|]. split.
  - exact (proj1 (prefix_pattern_classifies id rel world_disk world_doc
                    ["/r/src/a.ts"] "a.c" "World" dp "a" H1 H2 H3 H4 H5 H6 H7)).
  - evaluate.
Defined.

(** C5, as it is stated, fails in two ways.  In the first file the quoted
    string [errors.404] is a path of two segments of letters and digits and
    a remaining key, and it is not recovered: the pattern wants a letter at
    the head of every segment.  In the second file the quoted string [c.d]
    is a remaining key and is not recovered: its opening quote closes the
    match of [a.b] before it, and the matches of one scan do not overlap. *)
Lemma deep_scan_misses_quoted_paths :
  (let r := analyse id rel digits_disk digits_doc ["/r/src/e.ts"] in
   (scanned digits_disk "/r/src/e.ts"
    = Some ("const k = " ++
            String Chars.squote
              (Str.join "." ["errors"; "404"] ++ String Chars.squote ";"))%string ∧
    forallb alnum_segment ["errors"; "404"] = true ∧
    Str.join "." ["errors"; "404"] ∈ remaining_keys r) ∧
   Str.join "." ["errors"; "404"] ∉ recovered (deep r) ∧
   unused (classes r) !! "errors.404" = Some (UnusedEntry "Not found")) ∧
  (let r := analyse id rel shared_disk shared_doc ["/r/src/s.ts"] in
   (scanned shared_disk "/r/src/s.ts"
    = Some ("'a.b" ++
            String Chars.squote
              (Str.join "." ["c"; "d"] ++ String Chars.squote ""))%string ∧
    forallb alnum_segment ["c"; "d"] = true ∧
    forallb segment_ok ["c"; "d"] = true ∧
    Re.tried_at Pat.quoted_dotted "'a.b"
      (String Chars.squote (Str.join "." ["c"; "d"] ++ String Chars.squote ""))
    = false ∧
    Str.join "." ["c"; "d"] ∈ remaining_keys r) ∧
   Str.join "." ["c"; "d"] ∉ recovered (deep r) ∧
   unused (classes r) !! "c.d" = Some (UnusedEntry "v")).
Proof.
  split; intros r; split_and!; evaluate.
Qed.

(** The bare string ['x.y'] right after the word [return]. *)
Lemma deep_scan_recovers_quoted_path_witness :
  let r := analyse id rel glued_disk bare_doc ["/r/src/g.ts"] in
  let content := "return'x.y'" in
  "/r/src/g.ts" ∈ ["/r/src/g.ts"] ∧
  scanned glued_disk "/r/src/g.ts" = Some content ∧
  content = ("return" ++
             String Chars.squote (Str.join "." ["x"; "y"] ++
                                  String Chars.squote ""))%string ∧
  Chars.is_quote2 Chars.squote = true ∧
  2 <= length ["x"; "y"] ∧
  forallb segment_ok ["x"; "y"] = true ∧
  Re.tried_at Pat.quoted_dotted "return"
    (String Chars.squote (Str.join "." ["x"; "y"] ++ String Chars.squote ""))
  = true ∧
  Str.join "." ["x"; "y"] ∈ remaining_keys r ∧
  ("x.y" ∈ recovered (deep r) ∧
   rel "/r/src/g.ts" ∈ locations_of (recovery_locations (deep r)) "x.y").
Proof.
  intros r content.
  assert (H1 : "/r/src/g.ts" ∈ ["/r/src/g.ts"]) by repeat constructor.
  assert (H2 : scanned glued_disk "/r/src/g.ts" = Some content) by evaluate.
  assert (H3 : content = ("return" ++
             String Chars.squote (Str.join "." ["x"; "y"] ++
                                  String Chars.squote ""))%string) by evaluate.
  assert (H4 : Chars.is_quote2 Chars.squote = true) by evaluate.
  assert (H5 : 2 <= length ["x"; "y"]) by (simpl; lia).
  assert (H6 : forallb segment_ok ["x"; "y"] = true) by evaluate.
  assert (H7 : Re.tried_at Pat.quoted_dotted "return"
                 (String Chars.squote
                    (Str.join "." ["x"; "y"] ++ String Chars.squote ""))
               = true) by evaluate.
  assert (H8 : Str.join "." ["x"; "y"] ∈ remaining_keys r) by evaluate.
  split; [exact H1|]. split; [exact H2|]. split; [exact H3|]. split; [exact H4|].
  split; [exact H5|]. split; [exact H6|]. split; [exact H7|]. split; [exact H8|].
  exact (deep_scan_recovers_quoted_path id rel glued_disk bare_doc
           ["/r/src/g.ts"] "/r/src/g.ts" content "return" Chars.squote
           ["x"; "y"] Chars.squote "" H1 H2 H3 H4 H4 H5 H6 H7 H8).
Defined.

(** A key referenced from a file under [__tests__] only. *)
Lemma test_only_marks_used_keys_witness :
  let r := analyse id rel test_disk test_doc ["/r/src/__tests__/c.ts"] in
  "test.only" ∈ dom (used (classes r)) ∧
  ("test.only" ∈ test_only r ↔
     ∀ loc, loc ∈ locations_of (key_usage_locations (direct r)) "test.only" →
            is_test_file loc = true) ∧
  "test.only" ∈ test_only r.
Proof.
  intros r.
  assert (H1 : "test.only" ∈ dom (used (classes r))) by evaluate.
  split; [exact H1|]. split.
  - exact (proj1 (test_only_marks_used_keys id rel test_disk test_doc
                    ["/r/src/__tests__/c.ts"] "test.only" H1)).
  - evaluate.
Defined.

(** One key in two files, scanned in both orders. *)
Lemma evidence_is_order_free_union_witness :
  (∀ f, f ∈ hello_files → has_source_extension f = true) ∧
  (rel "/r/src/a.ts" ∈ locations_of
     (key_usage_locations (direct_phase rel hello_disk hello_files)) "a.b" ∧
   rel "/r/src/b.tsx" ∈ locations_of
     (key_usage_locations (direct_phase rel hello_disk hello_files)) "a.b") ∧
  key_usage_locations (direct_phase rel hello_disk (reverse hello_files))
  = key_usage_locations (direct_phase rel hello_disk hello_files).
Proof.
  assert (H : ∀ f, f ∈ hello_files → has_source_extension f = true).
  { intros f Hf. unfold hello_files in Hf.
    apply elem_of_cons in Hf as [->|Hf]; [reflexivity|].
    apply elem_of_cons in Hf as [->|Hf]; [reflexivity|].
    by apply elem_of_nil in Hf. }
  destruct (evidence_is_order_free_union rel hello_disk hello_files H)
    as (_ & _ & Hboth & Hperm).
  split; [exact H|]. split.
  - apply (Hboth "a.b" "/r/src/a.ts" "/r/src/b.tsx"
             "t('a.b'); const k = 'a.b';" "<Trans i18nKey='a.b' />");
      evaluate.
  - apply Hperm. symmetry. apply reverse_Permutation.
Defined.

(** An unreferenced key, then a file that calls [t] on it. *)
Lemma direct_reference_is_monotone_witness :
  "orphan.key" ∈ dom (unused (classes (analyse id rel orphan_disk orphan_doc
                                         ["/r/src/b.ts"]))) ∧
  has_source_extension "/r/src/a.ts" = true ∧
  orphan_disk "/r/src/a.ts" = Some "t('orphan.key')" ∧
  "orphan.key" ∈ extract_t_calls "t('orphan.key')" ∧
  "orphan.key" ∈ dom (used (classes (analyse id rel orphan_disk orphan_doc
                                       (["/r/src/b.ts"] ++ ["/r/src/a.ts"])))).
Proof.
  assert (H1 : "orphan.key" ∈ dom (unused (classes
                 (analyse id rel orphan_disk orphan_doc ["/r/src/b.ts"]))))
    by evaluate.
  assert (H2 : has_source_extension "/r/src/a.ts" = true) by evaluate.
  assert (H3 : orphan_disk "/r/src/a.ts" = Some "t('orphan.key')") by evaluate.
  assert (H4 : "orphan.key" ∈ extract_t_calls "t('orphan.key')") by evaluate.
  split; [exact H1|]. split; [exact H2|]. split; [exact H3|]. split; [exact H4|].
  exact (proj1 (direct_reference_is_monotone id rel orphan_disk orphan_doc
                  ["/r/src/b.ts"] "orphan.key" "/r/src/a.ts" "t('orphan.key')"
                  H1 H2 H3 H4)).
Defined.

(** A path that is not on the disk, between two files that are. *)
Lemma unreadable_file_is_skipped_witness :
  hello_disk "/r/missing.ts" = None ∧
  main id rel hello_disk hello_doc
    (["/r/src/a.ts"] ++ "/r/missing.ts" :: ["/r/src/b.tsx"])
  = main id rel hello_disk hello_doc (["/r/src/a.ts"] ++ ["/r/src/b.tsx"]).
Proof.
  assert (H : hello_disk "/r/missing.ts" = None) by evaluate.
  split; [exact H|].
  exact (proj1 (unreadable_file_is_skipped id rel hello_disk hello_doc
                  ["/r/src/a.ts"] "/r/missing.ts" ["/r/src/b.tsx"] H)).
Defined.

(** The report of the five scenarios. *)
Lemma scenarios_report :
  total_defined Scenarios.result = 5 ∧
  r_used Scenarios.result
  = {[ "a.b" := UsedEntry "Hello" ["src/__tests__/c.ts"; "src/a.ts"];
       "test.only" := UsedEntry "T" ["src/__tests__/c.ts"] ]} ∧
  r_possibly_dynamic Scenarios.result
  = {[ "a.c" := DynamicEntry "World" "a.${v}" "src/a.ts";
       "x.y" := DynamicEntry "Z" "string literal reference in source"
                  "src/b.ts" ]} ∧
  r_unused Scenarios.result = {[ "orphan.key" := UnusedEntry "never used" ]} ∧
  test_only_keys Scenarios.result = ["test.only"] ∧
  r_dynamic_patterns Scenarios.result
  = [ DynamicPattern "a.${v}" (Some "a") "src/a.ts";
      DynamicPattern "variable: foo" None "src/a.ts" ].
Proof.
  split_and!; evaluate.
Qed.

End Checks.

(** * Further properties: what puts a key in each dictionary *)

Lemma find_none_iff {A} (P : A -> bool) (l : list A) :
  find P l = None ↔ ∀ x, x ∈ l → P x = false.
Proof.
  induction l as [|a l IH]; simpl.
  - split; [|done]. intros _ x Hx. by apply elem_of_nil in Hx.
  - destruct (P a) eqn:Ha.
    + split; [done|]. intros H. rewrite (H a) in Ha; [done|by left].
    + rewrite IH. split.
      * intros H x Hx. apply elem_of_cons in Hx as [->|Hx]; auto.
      * intros H x Hx. apply H. by right.
Qed.

Lemma find_some_matches {A} (P : A -> bool) (l : list A) (x : A) :
  find P l = Some x -> x ∈ l ∧ P x = true.
Proof.
  intros H. apply find_some in H as [H1 H2]. split; [|done].
  by apply list_elem_of_In.
Qed.

Lemma sorted_nil_iff (X : gset string) : Str.sorted X = [] ↔ X = ∅.
Proof.
  split.
  - intros H. apply set_eq. intros x. rewrite <- elem_of_sorted, H.
    split; [by intros ?%elem_of_nil|set_solver].
  - intros ->. reflexivity.
Qed.

Section Buckets.
Context {Leaf : Type}.
Variable py_str : Leaf -> string.
Variable relpath : string -> string.
Variable read : string -> option string.

Lemma used_keys_detected (source_files : list string) (key : string) :
  key ∈ used_keys (direct_phase relpath read source_files) ↔
  ∃ f content, f ∈ source_files ∧ scanned read f = Some content ∧
               key ∈ extract_t_calls content.
Proof. rewrite direct_phase_used_keys. apply elem_of_keys_in_union. Qed.

Lemma recovered_iff (en_data : list (string * json Leaf))
    (source_files : list string) (key : string) :
  let r := analyse py_str relpath read en_data source_files in
  key ∈ recovered (deep r) ↔
  key ∈ dom (all_keys r) ∧ key ∉ used_keys (direct r) ∧
  ∃ f, f ∈ source_files ∧ key ∈ literals_in read f.
Proof.
  intros r.
  change (deep r) with
    (deep_scan_string_literals relpath read source_files
       (dom (all_keys r) ∖ used_keys (direct r))).
  rewrite deep_scan_recovered. set_solver.
Qed.

Lemma dom_used_iff (en_data : list (string * json Leaf))
    (source_files : list string) (key : string) :
  let r := analyse py_str relpath read en_data source_files in
  key ∈ dom (used (classes r)) ↔
  key ∈ dom (all_keys r) ∧ key ∈ used_keys (direct r).
Proof.
  intros r. change (classes r) with (classify (all_keys r) (direct r) (deep r)).
  rewrite elem_of_dom, classify_used, (elem_of_dom (all_keys r)).
  destruct (all_keys r !! key) as [v|]; cbn [mbind option_bind].
  - unfold verdict_of. case_decide; cbn [as_used].
    + split; eauto.
    + split; [|tauto]. case_decide; [by intros []|].
      destruct (find _ _); by intros [].
  - split; [by intros []|]. by intros [[] _].
Qed.

Lemma dom_dynamic_iff (en_data : list (string * json Leaf))
    (source_files : list string) (key : string) :
  let r := analyse py_str relpath read en_data source_files in
  key ∈ dom (possibly_dynamic (classes r)) ↔
  key ∈ dom (all_keys r) ∧ key ∉ used_keys (direct r) ∧
  ((∃ f, f ∈ source_files ∧ key ∈ literals_in read f) ∨
   (∃ dp, dp ∈ dynamic_patterns (direct r) ∧ prefix_matches key dp = true)).
Proof.
  intros r. pose proof (recovered_iff en_data source_files key) as Hrec.
  cbv zeta in Hrec. fold r in Hrec.
  change (classes r) with (classify (all_keys r) (direct r) (deep r)).
  rewrite elem_of_dom, classify_dynamic. rewrite (elem_of_dom (all_keys r)).
  destruct (all_keys r !! key) as [v|] eqn:Hv; cbn [mbind option_bind].
  - unfold verdict_of. destruct (decide (key ∈ used_keys (direct r))) as [Hu|Hu].
    + cbn [as_dynamic]. split; [by intros []|]. by intros (_ & ? & _).
    + destruct (decide (key ∈ recovered (deep r))) as [Hr|Hr].
      * cbn [as_dynamic]. split; [|eauto]. intros _.
        split; [eauto|]. split; [done|]. left. by apply Hrec.
      * destruct (find (prefix_matches key) (dynamic_patterns (direct r)))
          as [dp|] eqn:Hfind; cbn [as_dynamic].
        -- split; [|eauto]. intros _. split; [eauto|]. split; [done|].
           right. exists dp. by apply find_some_matches.
        -- split; [by intros []|]. intros (_ & _ & [Hlit|(dp & Hdp & Hm)]).
           ++ exfalso. apply Hr, Hrec. split; [|done].
              apply elem_of_dom. eauto.
           ++ rewrite find_none_iff in Hfind. rewrite (Hfind dp Hdp) in Hm.
              discriminate.
  - split; [by intros []|]. by intros ([] & _).
Qed.

Lemma dom_unused_iff (en_data : list (string * json Leaf))
    (source_files : list string) (key : string) :
  let r := analyse py_str relpath read en_data source_files in
  key ∈ dom (unused (classes r)) ↔
  key ∈ dom (all_keys r) ∧ key ∉ used_keys (direct r) ∧
  (∀ f, f ∈ source_files → key ∉ literals_in read f) ∧
  (∀ dp, dp ∈ dynamic_patterns (direct r) → prefix_matches key dp = false).
Proof.
  intros r. pose proof (recovered_iff en_data source_files key) as Hrec.
  cbv zeta in Hrec. fold r in Hrec.
  change (classes r) with (classify (all_keys r) (direct r) (deep r)).
  rewrite elem_of_dom, classify_unused. rewrite (elem_of_dom (all_keys r)).
  destruct (all_keys r !! key) as [v|] eqn:Hv; cbn [mbind option_bind].
  - unfold verdict_of. destruct (decide (key ∈ used_keys (direct r))) as [Hu|Hu].
    + cbn [as_unused]. split; [by intros []|]. by intros (_ & ? & _).
    + destruct (decide (key ∈ recovered (deep r))) as [Hr|Hr].
      * cbn [as_unused]. split; [by intros []|]. intros (_ & _ & Hno & _).
        apply Hrec in Hr as (_ & _ & f & Hf & Hk). by destruct (Hno f).
      * destruct (find (prefix_matches key) (dynamic_patterns (direct r)))
          as [dp|] eqn:Hfind; cbn [as_unused].
        -- split; [by intros []|]. intros (_ & _ & _ & Hno).
           apply find_some_matches in Hfind as [Hin Hm].
           rewrite (Hno dp Hin) in Hm. discriminate.
        -- split; [|eauto]. intros _. split; [eauto|]. split_and!; [done| |].
           ++ intros f Hf Hk. apply Hr, Hrec. split; [|eauto].
              apply elem_of_dom. eauto.
           ++ by apply find_none_iff.
  - split; [by intros []|]. by intros ([] & _).
Qed.

(** X1. A key is in the [used] dictionary exactly when it is a key of the
    flattened document and [extract_t_calls] finds it in the text of some
    file that the first loop scans.  Its entry then carries the value of
    the key, and a list of locations that is not empty and holds exactly
    the relative paths of the scanned files in which the key is found. *)
Theorem used_iff_detected (en_data : list (string * json Leaf))
    (source_files : list string) (key : string) :
  let r := analyse py_str relpath read en_data source_files in
  (key ∈ dom (used (classes r)) ↔
     key ∈ dom (all_keys r) ∧
     ∃ f content, f ∈ source_files ∧ scanned read f = Some content ∧
                  key ∈ extract_t_calls content) ∧
  (∀ e, used (classes r) !! key = Some e →
     all_keys r !! key = Some (u_value e) ∧
     u_locations e ≠ [] ∧
     ∀ loc, loc ∈ u_locations e ↔
            ∃ f content, f ∈ source_files ∧ scanned read f = Some content ∧
                         key ∈ extract_t_calls content ∧ loc = relpath f).
Proof.
  intros r.
  assert (Hlook : ∀ e, used (classes r) !! key = Some e →
            ∃ v, all_keys r !! key = Some v ∧ key ∈ used_keys (direct r) ∧
                 e = UsedEntry v
                       (Str.sorted (locations_of (key_usage_locations (direct r)) key))).
  { intros e He.
    change (used (classify (all_keys r) (direct r) (deep r)) !! key = Some e) in He.
    rewrite classify_used in He.
    destruct (all_keys r !! key) as [v|]; cbn [mbind option_bind] in He; [|done].
    unfold verdict_of in He.
    case_decide; [|case_decide; [done|by destruct (find _ _)]].
    cbn [as_used] in He. injection He as <-. by exists v. }
  split.
  - pose proof (dom_used_iff en_data source_files key) as Hdom.
    cbv zeta in Hdom. fold r in Hdom. rewrite Hdom.
    change (direct r) with (direct_phase relpath read source_files).
    by rewrite used_keys_detected.
  - intros e He. destruct (Hlook e He) as (v & Hv & Hu & ->). cbn [u_value u_locations].
    assert (Hloc : ∀ loc,
       loc ∈ Str.sorted (locations_of (key_usage_locations (direct r)) key) ↔
       ∃ f content, f ∈ source_files ∧ scanned read f = Some content ∧
                    key ∈ extract_t_calls content ∧ loc = relpath f).
    { intros loc. rewrite elem_of_sorted.
      change (direct r) with (direct_phase relpath read source_files).
      rewrite direct_phase_evidence. apply elem_of_file_evidence_union. }
    split_and!; [done| |exact Hloc].
    intros Hnil. apply used_keys_detected in Hu as (f & content & Hf & Hs & Hk).
    assert (Hin : relpath f ∈ Str.sorted
              (locations_of (key_usage_locations (direct r)) key)).
    { apply Hloc. by exists f, content. }
    rewrite Hnil in Hin. by apply elem_of_nil in Hin.
Qed.

(** X2. A key is in the [possibly_dynamic] dictionary exactly when it is
    defined, no scanned file holds a direct reference to it, and either
    some scanned file holds it as a quoted dotted string or some recorded
    pattern has a non-empty prefix the key starts with.  The evidence of
    the entry is the string-literal one whenever the deep scan recovered
    the key, also when a pattern prefix matches it; otherwise it is the
    text and the file of a recorded pattern that matches. *)
Theorem possibly_dynamic_iff (en_data : list (string * json Leaf))
    (source_files : list string) (key : string) :
  let r := analyse py_str relpath read en_data source_files in
  (key ∈ dom (possibly_dynamic (classes r)) ↔
     key ∈ dom (all_keys r) ∧
     key ∉ used_keys (direct r) ∧
     ((∃ f, f ∈ source_files ∧ key ∈ literals_in read f) ∨
      (∃ dp, dp ∈ dynamic_patterns (direct r) ∧ prefix_matches key dp = true))) ∧
  (∀ e, possibly_dynamic (classes r) !! key = Some e →
     all_keys r !! key = Some (d_value e) ∧
     (key ∈ recovered (deep r) →
        d_matched_pattern e = "string literal reference in source" ∧
        d_pattern_file e
        = Str.join ", "
            (Str.sorted (locations_of (recovery_locations (deep r)) key))) ∧
     (key ∉ recovered (deep r) →
        ∃ dp, dp ∈ dynamic_patterns (direct r) ∧ prefix_matches key dp = true ∧
              d_matched_pattern e = dp_pattern dp ∧
              d_pattern_file e = dp_file dp)).
Proof.
  intros r. split.
  - apply (dom_dynamic_iff en_data source_files key).
  - intros e He.
    change (possibly_dynamic (classify (all_keys r) (direct r) (deep r)) !! key
            = Some e) in He.
    rewrite classify_dynamic in He.
    destruct (all_keys r !! key) as [v|]; cbn [mbind option_bind] in He; [|done].
    unfold verdict_of in He.
    destruct (decide (key ∈ used_keys (direct r))); [done|].
    destruct (decide (key ∈ recovered (deep r))) as [Hr|Hr].
    + cbn [as_dynamic] in He. injection He as <-. by split_and!.
    + destruct (find (prefix_matches key) (dynamic_patterns (direct r)))
        as [dp|] eqn:Hfind; cbn [as_dynamic] in He; [|done].
      injection He as <-. apply find_some_matches in Hfind as [Hin Hm].
      split_and!; [done|done|]. intros _. by exists dp.
Qed.

(** X3. A key is in the [unused] dictionary exactly when it is defined, no
    scanned file holds a direct reference to it, no scanned file holds it
    as a quoted dotted string, and no recorded pattern has a non-empty
    prefix the key starts with; its entry carries the value of the key. *)
Theorem unused_iff_no_evidence (en_data : list (string * json Leaf))
    (source_files : list string) (key : string) :
  let r := analyse py_str relpath read en_data source_files in
  (key ∈ dom (unused (classes r)) ↔
     key ∈ dom (all_keys r) ∧
     (∀ f content, f ∈ source_files → scanned read f = Some content →
                   key ∉ extract_t_calls content) ∧
     (∀ f, f ∈ source_files → key ∉ literals_in read f) ∧
     (∀ dp, dp ∈ dynamic_patterns (direct r) → prefix_matches key dp = false)) ∧
  (∀ e, unused (classes r) !! key = Some e →
        all_keys r !! key = Some (n_value e)).
Proof.
  intros r.
  assert (Hused : key ∈ used_keys (direct r) ↔
            ∃ f content, f ∈ source_files ∧ scanned read f = Some content ∧
                         key ∈ extract_t_calls content).
  { apply used_keys_detected. }
  split.
  - pose proof (dom_unused_iff en_data source_files key) as Hdom.
    cbv zeta in Hdom. fold r in Hdom. rewrite Hdom, Hused.
    split.
    + intros (Hd & Hno & Hl & Hp). split_and!; try done.
      intros f content Hf Hs Hk. apply Hno. by exists f, content.
    + intros (Hd & Hno & Hl & Hp). split_and!; try done.
      intros (f & content & Hf & Hs & Hk). by apply (Hno f content).
  - intros e He.
    change (unused (classify (all_keys r) (direct r) (deep r)) !! key = Some e) in He.
    rewrite classify_unused in He.
    destruct (all_keys r !! key) as [v|]; cbn [mbind option_bind] in He; [|done].
    unfold verdict_of in He.
    destruct (decide (key ∈ used_keys (direct r))); [done|].
    destruct (decide (key ∈ recovered (deep r))); [done|].
    destruct (find _ _); [done|]. cbn [as_unused] in He. by injection He as <-.
Qed.

End Buckets.

(** * Further properties: the books the two scans keep *)

Section ScanBooks.
Variable relpath : string -> string.
Variable read : string -> option string.

Lemma recover_dom D rel_path st key :
  dom (recovery_locations st) = recovered st ->
  dom (recovery_locations (recover D rel_path st key))
  = recovered (recover D rel_path st key).
Proof.
  intros H. unfold recover. case_decide; [|done]. simpl.
  unfold add_location. rewrite dom_insert_L, H. set_solver.
Qed.

Lemma foldl_recover_dom D rel_path l : forall st,
  dom (recovery_locations st) = recovered st ->
  dom (recovery_locations (foldl (recover D rel_path) st l))
  = recovered (foldl (recover D rel_path) st l).
Proof.
  induction l as [|key l IH]; intros st H; simpl; [done|].
  apply IH. by apply recover_dom.
Qed.

Lemma deep_step_dom D st filepath :
  dom (recovery_locations st) = recovered st ->
  dom (recovery_locations (deep_step relpath read D st filepath))
  = recovered (deep_step relpath read D st filepath).
Proof.
  intros H. unfold deep_step. destruct (read filepath); [|done].
  destruct (is_locale_json filepath); [done|]. by apply foldl_recover_dom.
Qed.

Lemma deep_scan_dom files D :
  dom (recovery_locations (deep_scan_string_literals relpath read files D))
  = recovered (deep_scan_string_literals relpath read files D).
Proof.
  unfold deep_scan_string_literals.
  assert (H : forall st, dom (recovery_locations st) = recovered st ->
            dom (recovery_locations (foldl (deep_step relpath read D) st files))
            = recovered (foldl (deep_step relpath read D) st files)).
  { induction files as [|f files IH]; intros st Hst; simpl; [done|].
    apply IH. by apply deep_step_dom. }
  apply H. simpl. by rewrite dom_empty_L.
Qed.

Lemma deep_scan_perm files files' D :
  files ≡ₚ files' ->
  deep_scan_string_literals relpath read files' D
  = deep_scan_string_literals relpath read files D.
Proof.
  intros HP.
  assert (Hrec : recovered (deep_scan_string_literals relpath read files' D)
                 = recovered (deep_scan_string_literals relpath read files D)).
  { apply set_eq. intros k. rewrite !deep_scan_recovered.
    split; intros (? & f & Hf & ?); (split; [done|]); exists f; split; try done.
    - by rewrite HP.
    - by rewrite <- HP. }
  assert (Hloc : recovery_locations (deep_scan_string_literals relpath read files' D)
                 = recovery_locations (deep_scan_string_literals relpath read files D)).
  { apply map_eq. intros k.
    pose proof (deep_scan_dom files D) as H1.
    pose proof (deep_scan_dom files' D) as H2.
    destruct (recovery_locations _ !! k) as [X'|] eqn:E';
      destruct (recovery_locations (deep_scan_string_literals relpath read files D) !! k)
        as [X|] eqn:E; try done.
    - f_equal. apply set_eq. intros p.
      pose proof (deep_scan_locations relpath read files' D k p) as L'.
      pose proof (deep_scan_locations relpath read files D k p) as L.
      unfold locations_of in L, L'. rewrite E in L. rewrite E' in L'. simpl in *.
      rewrite L, L'.
      split; intros (? & f & Hf & ?); (split; [done|]); exists f; split; try done.
      + by rewrite HP.
      + by rewrite <- HP.
    - exfalso. apply (not_elem_of_dom_2 _ _ E). rewrite H1, <- Hrec, <- H2.
      apply elem_of_dom. eauto.
    - exfalso. apply (not_elem_of_dom_2 _ _ E'). rewrite H2, Hrec, <- H1.
      apply elem_of_dom. eauto. }
  destruct (deep_scan_string_literals relpath read files' D) as [r1 l1].
  destruct (deep_scan_string_literals relpath read files D) as [r2 l2].
  simpl in *. by subst.
Qed.

(** X4. The deep scan keeps its two results in step: the keys of
    [recovery_locations] are the recovered keys, every recovered key is
    one of the keys it was given, and the evidence of a recovered key is
    not empty and holds exactly the relative paths of the scanned files in
    which the key stands as a quoted dotted string. *)
Theorem deep_scan_books (source_files : list string)
    (defined_keys_set : gset string) :
  let deep := deep_scan_string_literals relpath read source_files
                defined_keys_set in
  dom (recovery_locations deep) = recovered deep ∧
  recovered deep ⊆ defined_keys_set ∧
  (∀ key, key ∈ recovered deep →
     locations_of (recovery_locations deep) key ≠ ∅ ∧
     ∀ loc, loc ∈ locations_of (recovery_locations deep) key ↔
            ∃ f, f ∈ source_files ∧ key ∈ literals_in read f ∧ loc = relpath f) ∧
  (∀ key, key ∉ recovered deep →
     locations_of (recovery_locations deep) key = ∅).
Proof.
  intros deep. split_and!.
  - apply deep_scan_dom.
  - intros k Hk. by apply deep_scan_recovered in Hk as [? _].
  - intros key Hk.
    assert (Hloc : ∀ loc, loc ∈ locations_of (recovery_locations deep) key ↔
              ∃ f, f ∈ source_files ∧ key ∈ literals_in read f ∧ loc = relpath f).
    { intros loc. unfold deep. rewrite deep_scan_locations.
      apply deep_scan_recovered in Hk as [HD _]. naive_solver. }
    split; [|exact Hloc].
    apply deep_scan_recovered in Hk as (_ & f & Hf & Hlit).
    intros Hempty. assert (Hin : relpath f ∈ locations_of (recovery_locations deep) key).
    { apply Hloc. by exists f. }
    rewrite Hempty in Hin. set_solver.
  - intros key Hk. unfold locations_of.
    rewrite (proj1 (not_elem_of_dom _ _)); [done|].
    unfold deep. by rewrite deep_scan_dom.
Qed.

(** X5. The direct scan keeps its two results in step: the keys of
    [key_usage_locations] are the keys of [used_keys], and the evidence of
    every such key is not empty. *)
Theorem direct_scan_books (source_files : list string) :
  let direct := direct_phase relpath read source_files in
  dom (key_usage_locations direct) = used_keys direct ∧
  (∀ key, key ∈ used_keys direct →
          locations_of (key_usage_locations direct) key ≠ ∅) ∧
  (∀ key, key ∉ used_keys direct →
          locations_of (key_usage_locations direct) key = ∅).
Proof.
  intros direct.
  assert (Hdom : dom (key_usage_locations direct) = used_keys direct).
  { apply set_eq. intros k. unfold direct.
    rewrite elem_of_dom, direct_phase_locations, direct_phase_used_keys.
    case_decide; [|split; [by intros []|done]]. split; eauto. }
  split_and!; [exact Hdom| |].
  - intros key Hk Hempty. unfold direct in *.
    rewrite direct_phase_used_keys in Hk.
    apply elem_of_keys_in_union in Hk as (f & content & Hf & Hs & Hkey).
    assert (Hin : relpath f ∈ locations_of
              (key_usage_locations (direct_phase relpath read source_files)) key).
    { rewrite direct_phase_evidence. apply elem_of_file_evidence_union.
      by exists f, content. }
    rewrite Hempty in Hin. set_solver.
  - intros key Hk. unfold locations_of.
    rewrite (proj1 (not_elem_of_dom _ _)); [done|]. by rewrite Hdom.
Qed.

End ScanBooks.

(** * Further properties: the order of the files *)

Lemma find_is_none_same {A} (P : A -> bool) (l l' : list A) :
  (∀ x, x ∈ l ↔ x ∈ l') -> find P l = None -> find P l' = None.
Proof.
  rewrite !find_none_iff. intros H Hl x Hx. apply Hl. by apply H.
Qed.

Section FileOrder.
Context {Leaf : Type}.
Variable py_str : Leaf -> string.
Variable relpath : string -> string.
Variable read : string -> option string.

Lemma direct_phase_perm (files files' : list string) :
  files ≡ₚ files' ->
  used_keys (direct_phase relpath read files')
  = used_keys (direct_phase relpath read files) ∧
  key_usage_locations (direct_phase relpath read files')
  = key_usage_locations (direct_phase relpath read files) ∧
  dynamic_patterns (direct_phase relpath read files')
  ≡ₚ dynamic_patterns (direct_phase relpath read files).
Proof.
  intros HP. split_and!.
  - rewrite !direct_phase_used_keys. symmetry. by apply keys_in_union_perm.
  - apply map_eq. intros k. rewrite !direct_phase_locations.
    rewrite (keys_in_union_perm read _ _ HP).
    by rewrite (file_evidence_union_perm relpath read k _ _ HP).
  - rewrite !direct_phase_patterns. by rewrite HP.
Qed.

Lemma verdict_same_bucket (d d' : direct_scan) (dp : deep_scan) k v :
  used_keys d' = used_keys d ->
  key_usage_locations d' = key_usage_locations d ->
  dynamic_patterns d' ≡ₚ dynamic_patterns d ->
  as_used (verdict_of d' dp k v) = as_used (verdict_of d dp k v) ∧
  as_unused (verdict_of d' dp k v) = as_unused (verdict_of d dp k v) ∧
  (is_Some (as_dynamic (verdict_of d' dp k v)) ↔
   is_Some (as_dynamic (verdict_of d dp k v))).
Proof.
  intros Hu Hl Hp. unfold verdict_of. rewrite Hu, Hl.
  destruct (decide (k ∈ used_keys d)); [by split_and!|].
  destruct (decide (k ∈ recovered dp)); [by split_and!|].
  assert (Hmem : ∀ x, x ∈ dynamic_patterns d' ↔ x ∈ dynamic_patterns d).
  { intros x. by rewrite Hp. }
  destruct (find (prefix_matches k) (dynamic_patterns d)) as [p|] eqn:E;
    destruct (find (prefix_matches k) (dynamic_patterns d')) as [p'|] eqn:E';
    cbn [as_used as_unused as_dynamic].
  - split_and!; try done; split; eauto.
  - apply (find_is_none_same _ _ (dynamic_patterns d)) in E'.
    + congruence.
    + intros x. by rewrite Hmem.
  - apply (find_is_none_same _ _ (dynamic_patterns d')) in E.
    + congruence.
    + intros x. by rewrite Hmem.
  - split_and!; try done; split; by intros [].
Qed.

(** X6. Scanning the same files in another order changes neither the
    [used] dictionary, nor the [unused] dictionary, nor the set of keys of
    [possibly_dynamic], nor the test-only keys, nor the result of the deep
    scan, nor any count of the report; the list of dynamic patterns of the
    report is a permutation of the former one. *)
Theorem classification_is_order_free (en_data : list (string * json Leaf))
    (source_files permuted : list string) :
  source_files ≡ₚ permuted →
  let r := analyse py_str relpath read en_data source_files in
  let r' := analyse py_str relpath read en_data permuted in
  let rep := main py_str relpath read en_data source_files in
  let rep' := main py_str relpath read en_data permuted in
  deep r' = deep r ∧
  r_used rep' = r_used rep ∧
  r_unused rep' = r_unused rep ∧
  dom (r_possibly_dynamic rep') = dom (r_possibly_dynamic rep) ∧
  test_only_keys rep' = test_only_keys rep ∧
  (total_defined rep' = total_defined rep ∧
   used_count rep' = used_count rep ∧
   possibly_dynamic_count rep' = possibly_dynamic_count rep ∧
   unused_count rep' = unused_count rep ∧
   test_only_count rep' = test_only_count rep) ∧
  r_dynamic_patterns rep' ≡ₚ r_dynamic_patterns rep.
Proof.
  intros HP r r' rep rep'.
  destruct (direct_phase_perm _ _ HP) as (Hu & Hl & Hp).
  assert (Hdeep : deep r' = deep r).
  { unfold r, r'. cbn [deep analyse]. rewrite Hu. by apply deep_scan_perm. }
  assert (Hkeys : all_keys r' = all_keys r) by reflexivity.
  assert (Hused : used (classes r') = used (classes r)).
  { apply map_eq. intros k.
    change (classes r') with (classify (all_keys r') (direct r') (deep r')).
    change (classes r) with (classify (all_keys r) (direct r) (deep r)).
    rewrite !classify_used, Hkeys, Hdeep.
    destruct (all_keys r !! k) as [v|]; [|done]. cbn [mbind option_bind].
    by apply verdict_same_bucket. }
  assert (Hunused : unused (classes r') = unused (classes r)).
  { apply map_eq. intros k.
    change (classes r') with (classify (all_keys r') (direct r') (deep r')).
    change (classes r) with (classify (all_keys r) (direct r) (deep r)).
    rewrite !classify_unused, Hkeys, Hdeep.
    destruct (all_keys r !! k) as [v|]; [|done]. cbn [mbind option_bind].
    by apply verdict_same_bucket. }
  assert (Hdyn : dom (possibly_dynamic (classes r'))
                 = dom (possibly_dynamic (classes r))).
  { apply set_eq. intros k. rewrite !elem_of_dom.
    change (classes r') with (classify (all_keys r') (direct r') (deep r')).
    change (classes r) with (classify (all_keys r) (direct r) (deep r)).
    rewrite !classify_dynamic, Hkeys, Hdeep.
    destruct (all_keys r !! k) as [v|]; [|done]. cbn [mbind option_bind].
    by apply verdict_same_bucket. }
  assert (Htest : test_only r' = test_only r).
  { apply set_eq. intros k.
    change (test_only r') with (test_only_of (direct r') (used (classes r'))).
    change (test_only r) with (test_only_of (direct r) (used (classes r))).
    rewrite !elem_of_test_only_of, Hused.
    change (direct r') with (direct_phase relpath read permuted).
    change (direct r) with (direct_phase relpath read source_files).
    by rewrite Hl. }
  split_and!; try done.
  - change (Str.sorted (test_only r') = Str.sorted (test_only r)).
    by rewrite Htest.
  - change (size (used (classes r')) = size (used (classes r))).
    by rewrite Hused.
  - change (size (possibly_dynamic (classes r'))
            = size (possibly_dynamic (classes r))).
    rewrite <- !(size_dom (D := gset string)). by rewrite Hdyn.
  - change (size (unused (classes r')) = size (unused (classes r))).
    by rewrite Hunused.
  - change (size (test_only r') = size (test_only r)). by rewrite Htest.
Qed.

End FileOrder.

(** * Further properties: the lists of the report *)

Lemma string_leb_total : Total (λ a b : string, Is_true (String.leb a b)).
Proof.
  intros a b. destruct (String.leb_total a b) as [H|H]; rewrite H; [by left|by right].
Qed.

Lemma sorted_is_sorted (X : gset string) :
  Sorted (λ a b, Is_true (String.leb a b)) (Str.sorted X) ∧
  NoDup (Str.sorted X) ∧
  length (Str.sorted X) = size X.
Proof.
  unfold Str.sorted. split_and!.
  - eapply @Sorted_merge_sort. apply string_leb_total.
  - rewrite merge_sort_Permutation. apply NoDup_elements.
  - by rewrite merge_sort_Permutation.
Qed.

Section ReportLists.
Context {Leaf : Type}.
Variable py_str : Leaf -> string.
Variable relpath : string -> string.
Variable read : string -> option string.

(** X7. In the report, [test_only_keys] is sorted, has no duplicate, lists
    keys of the [used] dictionary only, and its length is
    [test_only_count], which is at most [used_count]; the locations of
    every entry of [used] are sorted and without duplicate. *)
Theorem report_lists_are_consistent (en_data : list (string * json Leaf))
    (source_files : list string) :
  let rep := main py_str relpath read en_data source_files in
  Sorted (λ a b, Is_true (String.leb a b)) (test_only_keys rep) ∧
  NoDup (test_only_keys rep) ∧
  length (test_only_keys rep) = test_only_count rep ∧
  test_only_count rep <= used_count rep ∧
  (∀ key, key ∈ test_only_keys rep → key ∈ dom (r_used rep)) ∧
  (∀ key e, r_used rep !! key = Some e →
     Sorted (λ a b, Is_true (String.leb a b)) (u_locations e) ∧
     NoDup (u_locations e)).
Proof.
  intros rep.
  set (r := analyse py_str relpath read en_data source_files).
  assert (Hsub : test_only r ⊆ dom (used (classes r))).
  { intros k Hk.
    change (test_only r) with (test_only_of (direct r) (used (classes r))) in Hk.
    by apply elem_of_test_only_of in Hk as [? _]. }
  change (test_only_keys rep) with (Str.sorted (test_only r)).
  change (test_only_count rep) with (size (test_only r)).
  change (used_count rep) with (size (used (classes r))).
  change (r_used rep) with (used (classes r)).
  destruct (sorted_is_sorted (test_only r)) as (H1 & H2 & H3).
  split_and!; try done.
  - rewrite <- (size_dom (D := gset string)). by apply subseteq_size.
  - intros key Hk. apply Hsub. by apply elem_of_sorted.
  - intros key e He.
    change (used (classify (all_keys r) (direct r) (deep r)) !! key = Some e) in He.
    rewrite classify_used in He.
    destruct (all_keys r !! key) as [v|]; cbn [mbind option_bind] in He; [|done].
    unfold verdict_of in He.
    case_decide; [|case_decide; [done|by destruct (find _ _)]].
    cbn [as_used] in He. injection He as <-. cbn [u_locations].
    split; apply sorted_is_sorted.
Qed.

End ReportLists.

(** * Further properties of [flatten_keys] *)

Lemma prefix_iff (p s : string) :
  String.prefix p s = true ↔ ∃ t, s = (p ++ t)%string.
Proof.
  revert s. induction p as [|a p IH]; intros s.
  - split; [|by destruct s]. intros _. by exists s.
  - destruct s as [|b s]; simpl.
    + split; [done|]. by intros [t ?].
    + destruct (Ascii.ascii_dec a b) as [->|Hne].
      * rewrite IH. split; intros [t Ht]; exists t.
        -- by rewrite Ht.
        -- change (String b s = String b (p ++ t)) in Ht. by injection Ht.
      * split; [done|]. intros [t Ht].
        change (String b s = String a (p ++ t)) in Ht. injection Ht as ??. congruence.
Qed.

Lemma startswith_app (p t : string) : Str.startswith (p ++ t) p = true.
Proof. apply prefix_iff. by exists t. Qed.

Lemma startswith_trans (a b c : string) :
  Str.startswith b a = true -> Str.startswith c b = true ->
  Str.startswith c a = true.
Proof.
  unfold Str.startswith. rewrite !prefix_iff. intros [t ->] [u ->].
  exists (t ++ u)%string. apply append_assoc.
Qed.

Lemma last_write_wins_lookup (l : list (string * string)) (key : string) :
  last_write_wins l !! key = snd <$> last (filter (λ kv, kv.1 = key) l).
Proof.
  induction l as [|kv l IH] using rev_ind; [done|].
  unfold last_write_wins in *. rewrite foldl_snoc, filter_app, filter_cons, filter_nil.
  destruct (decide (kv.1 = key)) as [<-|Hne].
  - by rewrite lookup_insert_eq, last_snoc.
  - rewrite lookup_insert_ne by done. by rewrite app_nil_r.
Qed.

Lemma map_size_union_le (m1 m2 : gmap string string) :
  size (m1 ∪ m2) <= size m1 + size m2.
Proof.
  rewrite <- !(size_dom (D := gset string)), dom_union_L, size_union_alt.
  apply Nat.add_le_mono_l, subseteq_size. set_solver.
Qed.

Section FlattenMore.
Context {Leaf : Type}.
Variable py_str : Leaf -> string.

Lemma flatten_fold_dom prefix (items : list (string * json Leaf)) :
  forall (acc : gmap string string) key,
    key ∈ dom (foldl (λ (keys : gmap string string) (kv : string * json Leaf),
                        let full_key := full_key_of prefix kv.1 in
                        match kv.2 with
                        | JDict _ => flatten_keys py_str kv.2 full_key ∪ keys
                        | JLeaf v => <[full_key := py_str v]> keys
                        end) acc items) ->
    key ∈ dom acc ∨
    ∃ kv, kv ∈ items ∧
          key ∈ dom (contribution py_str kv.2 (full_key_of prefix kv.1)).
Proof.
  induction items as [|kv items IH]; intros acc key; simpl; [by left|].
  intros H. apply IH in H as [H|(kv' & Hin & H)].
  - cbv zeta in H. rewrite flatten_step_contribution, dom_union_L in H.
    apply elem_of_union in H as [H|H]; [|by left].
    right. exists kv. split; [by left|done].
  - right. exists kv'. split; [by right|done].
Qed.

Lemma contribution_keys_start (obj : json Leaf) :
  forall full_key key, Str.truthy full_key = true ->
    key ∈ dom (contribution py_str obj full_key) ->
    Str.startswith key full_key = true.
Proof.
  induction obj as [v|items IH] using json_induction; intros full_key key Ht Hk.
  - simpl in Hk. rewrite dom_singleton_L in Hk. apply elem_of_singleton in Hk as ->.
    apply prefix_iff. exists ""%string. clear. induction full_key as [|a s IHs]; [done|].
    change (String a s = String a (s ++ "")). by rewrite <- IHs.
  - cbn [contribution flatten_keys] in Hk.
    apply flatten_fold_dom in Hk as [Hk|(kv & Hin & Hk)].
    + rewrite dom_empty_L in Hk. set_solver.
    + rewrite Forall_forall in IH. specialize (IH kv Hin).
      assert (Hfull : full_key_of full_key kv.1 = (full_key ++ "." ++ kv.1)%string).
      { unfold full_key_of. by rewrite Ht. }
      apply (startswith_trans _ (full_key_of full_key kv.1)).
      * rewrite Hfull. apply startswith_app.
      * apply IH; [|done]. rewrite Hfull. by destruct full_key.
Qed.

Lemma contribution_size (obj : json Leaf) :
  forall full_key, size (contribution py_str obj full_key) <= count_leaves obj.
Proof.
  induction obj as [v|items IH] using json_induction; intros full_key.
  - simpl. by rewrite map_size_singleton.
  - cbn [contribution flatten_keys count_leaves].
    assert (H : forall acc : gmap string string,
      size (foldl (λ (keys : gmap string string) (kv : string * json Leaf),
                     let full_key0 := full_key_of full_key kv.1 in
                     match kv.2 with
                     | JDict _ => flatten_keys py_str kv.2 full_key0 ∪ keys
                     | JLeaf v => <[full_key0 := py_str v]> keys
                     end) acc items)
      <= size acc + list_sum (map (λ kv : string * json Leaf, count_leaves kv.2) items)).
    { induction IH as [|kv items Hkv _ IHitems]; intros acc; simpl; [lia|].
      etransitivity; [apply IHitems|]. cbv zeta.
      rewrite flatten_step_contribution.
      pose proof (map_size_union_le
                    (contribution py_str kv.2 (full_key_of full_key kv.1)) acc).
      specialize (Hkv (full_key_of full_key kv.1)). lia. }
    specialize (H ∅). by rewrite map_size_empty in H.
Qed.

(** X8. For a document whose top-level keys are not empty: the value
    [flatten_keys] gives to a flattened key is [str] of the last leaf, in
    iteration order, whose path joined by dots is that key, and a string
    that is the joined path of no leaf is not a key of the result. *)
Theorem flatten_lookup_is_last_leaf (en_data : list (string * json Leaf))
    (key : string) :
  Forall (λ kv : string * json Leaf, kv.1 ≠ "") en_data →
  flatten_keys py_str (JDict en_data) "" !! key
  = snd <$> last (filter (λ kv : string * string, kv.1 = key)
                         (leaf_paths py_str [] (JDict en_data))).
Proof.
  intros Htop. rewrite (flatten_keys_by_paths py_str en_data Htop).
  apply last_write_wins_lookup.
Qed.

(** X9. Every key that [flatten_keys] produces for a dictionary under a
    non-empty prefix starts with that prefix followed by a dot. *)
Theorem flatten_keys_start_with_prefix (items : list (string * json Leaf))
    (prefix key : string) :
  prefix ≠ "" →
  key ∈ dom (flatten_keys py_str (JDict items) prefix) →
  Str.startswith key (prefix ++ ".") = true.
Proof.
  intros Hne Hk.
  assert (Ht : Str.truthy prefix = true) by by destruct prefix.
  cbn [flatten_keys] in Hk. apply flatten_fold_dom in Hk as [Hk|(kv & Hin & Hk)].
  - rewrite dom_empty_L in Hk. set_solver.
  - assert (Hfull : full_key_of prefix kv.1 = ((prefix ++ ".") ++ kv.1)%string).
    { unfold full_key_of. rewrite Ht. by rewrite append_assoc. }
    apply (startswith_trans _ (full_key_of prefix kv.1)).
    + rewrite Hfull. apply startswith_app.
    + apply (contribution_keys_start kv.2); [|done]. rewrite Hfull. by destruct prefix.
Qed.

(** X10. [flatten_keys] never yields more keys than the document has
    leaves, whatever the prefix: leaves whose flattened keys coincide
    share one entry, and a dictionary without leaves adds none. *)
Theorem flatten_size_at_most_leaves (obj : json Leaf) (prefix : string) :
  size (flatten_keys py_str obj prefix) <= count_leaves obj.
Proof.
  destruct obj as [v|items].
  - simpl. rewrite map_size_empty. lia.
  - apply (contribution_size (JDict items) prefix).
Qed.

End FlattenMore.

(** * Further properties of [is_test_file] *)

Lemma contains_nil (ind : string) :
  Str.contains ind "" = String.prefix ind "" || false.
Proof. reflexivity. Qed.

Lemma contains_cons (ind : string) (a : ascii) (s : string) :
  Str.contains ind (String a s)
  = String.prefix ind (String a s) || Str.contains ind s.
Proof. reflexivity. Qed.

Lemma contains_prefix (ind s : string) :
  String.prefix ind s = true -> Str.contains ind s = true.
Proof.
  intros H. destruct s; [rewrite contains_nil|rewrite contains_cons]; by rewrite H.
Qed.

Lemma contains_iff (ind s : string) :
  Str.contains ind s = true ↔ ∃ pre post, s = (pre ++ ind ++ post)%string.
Proof.
  split.
  - induction s as [|a s IH].
    + rewrite contains_nil, orb_false_r. intros H. apply prefix_iff in H as [t Ht].
      by exists ""%string, t.
    + rewrite contains_cons. intros H. apply orb_true_iff in H as [H|H].
      * apply prefix_iff in H as [t Ht]. by exists ""%string, t.
      * destruct (IH H) as (pre & post & ->). by exists (String a pre), post.
  - intros (pre & post & ->). induction pre as [|a pre IH].
    + apply contains_prefix, prefix_iff. by exists post.
    + change (String a pre ++ ind ++ post)%string
        with (String a (pre ++ ind ++ post)).
      rewrite contains_cons, IH. apply orb_true_r.
Qed.

Lemma contains_trans (a b s : string) :
  Str.contains a b = true -> Str.contains b s = true -> Str.contains a s = true.
Proof.
  rewrite !contains_iff. intros (p1 & q1 & ->) (p2 & q2 & ->).
  exists (p2 ++ p1)%string, (q1 ++ q2)%string. by rewrite !append_assoc.
Qed.

Lemma contains_embed (ind s a b : string) :
  Str.contains ind s = true -> Str.contains ind (a ++ s ++ b) = true.
Proof.
  rewrite !contains_iff. intros (p & q & ->).
  exists (a ++ p)%string, (q ++ b)%string. by rewrite !append_assoc.
Qed.

Lemma lower_cons (a : ascii) (s : string) :
  Str.lower (String a s) = String (Chars.to_lower a) (Str.lower s).
Proof. reflexivity. Qed.

Lemma lower_app (a b : string) :
  Str.lower (a ++ b) = (Str.lower a ++ Str.lower b)%string.
Proof.
  induction a as [|c a IH]; [done|].
  change (String c a ++ b)%string with (String c (a ++ b)).
  rewrite !lower_cons, IH. reflexivity.
Qed.

Lemma is_test_file_unfold (p : string) :
  is_test_file p
  = Str.contains "test" (Str.lower p)
    || (Str.contains "__tests__" (Str.lower p)
        || (Str.contains ".test." (Str.lower p)
            || (Str.contains ".spec." (Str.lower p)
                || (Str.contains "__mocks__" (Str.lower p) || false)))).
Proof. reflexivity. Qed.

Lemma same_letter_lower (a b : ascii) :
  same_letter a b = true -> Chars.to_lower a = Chars.to_lower b.
Proof.
  assert (Hcase : forall x y : ascii,
            Chars.is_upper x = true -> Chars.code x + 32 = Chars.code y ->
            Chars.to_lower x = Chars.to_lower y).
  { intros x y Hx Hxy. unfold Chars.to_lower. rewrite Hx.
    assert (Hy : Chars.is_upper y = false).
    { unfold Chars.is_upper, Chars.between in *. rewrite <- Hxy.
      apply andb_true_iff in Hx as [H1 H2]. apply Nat.leb_le in H1, H2.
      apply andb_false_iff. right. apply Nat.leb_gt. lia. }
    rewrite Hy, Hxy. apply ascii_nat_embedding. }
  unfold same_letter. rewrite !orb_true_iff, !andb_true_iff.
  intros [[H|[Hu H]]|[Hu H]].
  - apply Ascii.eqb_eq in H. by subst.
  - apply Nat.eqb_eq in H. by apply Hcase.
  - apply Nat.eqb_eq in H. symmetry. by apply Hcase.
Qed.

Lemma same_up_to_case_lower (p : string) : forall q,
  same_up_to_case p q = true -> Str.lower p = Str.lower q.
Proof.
  induction p as [|a p IH]; intros [|b q] H; try done.
  cbn [same_up_to_case] in H. apply andb_true_iff in H as [Hab Hpq].
  by rewrite !lower_cons, (same_letter_lower _ _ Hab), (IH _ Hpq).
Qed.

(** X11. On paths of ASCII characters, where [lower()] maps the letters
    [A]-[Z] and nothing else: [is_test_file] gives the same answer on two
    paths that differ in the case of their letters only, and a path is a
    test file as soon as a part of it is, so that putting any text before
    and after a path that [is_test_file] accepts gives a path it
    accepts. *)
Theorem is_test_file_is_case_blind_and_monotone (p q before after : string) :
  ascii_text p = true →
  ascii_text q = true →
  ascii_text before = true →
  ascii_text after = true →
  same_up_to_case p q = true →
  is_test_file p = is_test_file q ∧
  (is_test_file p = true → is_test_file (before ++ p ++ after) = true).
Proof.
  intros _ _ _ _ Hcase. split.
  - by rewrite !is_test_file_unfold, (same_up_to_case_lower _ _ Hcase).
  - rewrite !is_test_file_unfold, !lower_app.
    rewrite !orb_false_r, !orb_true_iff.
    intros [H|[H|[H|[H|H]]]];
      apply (contains_embed _ _ (Str.lower before) (Str.lower after)) in H;
      tauto.
Qed.

(** X12. Three indicators decide: a path is a test file exactly when its
    lower-cased text contains [test], [.spec.] or [__mocks__]; the
    indicators [__tests__] and [.test.] contain [test] and never change
    the answer. *)
Theorem is_test_file_three_indicators (p : string) :
  is_test_file p = true ↔
  Str.contains "test" (Str.lower p) = true ∨
  Str.contains ".spec." (Str.lower p) = true ∨
  Str.contains "__mocks__" (Str.lower p) = true.
Proof.
  rewrite is_test_file_unfold, orb_false_r, !orb_true_iff. split.
  - intros [H|[H|[H|[H|H]]]]; try tauto.
    + left. by apply (contains_trans "test" "__tests__").
    + left. by apply (contains_trans "test" ".test.").
  - tauto.
Qed.

(** * Further properties of the matcher: captured text *)

Module CaptureFacts.
Import Re ReSpec ReCapture Shape.

Lemma later_assoc g1 g2 g3 : later (later g1 g2) g3 = later g1 (later g2 g3).
Proof. by destruct g3. Qed.

Lemma later_None g : later g None = g.
Proof. reflexivity. Qed.

Lemma star_loop_capture body r gr :
  capture_sound body r ->
  forall n c k x, star_loop body gr k n c = Some x ->
    exists w g c', captures (Star gr r) w g /\ after c = w ++ after c' /\
                   group1 c' = later (group1 c) g /\ k c' = Some x.
Proof.
  intros Hb n. induction n as [|n IH]; intros c k x H; simpl in H.
  - exists [], None, c. split; [constructor|]. by split_and!.
  - assert (Hstop : k c = Some x ->
        exists w g c', captures (Star gr r) w g /\ after c = w ++ after c' /\
                       group1 c' = later (group1 c) g /\ k c' = Some x).
    { intros Hk. exists [], None, c. split; [constructor|]. by split_and!. }
    assert (Hmore : body c (fun c1 =>
               if (length (after c1) <? length (after c))%nat
               then star_loop body gr k n c1 else None) = Some x ->
        exists w g c', captures (Star gr r) w g /\ after c = w ++ after c' /\
                       group1 c' = later (group1 c) g /\ k c' = Some x).
    { intros Hm. apply Hb in Hm. destruct Hm as (w1 & g1 & c1 & Hl1 & Ha1 & Hg1 & Hk1).
      destruct (length (after c1) <? length (after c))%nat; [|discriminate].
      apply IH in Hk1. destruct Hk1 as (w2 & g2 & c2 & Hl2 & Ha2 & Hg2 & Hk2).
      exists (w1 ++ w2), (later g1 g2), c2. split; [by constructor|].
      split_and!; [|by rewrite Hg2, Hg1, later_assoc|done].
      rewrite Ha1, Ha2. by rewrite app_assoc. }
    destruct gr; apply ReFacts.first_of_Some in H; destruct H; auto.
Qed.

Lemma run_capture r : capture_sound (run r) r.
Proof.
  induction r as [|p|r1 IH1 r2 IH2|r1 IH1 r2 IH2|gr r IH|r IH| |];
    intros c k x H; simpl in H.
  - exists [], None, c. split; [constructor|]. by split_and!.
  - destruct c as [b [|a s] g0]; simpl in H; [discriminate|].
    destruct (p a) eqn:Hp; [|discriminate].
    exists [a], None, (Cursor (Some a) s g0). split; [by constructor|]. by split_and!.
  - apply IH1 in H. destruct H as (w1 & g1 & c1 & Hl1 & Ha1 & Hg1 & H).
    apply IH2 in H. destruct H as (w2 & g2 & c2 & Hl2 & Ha2 & Hg2 & H).
    exists (w1 ++ w2), (later g1 g2), c2. split; [by constructor|].
    split_and!; [|by rewrite Hg2, Hg1, later_assoc|done].
    rewrite Ha1, Ha2. by rewrite app_assoc.
  - apply ReFacts.first_of_Some in H. destruct H as [H|H].
    + apply IH1 in H. destruct H as (w & g & c' & ? & ? & ? & ?).
      exists w, g, c'. split; [by apply G_alt_l|]. by split_and!.
    + apply IH2 in H. destruct H as (w & g & c' & ? & ? & ? & ?).
      exists w, g, c'. split; [by apply G_alt_r|]. by split_and!.
  - eapply star_loop_capture; eauto.
  - apply IH in H. destruct H as (w & g & c' & Hl & Ha & Hg & Hk).
    exists w, (Some w), (Cursor (before c') (after c')
                 (Some (take (length (after c) - length (after c')) (after c)))).
    split; [by econstructor|]. split_and!; [done| |done].
    cbn [group1 later]. f_equal. rewrite Ha, length_app, Nat.add_sub.
    by rewrite take_app_length.
  - destruct (at_boundary c); [|discriminate].
    exists [], None, c. split; [constructor|]. by split_and!.
  - destruct (before c); [discriminate|].
    exists [], None, c. split; [constructor|]. by split_and!.
Qed.

Lemma match_here_capture r prev s c :
  match_here r (Cursor prev s None) = Some c ->
  exists w g, captures r w g /\ s = w ++ after c /\ group1 c = g.
Proof.
  intros H. apply run_capture in H.
  destruct H as (w & g & c1 & Hl & Ha & Hg & Hk).
  injection Hk as <-. exists w, g. split_and!; [done|done|].
  rewrite Hg. by destruct g.
Qed.

Lemma captures_lang r w g : captures r w g -> lang r w.
Proof. induction 1; by econstructor. Qed.

(** Every match the scan reports starts somewhere in the text. *)
Lemma scan_sound r s : forall prev skip x,
  x ∈ scan r prev s skip ->
  exists pre rest prev' c,
    s = pre ++ rest /\ match_here r (Cursor prev' rest None) = Some c /\
    x = group_text c.
Proof.
  induction s as [|a s IH]; intros prev skip x Hx.
  - destruct skip as [|skip]; cbn [scan] in Hx; [|by apply elem_of_nil in Hx].
    destruct (match_here r (Cursor prev [] None)) as [c|] eqn:E;
      [|by apply elem_of_nil in Hx].
    apply elem_of_cons in Hx as [->|Hx]; [|by apply elem_of_nil in Hx].
    by exists [], [], prev, c.
  - assert (Hrest : forall prev0 skip0, x ∈ scan r prev0 s skip0 ->
        exists pre rest prev' c,
          a :: s = pre ++ rest /\
          match_here r (Cursor prev' rest None) = Some c /\ x = group_text c).
    { intros prev0 skip0 H. apply IH in H as (pre & rest & prev' & c & -> & Hm & ->).
      by exists (a :: pre), rest, prev', c. }
    destruct skip as [|skip]; cbn [scan] in Hx; [|by eapply Hrest].
    destruct (match_here r (Cursor prev (a :: s) None)) as [c|] eqn:E;
      [|by eapply Hrest].
    apply elem_of_cons in Hx as [->|Hx]; [|by eapply Hrest].
    by exists [], (a :: s), prev, c.
Qed.

Lemma captures_seq r1 r2 w g :
  captures (Seq r1 r2) w g ->
  exists w1 w2 g1 g2, w = w1 ++ w2 /\ g = later g1 g2 /\
                      captures r1 w1 g1 /\ captures r2 w2 g2.
Proof. inversion 1; subst. by eexists _, _, _, _. Qed.

Lemma captures_cls p w g :
  captures (Cls p) w g -> exists a, w = [a] /\ p a = true /\ g = None.
Proof. inversion 1; subst. eauto. Qed.

Lemma captures_grp r w g : captures (Grp r) w g -> g = Some w /\ lang r w.
Proof. inversion 1; subst. split; [done|]. by eapply captures_lang. Qed.

Lemma captures_eps w g : captures Eps w g -> w = [] /\ g = None.
Proof. by inversion 1. Qed.

(** A sequence that ends with a delimiter, the group and a delimiter:
    group 1 is the text between the last two delimiters consumed. *)
Lemma captures_delimited hd qa inner qb w g :
  captures (Cat (hd ++ [Cls qa; Grp inner; Cls qb])) w g ->
  exists u a x b, w = u ++ a :: x ++ [b] /\ qa a = true /\ qb b = true /\
                  g = Some x /\ lang inner x.
Proof.
  revert w g. induction hd as [|r hd IH]; intros w g H.
  - cbn [app Cat] in H.
    apply captures_seq in H as (w1 & w2 & g1 & g2 & -> & -> & H1 & H2).
    apply captures_cls in H1 as (a & -> & Ha & ->).
    apply captures_seq in H2 as (w3 & w4 & g3 & g4 & -> & -> & H3 & H4).
    apply captures_grp in H3 as [-> Hin].
    apply captures_seq in H4 as (w5 & w6 & g5 & g6 & -> & -> & H5 & H6).
    apply captures_cls in H5 as (b & -> & Hb & ->).
    apply captures_eps in H6 as [-> ->].
    exists [], a, w3, b. by split_and!.
  - cbn [app Cat] in H.
    apply captures_seq in H as (w1 & w2 & g1 & g2 & -> & -> & H1 & H2).
    apply IH in H2 as (u & a & x & b & -> & Ha & Hb & -> & Hin).
    exists (w1 ++ u), a, x, b. split_and!; try done. by rewrite <- app_assoc.
Qed.

End CaptureFacts.

(** * Further properties: what the scanners extract *)

Lemma string_of_list_ascii_app (l1 l2 : list ascii) :
  string_of_list_ascii (l1 ++ l2)
  = (string_of_list_ascii l1 ++ string_of_list_ascii l2)%string.
Proof.
  induction l1 as [|a l1 IH]; [done|].
  change (String a (string_of_list_ascii (l1 ++ l2))
          = String a (string_of_list_ascii l1 ++ string_of_list_ascii l2)).
  by rewrite IH.
Qed.

Lemma string_of_list_ascii_cons (a : ascii) (l : list ascii) :
  string_of_list_ascii (a :: l) = String a (string_of_list_ascii l).
Proof. reflexivity. Qed.

Lemma finditer_sound (r : Re.regex) (content key : string) :
  key ∈ Re.finditer r content ->
  exists pre rest prev c,
    list_ascii_of_string content = pre ++ rest /\
    Re.match_here r (Re.Cursor prev rest None) = Some c /\
    key = string_of_list_ascii (Re.group_text c).
Proof.
  unfold Re.finditer. intros H. apply list_elem_of_fmap in H as (x & -> & Hx).
  apply CaptureFacts.scan_sound in Hx as (pre & rest & prev & c & Hs & Hm & ->).
  by exists pre, rest, prev, c.
Qed.

(** A match of a pattern that ends with a delimiter, the group and a
    delimiter: the key stands in the text between two delimiters. *)
Lemma finditer_delimited hd qa inner qb (content key : string) :
  key ∈ Re.finditer (Re.Cat (hd ++ [Re.Cls qa; Re.Grp inner; Re.Cls qb])) content ->
  exists before a b after,
    content = (before ++ String a (key ++ String b after))%string /\
    qa a = true /\ qb b = true /\
    ReSpec.lang inner (list_ascii_of_string key).
Proof.
  intros H. apply finditer_sound in H as (pre & rest & prev & c & Hs & Hm & ->).
  apply CaptureFacts.match_here_capture in Hm as (w & g & Hc & -> & Hg).
  apply CaptureFacts.captures_delimited in Hc as (u & a & x & b & -> & Ha & Hb & -> & Hin).
  unfold Re.group_text. rewrite Hg. cbn [default].
  exists (string_of_list_ascii (pre ++ u)), a, b, (string_of_list_ascii (Re.after c)).
  split_and!; try done.
  - rewrite <- (string_of_list_ascii_of_string content), Hs.
    rewrite <- !app_assoc.
    rewrite (app_assoc pre u), string_of_list_ascii_app. f_equal.
    cbn [app]. rewrite string_of_list_ascii_cons. f_equal.
    rewrite <- app_assoc, string_of_list_ascii_app. f_equal.
  - by rewrite list_ascii_of_string_of_list_ascii.
Qed.

Lemma lang_plus_cls gr p w :
  ReSpec.lang (Re.Plus gr (Re.Cls p)) w -> w ≠ [] /\ Forall (λ a, p a = true) w.
Proof.
  intros H. apply ReFacts.lang_seq in H as (w1 & w2 & -> & H1 & H2).
  apply ReFacts.lang_cls in H1 as (a & -> & Ha).
  apply ReFacts.lang_star_cls in H2. split; [done|]. by constructor.
Qed.

Lemma free_of_weaken (p q : ascii -> bool) (l : list ascii) :
  (forall a, q a = true -> p a = true) ->
  Forall (λ a, negb (p a) = true) l ->
  forallb (λ a, negb (q a)) l = true.
Proof.
  intros Hpq Hl. apply forallb_forall. intros a Ha.
  rewrite Forall_forall in Hl. apply list_elem_of_In in Ha.
  specialize (Hl a Ha). destruct (q a) eqn:E; [|done].
  by rewrite (Hpq a E) in Hl.
Qed.

Lemma quote2_quote3 a : Chars.is_quote2 a = true -> Chars.is_quote3 a = true.
Proof. unfold Chars.is_quote3. by intros ->. Qed.

Lemma nonempty_string (s : string) : list_ascii_of_string s ≠ [] -> s ≠ "".
Proof. by intros H ->. Qed.

(** X13. Every key that [extract_t_calls] returns is text of the file: it
    stands in the content between two quote characters (single quote,
    double quote or backtick), it is not empty, and it contains neither a
    single nor a double quote. *)
Theorem extracted_keys_are_quoted_text (content key : string) :
  key ∈ extract_t_calls content →
  ∃ before q1 q2 after,
    content = (before ++ String q1 (key ++ String q2 after))%string ∧
    Chars.is_quote3 q1 = true ∧ Chars.is_quote3 q2 = true ∧
    key ≠ "" ∧
    free_of Chars.is_quote2 key = true.
Proof.
  unfold extract_t_calls. rewrite elem_of_list_to_set, !elem_of_app.
  intros [H|[H|H]].
  - apply (finditer_delimited Pat.call_head) in H
      as (before & a & b & after & -> & Ha & Hb & Hin).
    apply lang_plus_cls in Hin as [Hne Hall].
    exists before, a, b, after. split_and!; try done.
    + by apply nonempty_string.
    + eapply free_of_weaken; [|exact Hall]. intros c Hc.
      unfold Chars.is_quote3. by rewrite Hc.
  - apply (finditer_delimited
             [Pat.S "i18nKey"; Pat.spaces; Pat.S "="; Pat.spaces]) in H
      as (before & a & b & after & -> & Ha & Hb & Hin).
    apply lang_plus_cls in Hin as [Hne Hall].
    exists before, a, b, after. split_and!; try by apply quote2_quote3.
    + done.
    + by apply nonempty_string.
    + eapply free_of_weaken; [|exact Hall]. done.
  - apply (finditer_delimited
             [Pat.S "<FormattedMessage"; Re.Plus true (Re.Cls Chars.is_space);
              Pat.S "id"; Pat.spaces; Pat.S "="; Pat.spaces]) in H
      as (before & a & b & after & -> & Ha & Hb & Hin).
    apply lang_plus_cls in Hin as [Hne Hall].
    exists before, a, b, after. split_and!; try by apply quote2_quote3.
    + done.
    + by apply nonempty_string.
    + eapply free_of_weaken; [|exact Hall]. done.
Qed.

Module PathFacts.
Import Re ReSpec ReCapture Shape.

Lemma lang_segment_shape w : lang Pat.segment w -> is_segment w = true.
Proof.
  intros H. apply ReFacts.lang_seq in H as (w1 & w2 & -> & H1 & H2).
  apply ReFacts.lang_cls in H1 as (a & -> & Ha). apply ReFacts.lang_star_cls in H2.
  simpl. rewrite Ha. simpl. apply forallb_forall. intros x Hx.
  rewrite Forall_forall in H2. apply H2. by apply list_elem_of_In.
Qed.

Lemma lang_dot_segment_shape w :
  lang (Seq (Chr Chars.dot) Pat.segment) w ->
  exists seg, w = Chars.dot :: seg /\ is_segment seg = true.
Proof.
  intros H. apply ReFacts.lang_seq in H as (w1 & w2 & -> & H1 & H2).
  apply ReFacts.lang_cls in H1 as (a & -> & Ha). apply Ascii.eqb_eq in Ha. subst a.
  exists w2. split; [done|]. by apply lang_segment_shape.
Qed.

Lemma lang_dotted_tail_shape gr w :
  lang (Star gr (Seq (Chr Chars.dot) Pat.segment)) w ->
  exists segs, w = dotted_tail segs /\ forallb is_segment segs = true.
Proof.
  intros H.
  apply (ReFacts.lang_star _ _
           (λ w, exists segs, w = dotted_tail segs /\ forallb is_segment segs = true)
           _ H).
  - by exists [].
  - intros w1 w2 H1 (segs & -> & Hsegs).
    apply lang_dot_segment_shape in H1 as (seg & -> & Hseg).
    exists (seg :: segs). split.
    + unfold dotted_tail. simpl. done.
    + simpl. by rewrite Hseg, Hsegs.
Qed.

Lemma lang_dotted_path_shape w :
  lang Pat.dotted_path w ->
  exists segs, w = join_dots segs /\ 2 <= length segs /\
               forallb is_segment segs = true.
Proof.
  intros H. apply ReFacts.lang_seq in H as (w1 & w2 & -> & H1 & H2).
  apply lang_segment_shape in H1.
  apply ReFacts.lang_seq in H2 as (w3 & w4 & -> & H3 & H4).
  apply lang_dot_segment_shape in H3 as (s2 & -> & Hs2).
  apply lang_dotted_tail_shape in H4 as (segs & -> & Hsegs).
  exists (w1 :: s2 :: segs). split_and!.
  - unfold join_dots, dotted_tail. simpl. done.
  - simpl. lia.
  - simpl. by rewrite H1, Hs2, Hsegs.
Qed.

Lemma captures_quoted_dotted w g :
  captures Pat.quoted_dotted w g ->
  exists a x b, w = a :: x ++ [b] /\ Chars.is_quote2 a = true /\
                Chars.is_quote2 b = true /\ g = Some x /\ lang Pat.dotted_path x.
Proof.
  intros H. unfold Pat.quoted_dotted in H.
  apply CaptureFacts.captures_seq in H as (w1 & w2 & g1 & g2 & -> & -> & H1 & H2).
  apply CaptureFacts.captures_cls in H1 as (a & -> & Ha & ->).
  apply CaptureFacts.captures_seq in H2 as (w3 & w4 & g3 & g4 & -> & -> & H3 & H4).
  apply CaptureFacts.captures_grp in H3 as [-> Hin].
  apply CaptureFacts.captures_cls in H4 as (b & -> & Hb & ->).
  exists a, w3, b. by split_and!.
Qed.

End PathFacts.

Lemma join_of_segments (segs : list (list ascii)) :
  string_of_list_ascii (Shape.join_dots segs)
  = Str.join "." (string_of_list_ascii <$> segs).
Proof.
  rewrite <- (string_of_list_ascii_of_string
                (Str.join "." (string_of_list_ascii <$> segs))).
  f_equal. rewrite ReFacts.list_ascii_of_join. f_equal.
  rewrite <- list_fmap_compose. symmetry.
  rewrite <- (list_fmap_id segs) at 2. apply list_fmap_ext.
  intros i x _. simpl. apply list_ascii_of_string_of_list_ascii.
Qed.

Lemma finditer_quoted_dotted_sound (content key : string) :
  key ∈ Re.finditer Pat.quoted_dotted content ->
  exists before q1 segs q2 after,
    content = (before ++ String q1 (key ++ String q2 after))%string /\
    Chars.is_quote2 q1 = true /\ Chars.is_quote2 q2 = true /\
    key = Str.join "." segs /\ 2 <= length segs /\
    forallb segment_ok segs = true.
Proof.
  intros H. apply finditer_sound in H as (pre & rest & prev & c & Hs & Hm & ->).
  apply CaptureFacts.match_here_capture in Hm as (w & g & Hc & -> & Hg).
  apply PathFacts.captures_quoted_dotted in Hc as (a & x & b & -> & Ha & Hb & -> & Hin).
  apply PathFacts.lang_dotted_path_shape in Hin as (segs & -> & Hlen & Hsegs).
  unfold Re.group_text. rewrite Hg. cbn [default].
  exists (string_of_list_ascii pre), a, (string_of_list_ascii <$> segs), b,
         (string_of_list_ascii (Re.after c)).
  split_and!; try done.
  - rewrite <- (string_of_list_ascii_of_string content), Hs.
    rewrite string_of_list_ascii_app. f_equal.
    cbn [app]. rewrite string_of_list_ascii_cons. f_equal.
    rewrite <- app_assoc, string_of_list_ascii_app. f_equal.
  - apply join_of_segments.
  - by rewrite length_fmap.
  - apply forallb_forall. intros s Hs'. apply in_map_iff in Hs' as (seg & <- & Hseg).
    unfold segment_ok. rewrite list_ascii_of_string_of_list_ascii.
    rewrite forallb_forall in Hsegs. by apply Hsegs.
Qed.

(** The quotes the scan does not try are closing quotes: when the scan
    does not try a match at a quote, the text before the quote ends with a
    quote and a dotted path, which an earlier match took with this quote
    as its end. *)
Lemma untried_quote_ends_a_match (pre : string) (q1 : ascii) (rest : string) :
  Chars.is_quote2 q1 = true ->
  Re.tried_at Pat.quoted_dotted pre (String q1 rest) = false ->
  exists pre0 q0 segs,
    pre = (pre0 ++ String q0 (Str.join "." segs))%string /\
    Chars.is_quote2 q0 = true /\ 2 <= length segs /\
    forallb segment_ok segs = true.
Proof.
  intros Hq1 Ht. unfold Re.tried_at in Ht. cbn [list_ascii_of_string] in Ht.
  apply ReFacts.untried_quote_closes_match in Ht as (pre0 & q0 & u & Hpre & Hq0 & Hu);
    [|done].
  apply PathFacts.lang_dotted_path_shape in Hu as (segs & -> & Hlen & Hsegs).
  exists (string_of_list_ascii pre0), q0, (string_of_list_ascii <$> segs).
  split_and!.
  - rewrite <- (string_of_list_ascii_of_string pre), Hpre.
    rewrite string_of_list_ascii_app, string_of_list_ascii_cons.
    by rewrite join_of_segments.
  - done.
  - by rewrite length_fmap.
  - apply forallb_forall. intros s Hs'. apply in_map_iff in Hs' as (seg & <- & Hseg).
    unfold segment_ok. rewrite list_ascii_of_string_of_list_ascii.
    rewrite forallb_forall in Hsegs. by apply Hsegs.
Qed.

Section DeepSound.
Variable relpath : string -> string.
Variable read : string -> option string.

(** X14. The deep scan recovers nothing else than quoted dotted paths of
    the files: every recovered key is one of the keys given to the scan
    and stands in the text of some scanned file between two quotes
    (single or double), as a path of at least two segments joined by dots,
    each segment a letter followed by letters and digits. *)
Theorem recovered_keys_are_quoted_paths (source_files : list string)
    (defined_keys_set : gset string) (key : string) :
  key ∈ recovered (deep_scan_string_literals relpath read source_files
                     defined_keys_set) →
  key ∈ defined_keys_set ∧
  ∃ f content before q1 segs q2 after,
    f ∈ source_files ∧ scanned read f = Some content ∧
    content = (before ++ String q1 (key ++ String q2 after))%string ∧
    Chars.is_quote2 q1 = true ∧ Chars.is_quote2 q2 = true ∧
    key = Str.join "." segs ∧ 2 <= length segs ∧
    forallb segment_ok segs = true.
Proof.
  intros H. apply deep_scan_recovered in H as (HD & f & Hf & Hlit).
  split; [done|]. unfold literals_in in Hlit.
  destruct (scanned read f) as [content|] eqn:Hs; [|by apply elem_of_nil in Hlit].
  apply finditer_quoted_dotted_sound in Hlit
    as (before & q1 & segs & q2 & after & ? & ? & ? & ? & ? & ?).
  by exists f, content, before, q1, segs, q2, after.
Qed.

End DeepSound.

(** * Further properties of [extract_dynamic_patterns] *)

Lemma drop_dots_split (l : list ascii) :
  exists ds, l = ds ++ Str.drop_dots l /\
             forallb (Chars.is_char Chars.dot) ds = true /\
             (forall a, head (Str.drop_dots l) = Some a ->
                        Chars.is_char Chars.dot a = false).
Proof.
  induction l as [|a l IH].
  - exists []. by split_and!.
  - cbn [Str.drop_dots]. destruct (Chars.is_char Chars.dot a) eqn:E.
    + destruct IH as (ds & Hl & Hds & Hhd). exists (a :: ds). split_and!.
      * cbn [app]. by rewrite <- Hl.
      * cbn [forallb]. by rewrite E, Hds.
      * done.
    + exists []. split_and!; [done|done|]. by intros ? [= <-].
Qed.

Lemma last_rev_head (l : list ascii) : last (rev l) = head l.
Proof. destruct l as [|a l]; [done|]. simpl. by rewrite last_snoc. Qed.

Lemma rstrip_dots_spec (s : string) :
  exists dots,
    s = (Str.rstrip_dots s ++ dots)%string /\
    all_dots dots = true /\
    ends_with_dot (Str.rstrip_dots s) = false.
Proof.
  unfold Str.rstrip_dots.
  destruct (drop_dots_split (rev (list_ascii_of_string s))) as (ds & Hl & Hds & Hhd).
  exists (string_of_list_ascii (rev ds)). split_and!.
  - rewrite <- string_of_list_ascii_app, <- rev_app_distr, <- Hl, rev_involutive.
    by rewrite string_of_list_ascii_of_string.
  - unfold all_dots. rewrite list_ascii_of_string_of_list_ascii.
    apply forallb_forall. intros a Ha. apply in_rev in Ha.
    rewrite forallb_forall in Hds. by apply Hds.
  - unfold ends_with_dot. rewrite list_ascii_of_string_of_list_ascii, last_rev_head.
    destruct (head (Str.drop_dots (rev (list_ascii_of_string s)))) as [a|] eqn:E;
      [|done].
    by apply Hhd.
Qed.

Lemma re_match_template_prefix (template x : string) :
  Re.re_match Pat.template_prefix template = Some x ->
  exists rest,
    template = (x ++ "${" ++ rest)%string /\ x ≠ "" /\
    free_of (Chars.is_char Chars.dollar) x = true.
Proof.
  unfold Re.re_match. intros H.
  destruct (Re.match_here Pat.template_prefix _) as [c|] eqn:Hm; [|done].
  cbn [mbind option_bind] in H. injection H as <-.
  apply CaptureFacts.match_here_capture in Hm as (w & g & Hc & Hs & Hg).
  unfold Pat.template_prefix in Hc. cbn [Re.Cat] in Hc.
  apply CaptureFacts.captures_seq in Hc as (w0 & w1 & g0 & g1 & -> & -> & H0 & H1).
  inversion H0; subst.
  apply CaptureFacts.captures_seq in H1 as (w2 & w3 & g2 & g3 & -> & -> & H2 & H3).
  apply CaptureFacts.captures_grp in H2 as [-> Hin].
  apply CaptureFacts.captures_seq in H3 as (w4 & w5 & g4 & g5 & -> & -> & H4 & H5).
  apply CaptureFacts.captures_cls in H4 as (a & -> & Ha & ->).
  apply CaptureFacts.captures_seq in H5 as (w6 & w7 & g6 & g7 & -> & -> & H6 & H7).
  apply CaptureFacts.captures_cls in H6 as (b & -> & Hb & ->).
  apply CaptureFacts.captures_eps in H7 as [-> ->].
  apply Ascii.eqb_eq in Ha, Hb. subst a b.
  apply lang_plus_cls in Hin as [Hne Hall].
  unfold Re.group_text. rewrite Hg. cbn [ReCapture.later default].
  exists (string_of_list_ascii (Re.after c)). split_and!.
  - rewrite <- (string_of_list_ascii_of_string template), Hs.
    cbn [app]. rewrite <- app_assoc, string_of_list_ascii_app. f_equal.
  - apply nonempty_string. by rewrite list_ascii_of_string_of_list_ascii.
  - unfold free_of. rewrite list_ascii_of_string_of_list_ascii.
    apply forallb_forall. intros a Ha. rewrite Forall_forall in Hall.
    apply Hall. by apply list_elem_of_In.
Qed.

Lemma free_of_app (p : ascii -> bool) (s t : string) :
  free_of p (s ++ t) = free_of p s && free_of p t.
Proof.
  unfold free_of. by rewrite ReFacts.list_ascii_of_string_app, forallb_app.
Qed.

Lemma lang_template_body w :
  ReSpec.lang
    (Re.Cat [ Re.Star true (Pat.none_of (Chars.is_char Chars.backtick));
              Re.Chr Chars.dollar; Re.Chr Chars.lbrace;
              Re.Star true (Pat.none_of (Chars.is_char Chars.backtick)) ]) w ->
  forallb (λ a, negb (Chars.is_char Chars.backtick a)) w = true.
Proof.
  intros H. cbn [Re.Cat] in H.
  apply ReFacts.lang_seq in H as (w1 & w2 & -> & H1 & H2).
  apply ReFacts.lang_star_cls in H1.
  apply ReFacts.lang_seq in H2 as (w3 & w4 & -> & H3 & H4).
  apply ReFacts.lang_cls in H3 as (a & -> & Ha).
  apply ReFacts.lang_seq in H4 as (w5 & w6 & -> & H5 & H6).
  apply ReFacts.lang_cls in H5 as (b & -> & Hb).
  apply ReFacts.lang_seq in H6 as (w7 & w8 & -> & H7 & H8).
  apply ReFacts.lang_star_cls in H7. inversion H8; subst.
  apply Ascii.eqb_eq in Ha, Hb. subst a b.
  rewrite !forallb_app. cbn [forallb].
  assert (Hf : forall l, Forall (λ a, negb (Chars.is_char Chars.backtick a) = true) l ->
                         forallb (λ a, negb (Chars.is_char Chars.backtick a)) l = true).
  { intros l Hl. apply forallb_forall. intros a Ha. rewrite Forall_forall in Hl.
    apply Hl. by apply list_elem_of_In. }
  rewrite (Hf w1 H1), (Hf w7 H7). reflexivity.
Qed.

(** X15. Every pattern that [extract_dynamic_patterns] records carries the
    file it was given.  A pattern with a prefix is the text of a template
    that stands in the content between two backticks and contains no
    backtick; the template is the prefix, then dots only, then [${] and
    the rest, where the text before [${] is not empty and has no dollar
    sign, and the prefix does not end with a dot.  A pattern without a
    prefix reads [variable: ] followed by a name that is none of [true],
    [false], [null], [undefined], [this]. *)
Theorem dynamic_patterns_have_shape (content filepath : string)
    (dp : dynamic_pattern) :
  dp ∈ extract_dynamic_patterns content filepath →
  dp_file dp = filepath ∧
  ((∃ prefix dots rest before after,
      dp_prefix dp = Some prefix ∧
      dp_pattern dp = (prefix ++ dots ++ "${" ++ rest)%string ∧
      all_dots dots = true ∧
      ends_with_dot prefix = false ∧
      (prefix ++ dots)%string ≠ "" ∧
      free_of (Chars.is_char Chars.dollar) (prefix ++ dots) = true ∧
      free_of (Chars.is_char Chars.backtick) (dp_pattern dp) = true ∧
      content = (before ++ String Chars.backtick
                   (dp_pattern dp ++ String Chars.backtick after))%string) ∨
   (∃ var_name,
      dp_prefix dp = None ∧
      dp_pattern dp = ("variable: " ++ var_name)%string ∧
      var_name ∉ NOT_VARIABLES)).
Proof.
  unfold extract_dynamic_patterns. rewrite elem_of_app, !list_elem_of_omap.
  intros [(template & Ht & He)|(var_name & Hv & He)].
  - unfold template_entry in He.
    destruct (Re.re_match Pat.template_prefix template) as [x|] eqn:Hx; [|done].
    cbn [mbind option_bind] in He. injection He as <-. cbn [dp_file dp_prefix dp_pattern].
    split; [done|]. left.
    apply re_match_template_prefix in Hx as (rest & Htemplate & Hne & Hfree).
    destruct (rstrip_dots_spec x) as (dots & Hsplit & Hdots & Hend).
    apply (finditer_delimited Pat.call_head) in Ht
      as (before & a & b & after & Hcontent & Ha & Hb & Hin).
    apply Ascii.eqb_eq in Ha, Hb. subst a b.
    apply lang_template_body in Hin.
    exists (Str.rstrip_dots x), dots, rest, before, after.
    split_and!; try done.
    + rewrite Htemplate. rewrite Hsplit at 1. by rewrite append_assoc.
    + by rewrite <- Hsplit.
    + by rewrite <- Hsplit.
  - unfold variable_entry in He. case_bool_decide as Hin; [done|].
    injection He as <-. cbn [dp_file dp_prefix dp_pattern].
    split; [done|]. right. by exists var_name.
Qed.

(** * Further properties of [find_source_files] *)

Lemma endswith_nil (suffix : string) :
  Str.endswith "" suffix = String.eqb "" suffix || false.
Proof. reflexivity. Qed.

Lemma endswith_iff (s suffix : string) :
  Str.endswith s suffix = true ↔ ∃ pre, s = (pre ++ suffix)%string.
Proof.
  split.
  - induction s as [|a s IH].
    + rewrite endswith_nil, orb_false_r. intros H. apply String.eqb_eq in H.
      by exists ""%string.
    + rewrite endswith_cons. intros H. apply orb_true_iff in H as [H|H].
      * apply String.eqb_eq in H. by exists ""%string.
      * destruct (IH H) as [pre ->]. by exists (String a pre).
  - intros [pre ->]. induction pre as [|a pre IH].
    + destruct suffix as [|b t].
      * reflexivity.
      * change ("" ++ String b t)%string with (String b t).
        rewrite endswith_cons, String.eqb_refl. reflexivity.
    + change (String a pre ++ suffix)%string with (String a (pre ++ suffix)).
      rewrite endswith_cons, IH. apply orb_true_r.
Qed.

Lemma break_spec (p : ascii -> bool) (l : list ascii) :
  l = (Path.break p l).1 ++ (Path.break p l).2 /\
  ((Path.break p l).2 = [] \/
   exists a r, (Path.break p l).2 = a :: r /\ p a = true).
Proof.
  induction l as [|a l [IH1 IH2]]; [by split; [|left]|].
  cbn [Path.break]. destruct (p a) eqn:E.
  - split; [done|]. right. by exists a, l.
  - destruct (Path.break p l) as [b r]. simpl in *. split; [by rewrite <- IH1|done].
Qed.

Lemma splitext_ext_is_suffix (f : string) :
  Path.splitext_ext f ≠ "" -> Str.endswith f (Path.splitext_ext f) = true.
Proof.
  unfold Path.splitext_ext.
  pose proof (break_spec (Chars.is_char Chars.dot) (rev (list_ascii_of_string f)))
    as [Hsplit Hrest].
  destruct (Path.break (Chars.is_char Chars.dot) (rev (list_ascii_of_string f)))
    as [ext_rev rest]. cbn [fst snd] in *.
  destruct rest as [|d stem_rev]; [done|].
  destruct Hrest as [?|(a & r & [= <- <-] & Ha)]; [done|].
  apply Ascii.eqb_eq in Ha. subst d.
  destruct (existsb (Chars.is_char Path.slash) ext_rev); [done|].
  destruct (existsb _ _); [|done]. intros _.
  apply endswith_iff. exists (string_of_list_ascii (rev stem_rev)).
  rewrite <- string_of_list_ascii_app.
  rewrite <- (string_of_list_ascii_of_string f) at 1. f_equal.
  rewrite <- (rev_involutive (list_ascii_of_string f)), Hsplit.
  rewrite rev_app_distr. simpl. by rewrite <- app_assoc.
Qed.

Lemma join_endswith (a b : string) : Str.endswith (Path.join a b) b = true.
Proof.
  apply endswith_iff. unfold Path.join.
  destruct (Str.startswith b "/"); [by exists ""%string|].
  destruct (negb (Str.truthy a) || Str.endswith a "/"); [by exists a|].
  exists (a ++ "/")%string. by rewrite append_assoc.
Qed.

Lemma endswith_trans (s t u : string) :
  Str.endswith s t = true -> Str.endswith t u = true -> Str.endswith s u = true.
Proof.
  rewrite !endswith_iff. intros [p ->] [q ->]. exists (p ++ q)%string.
  by rewrite append_assoc.
Qed.

Lemma source_file_here_extension dirpath f :
  Path.splitext_ext f ∈ SOURCE_EXTENSIONS ->
  has_source_extension (Path.join dirpath f) = true.
Proof.
  intros Hext. unfold has_source_extension. apply existsb_exists.
  exists (Path.splitext_ext f). split; [by apply list_elem_of_In|].
  apply (endswith_trans _ f); [apply join_endswith|].
  apply splitext_ext_is_suffix. intros E. rewrite E in Hext.
  unfold SOURCE_EXTENSIONS in Hext. set_solver.
Qed.

Lemma elem_of_source_files_here dirpath filenames path :
  path ∈ source_files_here dirpath filenames ↔
  ∃ f, f ∈ filenames ∧ Path.splitext_ext f ∈ SOURCE_EXTENSIONS ∧
       path = Path.join dirpath f.
Proof.
  unfold source_files_here. rewrite list_elem_of_fmap. split.
  - intros (f & -> & Hf). apply list_elem_of_filter in Hf as [? ?]. by exists f.
  - intros (f & Hf & Hext & ->). exists f. split; [done|].
    by apply list_elem_of_filter.
Qed.

Lemma elem_of_walk dirnames dirpath path :
  path ∈ concat (map (λ entry : string * dir,
                        if bool_decide (entry.1 ∈ EXCLUDE_DIRS) then []
                        else find_source_files entry.2 (Path.join dirpath entry.1))
                     dirnames) ↔
  ∃ entry, entry ∈ dirnames ∧ entry.1 ∉ EXCLUDE_DIRS ∧
           path ∈ find_source_files entry.2 (Path.join dirpath entry.1).
Proof.
  rewrite list_elem_of_In, in_concat. split.
  - intros (l & Hl & Hp). apply in_map_iff in Hl as (entry & <- & Hentry).
    case_bool_decide; [done|]. exists entry.
    split_and!; [by apply list_elem_of_In|done|by apply list_elem_of_In].
  - intros (entry & Hentry & Hex & Hp). eexists. split.
    + apply in_map_iff. exists entry. split; [reflexivity|by apply list_elem_of_In].
    + rewrite bool_decide_eq_false_2 by done. by apply list_elem_of_In.
Qed.

Lemma find_source_files_holds (tree : dir) (root path : string) :
  path ∈ find_source_files tree root →
  ∃ names f,
    holds tree root names f path ∧
    Forall (λ name, name ∉ EXCLUDE_DIRS) names ∧
    Path.splitext_ext f ∈ SOURCE_EXTENSIONS.
Proof.
  revert root.
  induction tree as [dirnames filenames IH] using dir_induction; intros root.
  cbn [find_source_files]. rewrite elem_of_app. intros [H|H].
  - apply elem_of_source_files_here in H as (f & Hf & Hext & ->).
    exists [], f. split_and!; [by constructor|constructor|done].
  - apply elem_of_walk in H as ([name sub] & Hentry & Hex & Hp).
    rewrite Forall_forall in IH.
    destruct (IH _ Hentry _ Hp) as (names & f & Hholds & Hnames & Hext).
    exists (name :: names), f. split_and!; [|by constructor|done].
    by eapply holds_below.
Qed.

Lemma holds_source_extension (tree : dir) (root path f : string)
    (names : list string) :
  holds tree root names f path →
  Path.splitext_ext f ∈ SOURCE_EXTENSIONS →
  has_source_extension path = true.
Proof.
  intros Hholds Hext.
  induction Hholds as [dirnames filenames dirpath f Hf
                      |dirnames filenames dirpath name sub names f path _ _ IH].
  - by apply source_file_here_extension.
  - by apply IH.
Qed.

(** X16. [find_source_files] returns exactly the paths of the files of the
    tree that have a source extension ([os.path.splitext] gives one of
    [.ts], [.tsx], [.js], [.jsx]) and lie under no excluded directory: no
    directory on the way from the root to the file is named in
    [EXCLUDE_DIRS]. *)
Theorem find_source_files_exact (tree : dir) (root path : string) :
  path ∈ find_source_files tree root ↔
  ∃ names f,
    holds tree root names f path ∧
    Forall (λ name, name ∉ EXCLUDE_DIRS) names ∧
    Path.splitext_ext f ∈ SOURCE_EXTENSIONS.
Proof.
  split; [apply find_source_files_holds|].
  intros (names & f & Hholds & Hnames & Hext).
  induction Hholds as [dirnames filenames dirpath f Hf
                      |dirnames filenames dirpath name sub names f path Hentry _ IH].
  - cbn [find_source_files]. apply elem_of_app. left.
    apply elem_of_source_files_here. by exists f.
  - cbn [find_source_files]. apply elem_of_app. right.
    apply elem_of_walk. exists (name, sub).
    inversion Hnames; subst. split_and!; [done|done|]. by apply IH.
Qed.

(** X17. Every path that [find_source_files] returns ends with one of the
    source extensions; so it is never a locale JSON file, and the test
    that skips such files in the two scanning loops never fires on it:
    the loops work on its text whenever it can be read. *)
Theorem found_files_are_never_skipped (tree : dir) (root path : string) :
  path ∈ find_source_files tree root →
  has_source_extension path = true ∧
  is_locale_json path = false ∧
  ∀ read : string → option string, scanned read path = read path.
Proof.
  intros H.
  assert (Hext : has_source_extension path = true).
  { apply find_source_files_holds in H as (names & f & Hholds & _ & Hext).
    by apply (holds_source_extension _ _ _ _ _ Hholds). }
  split_and!; [done| |].
  - unfold is_locale_json. by rewrite (source_extension_not_json _ Hext), andb_false_r.
  - intros read. by apply source_file_scanned.
Qed.

(** * Further properties: more files, unrelated files, the files of a tree *)

Section MoreFiles.
Context {Leaf : Type}.
Variable py_str : Leaf -> string.
Variable relpath : string -> string.
Variable read : string -> option string.

Lemma elem_of_dynamic_patterns (files : list string) (dp : dynamic_pattern) :
  dp ∈ dynamic_patterns (direct_phase relpath read files) ↔
  ∃ f, f ∈ files ∧ dp ∈ patterns_in relpath read f.
Proof.
  rewrite direct_phase_patterns, list_elem_of_In, in_concat. split.
  - intros (l & Hl & Hdp). apply list_elem_of_In, list_elem_of_fmap in Hl.
    destruct Hl as (f & -> & Hf). exists f. split; [done|].
    by apply list_elem_of_In.
  - intros (f & Hf & Hdp). exists (patterns_in relpath read f). split.
    + apply list_elem_of_In, list_elem_of_fmap. by exists f.
    + by apply list_elem_of_In.
Qed.

Lemma deep_scan_ext (files files' : list string) (D : gset string) :
  (∀ k f, k ∈ D → k ∈ literals_in read f → (f ∈ files' ↔ f ∈ files)) →
  deep_scan_string_literals relpath read files' D
  = deep_scan_string_literals relpath read files D.
Proof.
  intros Hsame.
  assert (Hrec : recovered (deep_scan_string_literals relpath read files' D)
                 = recovered (deep_scan_string_literals relpath read files D)).
  { apply set_eq. intros k. rewrite !deep_scan_recovered.
    split; intros (Hk & f & Hf & Hlit); (split; [done|]); exists f;
      (split; [|done]); by apply (Hsame k f Hk Hlit). }
  assert (Hloc : recovery_locations (deep_scan_string_literals relpath read files' D)
                 = recovery_locations (deep_scan_string_literals relpath read files D)).
  { apply map_eq. intros k.
    pose proof (deep_scan_dom relpath read files D) as H1.
    pose proof (deep_scan_dom relpath read files' D) as H2.
    destruct (recovery_locations _ !! k) as [X'|] eqn:E';
      destruct (recovery_locations (deep_scan_string_literals relpath read files D) !! k)
        as [X|] eqn:E; try done.
    - f_equal. apply set_eq. intros p.
      pose proof (deep_scan_locations relpath read files' D k p) as L'.
      pose proof (deep_scan_locations relpath read files D k p) as L.
      unfold locations_of in L, L'. rewrite E in L. rewrite E' in L'.
      cbn [default] in L, L'. rewrite L, L'.
      split; intros (Hk & f & Hf & Hlit & Hp); (split; [done|]); exists f;
        (split; [|done]); by apply (Hsame k f Hk Hlit).
    - exfalso. apply (not_elem_of_dom_2 _ _ E). rewrite H1, <- Hrec, <- H2.
      apply elem_of_dom. eauto.
    - exfalso. apply (not_elem_of_dom_2 _ _ E'). rewrite H2, Hrec, <- H1.
      apply elem_of_dom. eauto. }
  destruct (deep_scan_string_literals relpath read files' D) as [r1 l1].
  destruct (deep_scan_string_literals relpath read files D) as [r2 l2].
  simpl in *. by subst.
Qed.

(** X18. Adding files to the list never lowers the class of a key: a key
    that is USED stays USED, a key that is POSSIBLY_DYNAMIC stays so or
    becomes USED, and every key that is UNUSED over the longer list was
    UNUSED over the shorter one. *)
Theorem more_files_never_demote (en_data : list (string * json Leaf))
    (source_files more_files : list string) :
  (∀ f, f ∈ source_files → f ∈ more_files) →
  let r := analyse py_str relpath read en_data source_files in
  let r' := analyse py_str relpath read en_data more_files in
  dom (used (classes r)) ⊆ dom (used (classes r')) ∧
  dom (possibly_dynamic (classes r))
    ⊆ dom (used (classes r')) ∪ dom (possibly_dynamic (classes r')) ∧
  dom (unused (classes r')) ⊆ dom (unused (classes r)).
Proof.
  intros Hsub r r'.
  assert (Hused : ∀ k, k ∈ used_keys (direct r) → k ∈ used_keys (direct r')).
  { intros k. unfold r, r'. cbn [direct analyse].
    rewrite !used_keys_detected. intros (f & content & Hf & Hs & Hk).
    exists f, content. auto. }
  assert (Hpat : ∀ dp, dp ∈ dynamic_patterns (direct r) →
                       dp ∈ dynamic_patterns (direct r')).
  { intros dp. unfold r, r'. cbn [direct analyse].
    rewrite !elem_of_dynamic_patterns. intros (f & Hf & Hdp). exists f. auto. }
  pose proof (λ k, dom_used_iff py_str relpath read en_data source_files k) as U.
  pose proof (λ k, dom_used_iff py_str relpath read en_data more_files k) as U'.
  pose proof (λ k, dom_dynamic_iff py_str relpath read en_data source_files k) as P.
  pose proof (λ k, dom_dynamic_iff py_str relpath read en_data more_files k) as P'.
  pose proof (λ k, dom_unused_iff py_str relpath read en_data source_files k) as N.
  pose proof (λ k, dom_unused_iff py_str relpath read en_data more_files k) as N'.
  cbv zeta in U, U', P, P', N, N'. fold r in U, P, N. fold r' in U', P', N'.
  assert (Hkeys : all_keys r' = all_keys r) by reflexivity.
  split_and!.
  - intros k Hk. apply U in Hk as [Hd Hu]. apply U'. rewrite Hkeys. auto.
  - intros k Hk. apply P in Hk as (Hd & Hno & Hev). apply elem_of_union.
    destruct (decide (k ∈ used_keys (direct r'))) as [Hu|Hu].
    + left. apply U'. by rewrite Hkeys.
    + right. apply P'. rewrite Hkeys. split_and!; [done|done|].
      destruct Hev as [(f & Hf & Hlit)|(dp & Hdp & Hm)].
      * left. exists f. auto.
      * right. exists dp. auto.
  - intros k Hk. apply N' in Hk as (Hd & Hno & Hlit & Hpd). apply N.
    rewrite <- Hkeys. split_and!; [done| | |].
    + intros Hu. by apply Hno, Hused.
    + intros f Hf. by apply Hlit, Hsub.
    + intros dp Hdp. by apply Hpd, Hpat.
Qed.

(** X19. A file that mentions nothing of the key document changes nothing:
    when no key detected in it and no quoted dotted string found in it is
    a defined key, and no dynamic pattern is extracted from it, the report
    over a list that holds the file is the report over the list without
    it. *)
Theorem unrelated_file_changes_nothing (en_data : list (string * json Leaf))
    (files_before : list string) (filepath : string)
    (files_after : list string) :
  (∀ key, key ∈ keys_in read filepath →
          key ∉ dom (flatten_keys py_str (JDict en_data) "")) →
  (∀ key, key ∈ literals_in read filepath →
          key ∉ dom (flatten_keys py_str (JDict en_data) "")) →
  patterns_in relpath read filepath = [] →
  main py_str relpath read en_data (files_before ++ filepath :: files_after)
  = main py_str relpath read en_data (files_before ++ files_after).
Proof.
  intros Hkeys Hlits Hpats.
  set (r' := analyse py_str relpath read en_data
               (files_before ++ filepath :: files_after)).
  set (r := analyse py_str relpath read en_data (files_before ++ files_after)).
  change (report_of r' = report_of r).
  assert (Hall : all_keys r' = all_keys r) by reflexivity.
  assert (Hu : ∀ k, k ∈ dom (all_keys r) →
                    (k ∈ used_keys (direct r') ↔ k ∈ used_keys (direct r))).
  { intros k Hk. unfold r, r'. cbn [direct analyse].
    rewrite !direct_phase_used_keys, !fmap_app, fmap_cons, !union_list_app_L.
    rewrite union_list_cons. specialize (Hkeys k). set_solver. }
  assert (Hl : ∀ k, k ∈ dom (all_keys r) →
                    locations_of (key_usage_locations (direct r')) k
                    = locations_of (key_usage_locations (direct r)) k).
  { intros k Hk. unfold r, r'. cbn [direct analyse].
    rewrite !direct_phase_evidence, !fmap_app, fmap_cons, !union_list_app_L.
    rewrite union_list_cons. unfold file_evidence at 2.
    rewrite decide_False; [set_solver|]. intros Hin. by apply (Hkeys k). }
  assert (Hp : dynamic_patterns (direct r') = dynamic_patterns (direct r)).
  { unfold r, r'. cbn [direct analyse].
    rewrite !direct_phase_patterns, !fmap_app, fmap_cons, !concat_app.
    cbn [concat]. by rewrite Hpats. }
  assert (Hrem : remaining_keys r' = remaining_keys r).
  { apply set_eq. intros k.
    change (remaining_keys r') with (dom (all_keys r) ∖ used_keys (direct r')).
    change (remaining_keys r) with (dom (all_keys r) ∖ used_keys (direct r)).
    rewrite !elem_of_difference. split; intros [Hd Hn]; (split; [done|]);
      intros Hin; by apply Hn, (Hu k Hd). }
  assert (Hdeep : deep r' = deep r).
  { change (deep r') with
      (deep_scan_string_literals relpath read
         (files_before ++ filepath :: files_after) (remaining_keys r')).
    change (deep r) with
      (deep_scan_string_literals relpath read
         (files_before ++ files_after) (remaining_keys r)).
    rewrite Hrem. apply deep_scan_ext. intros k f Hk Hlit.
    rewrite !elem_of_app, elem_of_cons.
    assert (f ≠ filepath); [|naive_solver].
    intros ->. apply (Hlits k Hlit).
    apply elem_of_difference in Hk as [Hk _]. exact Hk. }
  assert (Hv : ∀ k v, all_keys r !! k = Some v →
                      verdict_of (direct r') (deep r') k v
                      = verdict_of (direct r) (deep r) k v).
  { intros k v Hkv.
    assert (Hd : k ∈ dom (all_keys r)) by (apply elem_of_dom; eauto).
    unfold verdict_of. rewrite Hdeep, Hp, (Hl k Hd).
    destruct (decide (k ∈ used_keys (direct r'))) as [H'|H'];
      destruct (decide (k ∈ used_keys (direct r))) as [H|H]; try done.
    - by apply (Hu k Hd) in H'.
    - by apply (Hu k Hd) in H. }
  assert (Hused : used (classes r') = used (classes r)).
  { apply map_eq. intros k.
    change (classes r') with (classify (all_keys r) (direct r') (deep r')).
    change (classes r) with (classify (all_keys r) (direct r) (deep r)).
    rewrite !classify_used.
    destruct (all_keys r !! k) as [v|] eqn:E; [|done]. cbn [mbind option_bind].
    by rewrite (Hv k v E). }
  assert (Hdyn : possibly_dynamic (classes r') = possibly_dynamic (classes r)).
  { apply map_eq. intros k.
    change (classes r') with (classify (all_keys r) (direct r') (deep r')).
    change (classes r) with (classify (all_keys r) (direct r) (deep r)).
    rewrite !classify_dynamic.
    destruct (all_keys r !! k) as [v|] eqn:E; [|done]. cbn [mbind option_bind].
    by rewrite (Hv k v E). }
  assert (Hunused : unused (classes r') = unused (classes r)).
  { apply map_eq. intros k.
    change (classes r') with (classify (all_keys r) (direct r') (deep r')).
    change (classes r) with (classify (all_keys r) (direct r) (deep r)).
    rewrite !classify_unused.
    destruct (all_keys r !! k) as [v|] eqn:E; [|done]. cbn [mbind option_bind].
    by rewrite (Hv k v E). }
  assert (Htest : test_only r' = test_only r).
  { apply set_eq. intros k.
    change (test_only r') with (test_only_of (direct r') (used (classes r'))).
    change (test_only r) with (test_only_of (direct r) (used (classes r))).
    rewrite !elem_of_test_only_of, Hused.
    split; intros [Hk Ht]; (split; [done|]).
    - rewrite <- Hl; [done|].
      by apply (dom_used_iff py_str relpath read en_data
                  (files_before ++ files_after) k).
    - rewrite Hl; [done|].
      by apply (dom_used_iff py_str relpath read en_data
                  (files_before ++ files_after) k). }
  unfold report_of. by rewrite Hall, Hused, Hdyn, Hunused, Htest, Hp.
Qed.

(** X20. The run over the files of a tree, as [main] makes it: a key is
    USED exactly when it is defined and detected in the text of a readable
    file of the tree that has a source extension and lies under no
    excluded directory.  The files under [node_modules], [.git] and the
    other excluded directories, and the files with another extension, give
    no direct reference. *)
Theorem tree_run_uses_kept_files (en_data : list (string * json Leaf))
    (tree : dir) (root key : string) :
  let r := analyse py_str relpath read en_data (find_source_files tree root) in
  key ∈ dom (used (classes r)) ↔
  key ∈ dom (all_keys r) ∧
  ∃ names f path content,
    holds tree root names f path ∧
    Forall (λ name, name ∉ EXCLUDE_DIRS) names ∧
    Path.splitext_ext f ∈ SOURCE_EXTENSIONS ∧
    read path = Some content ∧
    key ∈ extract_t_calls content.
Proof.
  intros r.
  pose proof (dom_used_iff py_str relpath read en_data
                (find_source_files tree root) key) as Hdom.
  cbv zeta in Hdom. fold r in Hdom. rewrite Hdom.
  change (direct r) with (direct_phase relpath read (find_source_files tree root)).
  rewrite used_keys_detected. split.
  - intros (Hd & path & content & Hpath & Hs & Hk). split; [done|].
    destruct (find_source_files_holds _ _ _ Hpath)
      as (names & f & Hholds & Hnames & Hext).
    exists names, f, path, content. split_and!; try done.
    rewrite <- Hs. symmetry. apply source_file_scanned.
    by apply (holds_source_extension _ _ _ _ _ Hholds).
  - intros (Hd & names & f & path & content & Hholds & Hnames & Hext & Hr & Hk).
    split; [done|]. exists path, content. split_and!; [|by rewrite <- Hr; apply source_file_scanned, (holds_source_extension _ _ _ _ _ Hholds)|done].
    clear Hr Hk Hdom.
    induction Hholds as [dirnames filenames dirpath f Hf
                        |dirnames filenames dirpath name sub names f path Hentry _ IH].
    + cbn [find_source_files]. apply elem_of_app. left.
      apply elem_of_source_files_here. by exists f.
    + cbn [find_source_files]. apply elem_of_app. right.
      apply elem_of_walk. exists (name, sub).
      inversion Hnames; subst. split_and!; [done|done|]. by apply IH.
Qed.

End MoreFiles.

(** * The further properties at concrete inputs *)

Module MoreChecks.
Import Example Cases Samples.

Ltac by_evaluation :=
  vm_compute;
  lazymatch goal with
  | |- _ = _ => reflexivity
  | |- _ -> False => let H := fresh in intros H; discriminate H
  | |- _ => repeat constructor
  end.

(** The two files of the [hello] example, scanned in both orders. *)
Lemma classification_is_order_free_witness :
  ["/r/src/a.ts"; "/r/src/b.tsx"] ≡ₚ ["/r/src/b.tsx"; "/r/src/a.ts"] ∧
  r_used (main id rel hello_disk hello_doc ["/r/src/b.tsx"; "/r/src/a.ts"])
  = r_used (main id rel hello_disk hello_doc ["/r/src/a.ts"; "/r/src/b.tsx"]).
Proof.
  assert (H : ["/r/src/a.ts"; "/r/src/b.tsx"] ≡ₚ ["/r/src/b.tsx"; "/r/src/a.ts"])
    by apply perm_swap.
  split; [exact H|].
  exact (proj1 (proj2 (classification_is_order_free id rel hello_disk hello_doc
                         _ _ H))).
Defined.

(** The key [a.b] of [{"a": {"b": "Hello"}}]. *)
Lemma flatten_lookup_is_last_leaf_witness :
  Forall (λ kv : string * json string, kv.1 ≠ "") hello_doc ∧
  flatten_keys id (JDict hello_doc) "" !! "a.b"
  = snd <$> last (filter (λ kv : string * string, kv.1 = "a.b")
                         (leaf_paths id [] (JDict hello_doc))).
Proof.
  assert (H : Forall (λ kv : string * json string, kv.1 ≠ "") hello_doc).
  { apply List.Forall_cons; [|apply List.Forall_nil].
    intros E. discriminate E. }
  split; [exact H|].
  exact (flatten_lookup_is_last_leaf id hello_doc "a.b" H).
Defined.

(** The dictionary [{"b": "Hello"}] flattened below the prefix [a]. *)
Lemma flatten_keys_start_with_prefix_witness :
  "a" ≠ "" ∧
  "a.b" ∈ dom (flatten_keys id (JDict [("b", JLeaf "Hello")]) "a") ∧
  Str.startswith "a.b" ("a" ++ ".") = true.
Proof.
  assert (H1 : "a" ≠ "") by (intros E; discriminate E).
  assert (H2 : "a.b" ∈ dom (flatten_keys id (JDict [("b", JLeaf "Hello")]) "a"))
    by by_evaluation.
  split; [exact H1|]. split; [exact H2|].
  exact (flatten_keys_start_with_prefix id [("b", JLeaf "Hello")] "a" "a.b" H1 H2).
Defined.

(** A path under [__Tests__] and the same path in other cases. *)
Lemma is_test_file_is_case_blind_and_monotone_witness :
  ascii_text "src/__Tests__/A.ts" = true ∧
  ascii_text "SRC/__tests__/a.TS" = true ∧
  ascii_text "/r/" = true ∧
  ascii_text ".bak" = true ∧
  same_up_to_case "src/__Tests__/A.ts" "SRC/__tests__/a.TS" = true ∧
  is_test_file "src/__Tests__/A.ts" = is_test_file "SRC/__tests__/a.TS" ∧
  (is_test_file "src/__Tests__/A.ts" = true →
   is_test_file ("/r/" ++ "src/__Tests__/A.ts" ++ ".bak") = true).
Proof.
  assert (H1 : ascii_text "src/__Tests__/A.ts" = true) by by_evaluation.
  assert (H2 : ascii_text "SRC/__tests__/a.TS" = true) by by_evaluation.
  assert (H3 : ascii_text "/r/" = true) by by_evaluation.
  assert (H4 : ascii_text ".bak" = true) by by_evaluation.
  assert (H5 : same_up_to_case "src/__Tests__/A.ts" "SRC/__tests__/a.TS" = true)
    by by_evaluation.
  split; [exact H1|]. split; [exact H2|]. split; [exact H3|]. split; [exact H4|].
  split; [exact H5|].
  exact (is_test_file_is_case_blind_and_monotone
           "src/__Tests__/A.ts" "SRC/__tests__/a.TS" "/r/" ".bak"
           H1 H2 H3 H4 H5).
Defined.

(** The call [t('a.b')]. *)
Lemma extracted_keys_are_quoted_text_witness :
  "a.b" ∈ extract_t_calls "t('a.b')" ∧
  ∃ before q1 q2 after,
    "t('a.b')" = (before ++ String q1 ("a.b" ++ String q2 after))%string ∧
    Chars.is_quote3 q1 = true ∧ Chars.is_quote3 q2 = true ∧
    "a.b" ≠ "" ∧
    free_of Chars.is_quote2 "a.b" = true.
Proof.
  assert (H : "a.b" ∈ extract_t_calls "t('a.b')") by by_evaluation.
  split; [exact H|].
  exact (extracted_keys_are_quoted_text "t('a.b')" "a.b" H).
Defined.

(** The bare string ['x.y'] of the [bare] example. *)
Lemma recovered_keys_are_quoted_paths_witness :
  "x.y" ∈ recovered (deep_scan_string_literals rel bare_disk ["/r/src/b.ts"]
                       {["x.y"]}) ∧
  ("x.y" ∈ ({["x.y"]} : gset string) ∧
   ∃ f content before q1 segs q2 after,
     f ∈ ["/r/src/b.ts"] ∧ scanned bare_disk f = Some content ∧
     content = (before ++ String q1 ("x.y" ++ String q2 after))%string ∧
     Chars.is_quote2 q1 = true ∧ Chars.is_quote2 q2 = true ∧
     "x.y" = Str.join "." segs ∧ 2 <= length segs ∧
     forallb segment_ok segs = true).
Proof.
  assert (H : "x.y" ∈ recovered (deep_scan_string_literals rel bare_disk
                                   ["/r/src/b.ts"] {["x.y"]})) by by_evaluation.
  split; [exact H|].
  exact (recovered_keys_are_quoted_paths rel bare_disk ["/r/src/b.ts"]
           {["x.y"]} "x.y" H).
Defined.

(** The template call of the [world] example. *)
Lemma dynamic_patterns_have_shape_witness :
  DynamicPattern "a.${v}" (Some "a") "src/a.ts"
    ∈ extract_dynamic_patterns "t(`a.${v}`)" "src/a.ts" ∧
  dp_file (DynamicPattern "a.${v}" (Some "a") "src/a.ts") = "src/a.ts".
Proof.
  assert (H : DynamicPattern "a.${v}" (Some "a") "src/a.ts"
                ∈ extract_dynamic_patterns "t(`a.${v}`)" "src/a.ts")
    by by_evaluation.
  split; [exact H|].
  exact (proj1 (dynamic_patterns_have_shape "t(`a.${v}`)" "src/a.ts" _ H)).
Defined.

(** A file of the sample tree. *)
Lemma found_files_are_never_skipped_witness :
  "/r/src/__tests__/c.ts" ∈ find_source_files tree "/r" ∧
  has_source_extension "/r/src/__tests__/c.ts" = true.
Proof.
  assert (H : "/r/src/__tests__/c.ts" ∈ find_source_files tree "/r")
    by by_evaluation.
  split; [exact H|].
  exact (proj1 (found_files_are_never_skipped tree "/r" _ H)).
Defined.

(** The [orphan] example: one file, then that file and a second one. *)
Lemma more_files_never_demote_witness :
  (∀ f, f ∈ ["/r/src/b.ts"] → f ∈ ["/r/src/b.ts"] ++ ["/r/src/a.ts"]) ∧
  dom (unused (classes (analyse id rel orphan_disk orphan_doc
                          (["/r/src/b.ts"] ++ ["/r/src/a.ts"]))))
  ⊆ dom (unused (classes (analyse id rel orphan_disk orphan_doc
                            ["/r/src/b.ts"]))).
Proof.
  assert (H : ∀ f : string,
            f ∈ ["/r/src/b.ts"] → f ∈ ["/r/src/b.ts"] ++ ["/r/src/a.ts"]).
  { intros f Hf. apply elem_of_app. left. exact Hf. }
  split; [exact H|].
  exact (proj2 (proj2 (more_files_never_demote id rel orphan_disk orphan_doc
                         _ _ H))).
Defined.

(** A file that calls [t] with a key of another document and quotes a path
    of another document. *)
Lemma unrelated_file_changes_nothing_witness :
  keys_in unrelated_disk "/r/src/u.ts" = {["zzz.y"]} ∧
  literals_in unrelated_disk "/r/src/u.ts" = ["zzz.y"; "other.path"] ∧
  patterns_in rel unrelated_disk "/r/src/u.ts" = [] ∧
  main id rel unrelated_disk unrelated_doc ([] ++ "/r/src/u.ts" :: ["/r/src/a.ts"])
  = main id rel unrelated_disk unrelated_doc ([] ++ ["/r/src/a.ts"]).
Proof.
  assert (E1 : keys_in unrelated_disk "/r/src/u.ts" = {["zzz.y"]})
    by by_evaluation.
  assert (E2 : literals_in unrelated_disk "/r/src/u.ts" = ["zzz.y"; "other.path"])
    by by_evaluation.
  assert (E3 : patterns_in rel unrelated_disk "/r/src/u.ts" = [])
    by by_evaluation.
  assert (H1 : ∀ key, key ∈ keys_in unrelated_disk "/r/src/u.ts" →
                 key ∉ dom (flatten_keys id (JDict unrelated_doc) "")).
  { intros key Hk. rewrite E1 in Hk. apply elem_of_singleton in Hk.
    rewrite Hk. by_evaluation. }
  assert (H2 : ∀ key, key ∈ literals_in unrelated_disk "/r/src/u.ts" →
                 key ∉ dom (flatten_keys id (JDict unrelated_doc) "")).
  { intros key Hk. rewrite E2 in Hk.
    apply elem_of_cons in Hk as [Hk|Hk]; [rewrite Hk; by_evaluation|].
    apply list_elem_of_singleton in Hk. rewrite Hk. by_evaluation. }
  split; [exact E1|]. split; [exact E2|]. split; [exact E3|].
  exact (unrelated_file_changes_nothing id rel unrelated_disk unrelated_doc
           [] "/r/src/u.ts" ["/r/src/a.ts"] H1 H2 E3).
Defined.

End MoreChecks.
